(** * Link checker: extraction, probing and aggregation

    A shallow embedding of [comprehensive_link_checker.py] (class
    [ComprehensiveLinkChecker]) together with the two sibling helpers of
    [link_test_script.py] ([generate_report]) and [simple_link_test.py]
    ([analyze_javascript_functions]) that share its formulas.

    Conventions of the embedding:
    - a Python [str] is a [string]; the regular-expression engine works on
      its characters ([list ascii]); every character is a code point
      below 256;
    - the regular expressions of the source are terms of [re], run by a
      backtracking matcher with Python's greedy, leftmost semantics;
    - Python [int] is [Z]; Python [float] is an IEEE-754 binary64 value
      ([spec_float] with [prec = 53] and [emax = 1024]);
    - a Python [set] of strings is a [gset string];
    - the network is a parameter: a step function on an abstract world
      that either returns a response or raises an exception. *)

From Stdlib Require Import ZArith QArith Qabs Ascii String List Bool Lia SpecFloat.
From stdpp Require Import gmap strings list.

Local Open Scope list_scope.

(** ** Characters and strings *)

Abbreviation chars := list_ascii_of_string.
Abbreviation str := string_of_list_ascii.

Definition code (c : ascii) : nat := nat_of_ascii c.

Definition in_range (lo hi : nat) (c : ascii) : bool :=
  (lo <=? code c)%nat && (code c <=? hi)%nat.

Definition is_lower (c : ascii) : bool := in_range 97 122 c.
Definition is_upper (c : ascii) : bool := in_range 65 90 c.
Definition is_digit (c : ascii) : bool := in_range 48 57 c.

(** [str.lower()] on one character of the ASCII letters; the only case
    folding the patterns of the source can observe below code point 256. *)
Definition lower (c : ascii) : ascii :=
  if is_upper c then ascii_of_nat (code c + 32) else c.

(** ** A subset of Python's [re]

    Exactly the constructs the patterns of the source use. *)

Inductive re : Type :=
  | Str (l : string)                      (* a literal string *)
  | Cls (p : ascii -> bool)               (* one character of a class *)
  | Rep (p : ascii -> bool) (least : nat) (* greedy [..]* (0) or [..]+ (1) *)
  | Cat (r1 r2 : re)                      (* r1 r2 *)
  | Alt (r1 r2 : re)                      (* r1|r2 *)
  | Opt (r : re)                          (* r? *)
  | Grp (i : nat) (r : re)                (* the i-th capturing group *)
  | NotAhead (r : re).                    (* (?!r) *)

Abbreviation groups := (gmap nat (list ascii)).

(** A literal at the head of the input; [ci] is [re.IGNORECASE]. *)
Definition same_char (ci : bool) (c x : ascii) : bool :=
  if ci then Ascii.eqb (lower c) (lower x) else Ascii.eqb c x.

Fixpoint strip (ci : bool) (l s : list ascii) : option (list ascii) :=
  match l, s with
  | [], _ => Some s
  | c :: l', x :: s' => if same_char ci c x then strip ci l' s' else None
  | _ :: _, [] => None
  end.

(** Greedy repetition of a character class with at least [least]
    characters: the longest run is tried first, then shorter ones. *)
Fixpoint rep {X : Type} (p : ascii -> bool) (least : nat) (s : list ascii)
    (k : list ascii -> option X) : option X :=
  let stop := match least with O => k s | S _ => None end in
  match s with
  | x :: s' =>
      if p x then
        match rep p (Nat.pred least) s' k with
        | Some y => Some y
        | None => stop
        end
      else stop
  | [] => stop
  end.

(** The backtracking matcher, in continuation-passing style: [k] is what
    remains to be matched after [r]; [None] makes the matcher backtrack. *)
Fixpoint exec {X : Type} (ci : bool) (r : re) (s : list ascii) (g : groups)
    (k : list ascii -> groups -> option X) : option X :=
  match r with
  | Str l =>
      match strip ci (chars l) s with
      | Some s' => k s' g
      | None => None
      end
  | Cls p =>
      match s with
      | x :: s' => if p x then k s' g else None
      | [] => None
      end
  | Rep p least => rep p least s (fun s' => k s' g)
  | Cat r1 r2 => exec ci r1 s g (fun s' g' => exec ci r2 s' g' k)
  | Alt r1 r2 =>
      match exec ci r1 s g k with
      | Some y => Some y
      | None => exec ci r2 s g k
      end
  | Opt r1 =>
      match exec ci r1 s g k with
      | Some y => Some y
      | None => k s g
      end
  | Grp i r1 =>
      exec ci r1 s g
        (fun s' g' => k s' (<[i := take (length s - length s') s]> g'))
  | NotAhead r1 =>
      match exec ci r1 s g (fun _ _ => Some tt) with
      | Some _ => None
      | None => k s g
      end
  end.

(** A match object: [group(0)] and the numbered groups. *)
Record rmatch : Type := { whole : list ascii; caps : groups }.

(** [pattern.match(s)] at the head of [s]: the match and the rest. *)
Definition match_at (ci : bool) (r : re) (s : list ascii)
    : option (rmatch * list ascii) :=
  exec ci r s ∅
    (fun s' g =>
       Some ({| whole := take (length s - length s') s; caps := g |}, s')).

(** [m.group(i)] for a group that took part in the match. *)
Definition group (i : nat) (m : rmatch) : string :=
  match i with
  | O => str (whole m)
  | S _ => str (default [] (caps m !! i))
  end.

(** [re.finditer]: leftmost, non-overlapping matches.  [skip] counts the
    characters still covered by the previous match; an empty match moves
    the scan one character on. *)
Fixpoint scan (ci : bool) (r : re) (skip : nat) (s : list ascii)
    : list rmatch :=
  match skip with
  | S n => match s with [] => [] | _ :: s' => scan ci r n s' end
  | O =>
      match match_at ci r s with
      | Some (m, _) =>
          m :: match s with
               | [] => []
               | _ :: s' => scan ci r (Nat.pred (length (whole m))) s'
               end
      | None => match s with [] => [] | _ :: s' => scan ci r 0 s' end
      end
  end.

Definition finditer (ci : bool) (r : re) (text : string) : list rmatch :=
  scan ci r 0 (chars text).

(** [re.findall] for a pattern with exactly one group. *)
Definition findall1 (r : re) (text : string) : list string :=
  group 1 <$> finditer false r text.

(** [re.match(r, s)] *)
Definition re_match (r : re) (s : string) : option rmatch :=
  fst <$> match_at false r (chars s).

(** The two quote characters, code points 34 and 39. *)
Definition dquote : ascii := ascii_of_nat 34.
Definition squote : ascii := ascii_of_nat 39.

(** Character classes of the source patterns; [Q] below stands for the
    class of the two quote characters. *)
Definition is_quote (c : ascii) : bool :=
  Ascii.eqb c dquote || Ascii.eqb c squote.
Definition not_quote (c : ascii) : bool := negb (is_quote c).
Definition not_gt (c : ascii) : bool := negb (Ascii.eqb c ">"%char).

(** [\s] on a [str] pattern: the characters with [str.isspace()]. *)
Definition is_space (c : ascii) : bool :=
  in_range 9 13 c || in_range 28 32 c
  || (code c =? 133)%nat || (code c =? 160)%nat.

(** [[a-zA-Z_$]] and [[a-zA-Z0-9_$]] *)
Definition ident_start (c : ascii) : bool :=
  is_lower c || is_upper c || Ascii.eqb c "_"%char || Ascii.eqb c "$"%char.
Definition ident_char (c : ascii) : bool := ident_start c || is_digit c.

Definition quote : re := Cls is_quote.
(** [https?://] *)
Definition scheme : re := Cat (Str "http") (Cat (Opt (Str "s")) (Str "://")).

(** [r'href=[Q]https?://([^Q]+)[Q]'] *)
Definition external_pattern : re :=
  Cat (Str "href=") (Cat quote (Cat scheme
    (Cat (Grp 1 (Rep not_quote 1)) quote))).

(** [r'href=[Q](?!https?://)([^Q]+)[Q]'] *)
Definition internal_pattern : re :=
  Cat (Str "href=") (Cat quote (Cat (NotAhead scheme)
    (Cat (Grp 1 (Rep not_quote 1)) quote))).

(** [r'onclick=[Q]([^Q]+)[Q]'] *)
Definition onclick_pattern : re :=
  Cat (Str "onclick=") (Cat quote (Cat (Grp 1 (Rep not_quote 1)) quote)).

(** [r'<form[^>]*action=[Q]([^Q]+)[Q]'] *)
Definition form_pattern : re :=
  Cat (Str "<form") (Cat (Rep not_gt 0) (Cat (Str "action=")
    (Cat quote (Cat (Grp 1 (Rep not_quote 1)) quote)))).

(** [r'src=[Q]([^Q]+\.(jpg|jpeg|png|gif|svg|webp))[Q]'] *)
Definition img_pattern : re :=
  Cat (Str "src=") (Cat quote
    (Cat (Grp 1 (Cat (Rep not_quote 1) (Cat (Str ".")
       (Grp 2 (Alt (Str "jpg") (Alt (Str "jpeg") (Alt (Str "png")
          (Alt (Str "gif") (Alt (Str "svg") (Str "webp"))))))))))
     quote)).

(** [r'<script[^>]*src=[Q]([^Q]+)[Q]'] *)
Definition script_pattern : re :=
  Cat (Str "<script") (Cat (Rep not_gt 0) (Cat (Str "src=")
    (Cat quote (Cat (Grp 1 (Rep not_quote 1)) quote)))).

(** [r'<link[^>]*href=[Q]([^Q]+\.css)[Q]'] *)
Definition css_pattern : re :=
  Cat (Str "<link") (Cat (Rep not_gt 0) (Cat (Str "href=")
    (Cat quote
      (Cat (Grp 1 (Cat (Rep not_quote 1) (Str ".css"))) quote)))).

(** [r'(IDENT)\s*\('], where IDENT is one [[a-zA-Z_$]] followed by any
    number of [[a-zA-Z0-9_$]] *)
Definition call_pattern : re :=
  Cat (Grp 1 (Cat (Cls ident_start) (Rep ident_char 0)))
    (Cat (Rep is_space 0) (Str "(")).

(** [r'function\s+(IDENT)\s*\('] *)
Definition function_def_pattern : re :=
  Cat (Str "function") (Cat (Rep is_space 1)
    (Cat (Grp 1 (Cat (Cls ident_start) (Rep ident_char 0)))
      (Cat (Rep is_space 0) (Str "(")))).

(** ** [extract_links_from_html] *)

(** The dictionary [links] of the source: seven fixed keys, each a list. *)
Record Links : Type := {
  external_links : list string;
  internal_links : list string;
  onclick_handlers : list string;
  form_actions : list string;
  image_sources : list string;
  script_sources : list string;
  css_links : list string
}.

(** [s[6:-1]] *)
Definition slice_6_m1 (s : list ascii) : list ascii :=
  take (length s - 1 - 6) (drop 6 s).

(** [link.startswith(p)] *)
Definition startswith (p link : string) : bool :=
  match strip false (chars p) (chars link) with
  | Some _ => true
  | None => false
  end.

(** [bool(link)] *)
Definition truthy (link : string) : bool :=
  match link with EmptyString => false | String _ _ => true end.

Definition keep_internal (link : string) : bool :=
  truthy link && negb (startswith "mailto:" link)
              && negb (startswith "tel:" link).

Definition extract_links_from_html (html_content : string) : Links :=
  {| external_links :=
       (fun m => str (slice_6_m1 (whole m)))
         <$> finditer false external_pattern html_content;
     internal_links :=
       List.filter keep_internal
         (group 1 <$> finditer false internal_pattern html_content);
     onclick_handlers :=
       group 1 <$> finditer false onclick_pattern html_content;
     form_actions := group 1 <$> finditer false form_pattern html_content;
     image_sources := group 1 <$> finditer true img_pattern html_content;
     script_sources :=
       group 1 <$> finditer false script_pattern html_content;
     css_links := group 1 <$> finditer false css_pattern html_content |}.

(** [sum(len(v) for v in links.values())] *)
Definition total_links (l : Links) : Z :=
  Z.of_nat (length (external_links l) + length (internal_links l)
            + length (onclick_handlers l) + length (form_actions l)
            + length (image_sources l) + length (script_sources l)
            + length (css_links l)).

(** ** Exceptions

    The classes the code can meet, with Python's hierarchy: [HTTPError]
    is a [URLError], which is an [OSError]; everything below is an
    [Exception].  [KeyboardInterrupt] and [SystemExit] are not
    [Exception]s, no clause of the source catches them, and they are not
    among the outcomes of a fetch. *)

Inductive exn_class : Type :=
  | HTTPError | URLError | TimeoutError | OSError
  | UnicodeError | ValueError | KeyError | ZeroDivisionError | Exception.

Global Instance exn_class_eq_dec : EqDecision exn_class.
Proof. solve_decision. Defined.

(** The method resolution order of a class: itself, then its bases. *)
Definition mro (c : exn_class) : list exn_class :=
  match c with
  | HTTPError => [HTTPError; URLError; OSError; Exception]
  | URLError => [URLError; OSError; Exception]
  | TimeoutError => [TimeoutError; OSError; Exception]
  | OSError => [OSError; Exception]
  | UnicodeError => [UnicodeError; ValueError; Exception]
  | ValueError => [ValueError; Exception]
  | KeyError => [KeyError; Exception]
  | ZeroDivisionError => [ZeroDivisionError; Exception]
  | Exception => [Exception]
  end.

(** An exception object: its class, [e.code] (of an [HTTPError]),
    [str(e.reason)] (of a [URLError]) and [str(e)]. *)
Record exn : Type := {
  exn_cls : exn_class;
  exn_code : Z;
  exn_reason : string;
  exn_str : string
}.

Definition isinstance (e : exn) (c : exn_class) : bool :=
  bool_decide (c ∈ mro (exn_cls e)).

(** The result of running a piece of Python: a value or a raised
    exception. *)
Inductive outcome (A : Type) : Type :=
  | Return (a : A)
  | Raise (e : exn).
Arguments Return {A} a.
Arguments Raise {A} e.

(** [try: body except c1 as e: h1 ... except cn as e: hn]: the first
    clause whose class the exception is an instance of handles it; with
    none, the exception propagates. *)
Definition try_except {A : Type} (body : outcome A)
    (handlers : list (exn_class * (exn -> outcome A))) : outcome A :=
  match body with
  | Return a => Return a
  | Raise e =>
      match List.find (fun h => isinstance e (fst h)) handlers with
      | Some h => snd h e
      | None => Raise e
      end
  end.

(** ** [test_url] *)

(** What the code reads of an HTTP response. *)
Record response : Type := {
  getcode : Z;
  header_content_type : option string  (* headers.get('content-type') *)
}.

(** The dictionary returned by [test_url]; an absent key is [None]. *)
Record probe : Type := {
  status : string;
  status_code : option Z;
  content_type : option string;
  error : option string;
  accessible : bool
}.

(** The [except] clauses of [test_url], in the order of the source. *)
Definition test_url_handlers : list (exn_class * (exn -> outcome probe)) :=
  [ (HTTPError, fun e => Return
       {| status := "http_error"; status_code := Some (exn_code e);
          content_type := None; error := Some (exn_reason e);
          accessible := false |});
    (URLError, fun e => Return
       {| status := "url_error"; status_code := None;
          content_type := None; error := Some (exn_reason e);
          accessible := false |});
    (Exception, fun e => Return
       {| status := "error"; status_code := None;
          content_type := None; error := Some (exn_str e);
          accessible := false |}) ].

(** The body of [test_url] once the request has been answered:
    [fetched] is what building the request and [urlopen] produced. *)
Definition classify (fetched : outcome response) : outcome probe :=
  try_except
    (match fetched with
     | Return resp => Return
         {| status := "success"; status_code := Some (getcode resp);
            content_type :=
              Some (default EmptyString (header_content_type resp));
            error := None; accessible := true |}
     | Raise e => Raise e
     end)
    test_url_handlers.

(** One entry of [link_results]. *)
Record link_result : Type := { url : string; result : probe }.

(** One entry of [self.results["link_checks"]]. *)
Record batch : Type := {
  source : string;
  external_links_tested : Z;
  external_links_total : Z;
  results : list link_result
}.

(** [self.results["live_website"]] and [self.results["local_file"]]: a
    dictionary whose keys may be absent. *)
Record site : Type := {
  site_accessible : option bool;
  site_status_code : option Z;
  site_size : option Z;
  site_links : option Links;
  site_total_links : option Z;
  site_error : option string
}.

(** [self.results["comparison"]] once filled. *)
Record comparison_entry : Type := {
  live_links : Z;
  local_links : Z;
  difference : Z
}.

(** A Python number that is either an [int] or a [float]. *)
Inductive pynum : Type :=
  | PInt (z : Z)
  | PFloat (f : spec_float).

(** [self.results["summary"]] *)
Record summary_entry : Type := {
  live_website_accessible : bool;
  local_file_accessible : bool;
  total_external_links_tested : Z;
  working_external_links : Z;
  broken_external_links : Z;
  success_rate : pynum
}.

(** [self.results] *)
Record Results : Type := {
  live_website : site;
  local_file : site;
  comparison : option comparison_entry;
  link_checks : list batch;
  summary : option summary_entry
}.

Definition empty_site : site :=
  {| site_accessible := None; site_status_code := None; site_size := None;
     site_links := None; site_total_links := None; site_error := None |}.

(** [__init__] *)
Definition init : Results :=
  {| live_website := empty_site; local_file := empty_site;
     comparison := None; link_checks := []; summary := None |}.

(** ** The prober over an abstract network *)

Section Prober.
(** The state of the outside world and one fetch: building the request
    for [url] and calling [urlopen] with [timeout]. *)
Variable World : Type.
Variable fetch : World -> string -> Z -> outcome response * World.

(** Code that may raise and that moves the world on. *)
Definition M (A : Type) : Type := World -> outcome A * World.

Definition ret {A : Type} (a : A) : M A := fun w => (Return a, w).

Definition bind {A B : Type} (c : M A) (f : A -> M B) : M B :=
  fun w =>
    match c w with
    | (Return a, w') => f a w'
    | (Raise e, w') => (Raise e, w')
    end.

(** [test_url(url, timeout)] *)
Definition test_url (url : string) (timeout : Z) : M probe :=
  fun w => let '(r, w') := fetch w url timeout in (classify r, w').

(** The [for] loop of [test_external_links] over [external_links[:10]],
    appending to [link_results]. *)
Fixpoint probe_loop (links : list string) (link_results : list link_result)
    : M (list link_result) :=
  match links with
  | [] => ret link_results
  | link :: rest =>
      bind (test_url link 5) (fun r =>
        probe_loop rest (link_results ++ [{| url := link; result := r |}]))
  end.

(** [test_external_links(links_dict, source_name)] *)
Definition test_external_links (self : Results) (links_dict : Links)
    (source_name : string) : M Results :=
  let links := external_links links_dict in
  match links with
  | [] => ret self
  | _ :: _ =>
      bind (probe_loop (take 10 links) []) (fun link_results =>
        ret {| live_website := live_website self;
               local_file := local_file self;
               comparison := comparison self;
               link_checks := link_checks self ++
                 [{| source := source_name;
                     external_links_tested :=
                       Z.of_nat (length link_results);
                     external_links_total := Z.of_nat (length links);
                     results := link_results |}];
               summary := summary self |})
  end.
End Prober.

Arguments ret {World A} a.
Arguments bind {World A B} c f.

(** A network that also keeps the list of the URLs it was asked for. *)
Definition logged {World : Type}
    (fetch : World -> string -> Z -> outcome response * World)
    : World * list string -> string -> Z
      -> outcome response * (World * list string) :=
  fun '(w, log) url timeout =>
    let '(r, w') := fetch w url timeout in (r, (w', log ++ [url])).

(** ** [analyze_javascript_functionality] *)

(** The body of the loop over the handlers: the name [re.match] captures
    at the head of a handler, if any. *)
Definition called_name (handler : string) : option string :=
  group 1 <$> re_match call_pattern handler.

(** [function_names], built by the loop over [onclick_handlers]. *)
Definition function_names_of (handlers : list string) : gset string :=
  foldl (fun names handler =>
           match called_name handler with
           | Some f => names ∪ {[f]}
           | None => names
           end) ∅ handlers.

(** The dictionary the analysis returns; the lists made from sets are
    kept as sets, their order being unspecified. *)
Record js_report : Type := {
  js_onclick_handlers : Z;
  js_function_names : gset string;
  js_defined_functions : gset string;
  js_missing_functions : gset string
}.

Definition analyze_javascript_functionality (html_content : string)
    : js_report :=
  let onclick_handlers := findall1 onclick_pattern html_content in
  let function_names := function_names_of onclick_handlers in
  let defined_functions : gset string :=
    list_to_set (findall1 function_def_pattern html_content) in
  let missing_functions := function_names ∖ defined_functions in
  {| js_onclick_handlers := Z.of_nat (length onclick_handlers);
     js_function_names := function_names;
     js_defined_functions := defined_functions;
     js_missing_functions := missing_functions |}.

(** [simple_link_test.py], [analyze_javascript_functions]: the same
    loop, then the expected names that were not called. *)
Definition expected_functions : list string :=
  ["switchSection"; "toggleAdminAccess"; "toggleWalletOptions";
   "connectWallet"; "createTrade"; "addNewCard"; "saveSettings";
   "toggleCart"; "checkout"; "switchAdminTab"; "addToCart";
   "placeBid"; "acceptTrade"; "declineTrade"]%string.

Definition simple_missing_of (handlers : list string) : list string :=
  let function_calls := function_names_of handlers in
  List.filter (fun expected => negb (bool_decide (expected ∈ function_calls)))
    expected_functions.

Definition simple_analyze_javascript_functions (html_content : string)
    : list string :=
  simple_missing_of (findall1 onclick_pattern html_content).

(** ** [compare_versions] *)

(** What the comparison prints about the two totals. *)
Inductive verdict : Type :=
  | CannotCompare
  | SameNumber
  | LiveHasMore (n : Z)
  | LocalHasMore (n : Z).

(** [d.get("accessible")] used as a condition. *)
Definition get_accessible (s : site) : bool :=
  default false (site_accessible s).

Definition key_error (key : string) : exn :=
  {| exn_cls := KeyError; exn_code := 0; exn_reason := EmptyString;
     exn_str := key |}.

(** [d["total_links"]] *)
Definition get_total_links (s : site) : outcome Z :=
  match site_total_links s with
  | Some n => Return n
  | None => Raise (key_error "total_links")
  end.

Definition compare_versions (self : Results) : outcome (Results * verdict) :=
  if negb (get_accessible (live_website self))
     || negb (get_accessible (local_file self))
  then Return (self, CannotCompare)
  else
    match get_total_links (live_website self) with
    | Raise e => Raise e
    | Return live_total =>
        match get_total_links (local_file self) with
        | Raise e => Raise e
        | Return local_total =>
            let said :=
              if (live_total =? local_total)%Z then SameNumber
              else if (live_total >? local_total)%Z
                   then LiveHasMore (live_total - local_total)
                   else LocalHasMore (local_total - live_total) in
            Return
              ({| live_website := live_website self;
                  local_file := local_file self;
                  comparison := Some
                    {| live_links := live_total;
                       local_links := local_total;
                       difference := (live_total - local_total)%Z |};
                  link_checks := link_checks self;
                  summary := summary self |}, said)
        end
    end.

(** The entry [test_local_file] stores for a file that could be read, and
    the one [test_live_website] stores for a page that could be fetched. *)
Definition local_file_entry (content : string) : site :=
  let links := extract_links_from_html content in
  {| site_accessible := Some true; site_status_code := None;
     site_size := Some (Z.of_nat (String.length content));
     site_links := Some links;
     site_total_links := Some (total_links links);
     site_error := None |}.

Definition live_website_entry (code : Z) (content : string) : site :=
  let links := extract_links_from_html content in
  {| site_accessible := Some true; site_status_code := Some code;
     site_size := Some (Z.of_nat (String.length content));
     site_links := Some links;
     site_total_links := Some (total_links links);
     site_error := None |}.

(** ** Floating point and [generate_summary_report] *)

Definition prec : Z := 53.
Definition emax : Z := 1024.

(** [float(z)]: the nearest binary64 number. *)
Definition float_of_int (z : Z) : spec_float :=
  binary_normalize prec emax z 0 false.

(** An integer as an exact, unnormalised operand. *)
Definition exact_of_int (z : Z) : spec_float :=
  match z with
  | Z0 => S754_zero false
  | Zpos p => S754_finite false p 0
  | Zneg p => S754_finite true p 0
  end.

Definition zero_division : exn :=
  {| exn_cls := ZeroDivisionError; exn_code := 0; exn_reason := EmptyString;
     exn_str := "division by zero" |}.

(** [a / b] on two [int]: the correctly rounded quotient, or
    [ZeroDivisionError].  (The [OverflowError] of a quotient beyond the
    range of a double needs a count above [2^1023] and is left out.) *)
Definition int_truediv (a b : Z) : outcome spec_float :=
  if (b =? 0)%Z then Raise zero_division
  else Return (SFdiv prec emax (exact_of_int a) (exact_of_int b)).

(** [x * n] for a [float] and an [int] *)
Definition float_mul_int (x : spec_float) (n : Z) : spec_float :=
  SFmul prec emax x (float_of_int n).

(** [(working / total * 100) if total > 0 else 0] *)
Definition rate_expr (working total : Z) : outcome pynum :=
  if (total >? 0)%Z then
    match int_truediv working total with
    | Return q => Return (PFloat (float_mul_int q 100))
    | Raise e => Raise e
    end
  else Return (PInt 0).

(** [sum(1 for link in check.get("results", []) if
    link["result"]["accessible"])] *)
Definition working_in (check : batch) : Z :=
  Z.of_nat (length (List.filter (fun link => accessible (result link))
                      (results check))).

(** Python's [sum] of integers. *)
Definition sum_Z (l : list Z) : Z := foldl Z.add 0%Z l.

(** [generate_summary_report], up to the two files it writes. *)
Definition generate_summary_report (self : Results) : outcome Results :=
  let total_external_tested :=
    sum_Z (external_links_tested <$> link_checks self) in
  let working_links := sum_Z (working_in <$> link_checks self) in
  match rate_expr working_links total_external_tested with
  | Raise e => Raise e
  | Return rate =>
      Return
        {| live_website := live_website self;
           local_file := local_file self;
           comparison := comparison self;
           link_checks := link_checks self;
           summary := Some
             {| live_website_accessible :=
                  get_accessible (live_website self);
                local_file_accessible := get_accessible (local_file self);
                total_external_links_tested := total_external_tested;
                working_external_links := working_links;
                broken_external_links :=
                  (total_external_tested - working_links)%Z;
                success_rate := rate |} |}
  end.

(** [link_test_script.py], [generate_report]: the success rate of the
    interactive elements, from its two counters. *)
Definition generate_report_success_rate
    (interactive_elements_tested interactive_elements_working : Z)
    : outcome pynum :=
  let total_interactive := interactive_elements_tested in
  let working_interactive := interactive_elements_working in
  if (total_interactive >? 0)%Z then
    match int_truediv working_interactive total_interactive with
    | Return q => Return (PFloat (float_mul_int q 100))
    | Raise e => Raise e
    end
  else Return (PInt 0).

(** ** The bands of [create_readable_summary] *)

(** The exact comparison Python makes between a number and an [int];
    [None] when the number is a NaN. *)
Definition signed (s : bool) (m : positive) : Z :=
  if s then Z.neg m else Z.pos m.

Definition compare_int (x : pynum) (n : Z) : option Datatypes.comparison :=
  match x with
  | PInt z => Some (z ?= n)%Z
  | PFloat (S754_zero _) => Some (0 ?= n)%Z
  | PFloat (S754_infinity s) => Some (if s then Lt else Gt)
  | PFloat S754_nan => None
  | PFloat (S754_finite s m e) =>
      Some (if (0 <=? e)%Z then (signed s m * 2 ^ e ?= n)%Z
            else (signed s m ?= n * 2 ^ (- e))%Z)
  end.

(** [x >= n] *)
Definition py_ge (x : pynum) (n : Z) : bool :=
  match compare_int x n with
  | Some Gt | Some Eq => true
  | Some Lt | None => false
  end.

Inductive band : Type := Excellent | Good | Poor | VeryPoor.

(** The line each band writes. *)
Definition band_line (b : band) : string :=
  match b with
  | Excellent => "Excellent link quality (90%+ working)"
  | Good => "Good link quality (75-90% working)"
  | Poor => "Poor link quality (50-75% working)"
  | VeryPoor => "Very poor link quality (<50% working)"
  end.

(** The [if]/[elif] chain on [summary["success_rate"]]. *)
Definition quality_band (rate : pynum) : band :=
  if py_ge rate 90 then Excellent
  else if py_ge rate 75 then Good
  else if py_ge rate 50 then Poor
  else VeryPoor.

(** The value of a number, when it is finite. *)
Definition value (x : pynum) : option Q :=
  match x with
  | PInt z => Some (inject_Z z)
  | PFloat (S754_zero _) => Some 0%Q
  | PFloat (S754_finite s m e) =>
      Some (if (0 <=? e)%Z then inject_Z (signed s m * 2 ^ e)
            else Qmake (signed s m) (Z.to_pos (2 ^ (- e))))
  | PFloat _ => None
  end.

(** ** [test_live_website], [test_local_file] and [run_comprehensive_test] *)

Definition set_live_website (self : Results) (s : site) : Results :=
  {| live_website := s; local_file := local_file self;
     comparison := comparison self; link_checks := link_checks self;
     summary := summary self |}.

Definition set_local_file (self : Results) (s : site) : Results :=
  {| live_website := live_website self; local_file := s;
     comparison := comparison self; link_checks := link_checks self;
     summary := summary self |}.

(** [d["error"] = msg] on an entry that is kept otherwise. *)
Definition with_error (s : site) (msg : string) : site :=
  {| site_accessible := site_accessible s;
     site_status_code := site_status_code s; site_size := site_size s;
     site_links := site_links s; site_total_links := site_total_links s;
     site_error := Some msg |}.

(** The entry of a source that could not be read. *)
Definition failed_entry (msg : string) (code : option Z) : site :=
  {| site_accessible := Some false; site_status_code := code;
     site_size := None; site_links := None; site_total_links := None;
     site_error := Some msg |}.

Section Run.
(** The outside world: the probe of [test_url]; the second request of
    [test_live_website] with its [read] and [decode]; the file system. *)
Variable World : Type.
Variable fetch : World -> string -> Z -> outcome response * World.
Variable fetch_content : World -> string -> Z -> outcome string * World.
Variable path_exists : World -> string -> bool * World.
Variable read_file : World -> string -> outcome string * World.

(** [raise e] and a computation that does not touch the world. *)
Definition lift {A : Type} (o : outcome A) : M World A := fun w => (o, w).

(** [try: body except Exception as e: handler] *)
Definition try_catch {A : Type} (body : M World A) (handler : exn -> M World A)
    : M World A :=
  fun w =>
    match body w with
    | (Return a, w') => (Return a, w')
    | (Raise e, w') =>
        if isinstance e Exception then handler e w' else (Raise e, w')
    end.

(** [test_live_website]: the new results and the content, or [None]. *)
Definition test_live_website (self : Results)
    : M World (Results * option string) :=
  let url := "https://mybird.app"%string in
  bind (test_url World fetch url 10) (fun result =>
    if accessible result then
      match status_code result with
      | None => lift (Raise (key_error "status_code"))
      | Some code =>
          try_catch
            (bind (fun w => fetch_content w url 10) (fun content =>
               ret (set_live_website self (live_website_entry code content),
                    Some content)))
            (fun e =>
               ret (set_live_website self
                      (with_error (live_website self) (exn_str e)), None))
      end
    else
      ret (set_live_website self
             (failed_entry (default "Unknown error"%string (error result))
                (status_code result)), None)).

(** [test_local_file] *)
Definition test_local_file (self : Results)
    : M World (Results * option string) :=
  fun w =>
    let '(found, w1) := path_exists w "index.html" in
    if negb found then
      (Return (set_local_file self (failed_entry "File not found" None), None),
       w1)
    else
      try_catch
        (bind (fun w => read_file w "index.html") (fun content =>
           ret (set_local_file self (local_file_entry content), Some content)))
        (fun e =>
           ret (set_local_file self (failed_entry (exn_str e) None), None))
        w1.

(** [bool(content)] for the content a test returned, or [None]. *)
Definition has_content (content : option string) : bool :=
  match content with
  | Some c => truthy c
  | None => false
  end.

(** One of the two [if] blocks of [run_comprehensive_test], over the
    entry [entry] of the results: the batch of probes on its links; the
    JavaScript analysis that follows only prints. *)
Definition probe_if_read (self : Results) (content : option string)
    (entry : Results -> site) (source_name : string) : M World Results :=
  if has_content content && get_accessible (entry self) then
    match site_links (entry self) with
    | None => lift (Raise (key_error "links"))
    | Some links => test_external_links World fetch self links source_name
    end
  else ret self.

(** [run_comprehensive_test], up to the report files and the printing. *)
Definition run_comprehensive_test (self : Results) : M World Results :=
  bind (test_live_website self) (fun '(self1, live_content) =>
  bind (test_local_file self1) (fun '(self2, local_content) =>
  bind (probe_if_read self2 live_content live_website "live website")
    (fun self3 =>
  bind (probe_if_read self3 local_content local_file "local file")
    (fun self4 =>
  bind (lift (compare_versions self4)) (fun '(self5, _) =>
  lift (generate_summary_report self5)))))).
End Run.

Arguments lift {World A} o.
Arguments try_catch {World A} body handler.

(** ** [simple_link_test.py]: the parser and the analyses *)

(** [needle in text] on strings. *)
Fixpoint contains_chars (needle text : list ascii) : bool :=
  match strip false needle text with
  | Some _ => true
  | None =>
      match text with
      | [] => false
      | _ :: rest => contains_chars needle rest
      end
  end.

Definition contains (needle text : string) : bool :=
  contains_chars (chars needle) (chars text).

Module Simple.

(** The attributes of a start tag as [HTMLParser] hands them over: names
    with their values, [None] for an attribute without a value. *)
Definition attributes : Type := list (string * option string).

(** [dict(attrs)]: a later attribute replaces an earlier one of the same
    name. *)
Definition dict (attrs : attributes) : gmap string (option string) :=
  foldl (fun d kv => <[kv.1 := kv.2]> d) ∅ attrs.

(** [attrs_dict.get(name)] and [attrs_dict.get(name, fallback)] *)
Definition get (d : gmap string (option string)) (name : string)
    : option string :=
  default None (d !! name).

Definition get_or (d : gmap string (option string)) (name fallback : string)
    : option string :=
  default (Some fallback) (d !! name).

(** The truth value of a value that may be [None]. *)
Definition truth (v : option string) : bool :=
  match v with
  | Some s => truthy s
  | None => false
  end.

(** The dictionaries the parser appends, by their [type]. *)
Inductive element : Type :=
  | Link (href onclick : option string)
  | Button (onclick : option string)
  | Form (action method : option string).

Record LinkParser : Type := {
  links : list element;
  buttons : list element;
  forms : list element
}.

(** [LinkParser()] *)
Definition new_parser : LinkParser :=
  {| links := []; buttons := []; forms := [] |}.

Definition handle_starttag (self : LinkParser) (tag : string)
    (attrs : attributes) : LinkParser :=
  let attrs_dict := dict attrs in
  if String.eqb tag "a" then
    let href := get attrs_dict "href" in
    let onclick := get attrs_dict "onclick" in
    if truth href || truth onclick then
      {| links := links self ++ [Link href onclick];
         buttons := buttons self; forms := forms self |}
    else self
  else if String.eqb tag "button" then
    let onclick := get attrs_dict "onclick" in
    if truth onclick then
      {| links := links self; buttons := buttons self ++ [Button onclick];
         forms := forms self |}
    else self
  else if String.eqb tag "form" then
    let action := get attrs_dict "action" in
    let method := get_or attrs_dict "method" "GET" in
    {| links := links self; buttons := buttons self;
       forms := forms self ++ [Form action method] |}
  else self.

(** What the report can say went wrong: the values its messages are
    formatted from. *)
Inductive issue : Type :=
  | HttpErrorIssue (code : Z) (reason : string)
  | UrlErrorIssue (reason : string)
  | ConnectionFailed (text : string)
  | MissingExpected (missing_functions : list string)
  | LocalhostReferences
  | MixedContent.

(** [self.results], without the two dates and the base URL; the key
    [javascript_functions] is absent at first. *)
Record results : Type := {
  connectivity : option string;
  response_time : option spec_float;
  status_code : option Z;
  content_size : option Z;
  links_found : Z;
  buttons_found : Z;
  forms_found : Z;
  interactive_elements : list element;
  potential_issues : list issue;
  recommendations : list string;
  javascript_functions : option (gset string)
}.

(** [__init__] *)
Definition init : results :=
  {| connectivity := None; response_time := None; status_code := None;
     content_size := None; links_found := 0; buttons_found := 0;
     forms_found := 0; interactive_elements := []; potential_issues := [];
     recommendations := []; javascript_functions := None |}.

(** [self.results["potential_issues"].append(i)] *)
Definition add_issue (self : results) (i : issue) : results :=
  {| connectivity := connectivity self; response_time := response_time self;
     status_code := status_code self; content_size := content_size self;
     links_found := links_found self; buttons_found := buttons_found self;
     forms_found := forms_found self;
     interactive_elements := interactive_elements self;
     potential_issues := potential_issues self ++ [i];
     recommendations := recommendations self;
     javascript_functions := javascript_functions self |}.

(** The failure branches of [test_connectivity]: the tag, the status
    code when there is one, and the issue. *)
Definition failed (self : results) (tag : string) (code : option Z)
    (i : issue) : results :=
  add_issue
    {| connectivity := Some tag; response_time := response_time self;
       status_code := code; content_size := content_size self;
       links_found := links_found self; buttons_found := buttons_found self;
       forms_found := forms_found self;
       interactive_elements := interactive_elements self;
       potential_issues := potential_issues self;
       recommendations := recommendations self;
       javascript_functions := javascript_functions self |} i.

Section Tester.
(** The outside world: the clock; the request with [urlopen], [read] and
    [decode], giving the status code and the content; [round(x, 2)]; and
    the start tags [HTMLParser.feed] reports for a text, in order. *)
Variable World : Type.
Variable clock : World -> spec_float * World.
Variable fetch_page : World -> string -> Z -> outcome (Z * string) * World.
Variable round2 : spec_float -> spec_float.
Variable start_tags : string -> list (string * attributes).

Definition test_connectivity (base_url : string) (self : results)
    : M World (results * option string) :=
  fun w =>
    let '(start_time, w1) := clock w in
    match fetch_page w1 base_url 10 with
    | (Return (code, content), w2) =>
        let '(end_time, w3) := clock w2 in
        (Return
           ({| connectivity := Some "success"%string;
               response_time :=
                 Some (round2 (SFsub prec emax end_time start_time));
               status_code := Some code;
               content_size := Some (Z.of_nat (String.length content));
               links_found := links_found self;
               buttons_found := buttons_found self;
               forms_found := forms_found self;
               interactive_elements := interactive_elements self;
               potential_issues := potential_issues self;
               recommendations := recommendations self;
               javascript_functions := javascript_functions self |},
            Some content), w3)
    | (Raise e, w2) =>
        if isinstance e HTTPError then
          (Return (failed self "http_error" (Some (exn_code e))
                     (HttpErrorIssue (exn_code e) (exn_reason e)), None), w2)
        else if isinstance e URLError then
          (Return (failed self "url_error" (status_code self)
                     (UrlErrorIssue (exn_reason e)), None), w2)
        else if isinstance e Exception then
          (Return (failed self "error" (status_code self)
                     (ConnectionFailed (exn_str e)), None), w2)
        else (Raise e, w2)
    end.

(** [parser.feed(html_content)] on a new parser. *)
Definition feed (self : LinkParser) (data : string) : LinkParser :=
  foldl (fun parser t => handle_starttag parser t.1 t.2) self
    (start_tags data).

Definition analyze_html_structure (self : results) (html_content : string)
    : results * LinkParser :=
  let parser := feed new_parser html_content in
  ({| connectivity := connectivity self; response_time := response_time self;
      status_code := status_code self; content_size := content_size self;
      links_found := Z.of_nat (length (links parser));
      buttons_found := Z.of_nat (length (buttons parser));
      forms_found := Z.of_nat (length (forms parser));
      interactive_elements := links parser ++ buttons parser ++ forms parser;
      potential_issues := potential_issues self;
      recommendations := recommendations self;
      javascript_functions := javascript_functions self |}, parser).
End Tester.

(** [analyze_javascript_functions]: the new results and the names
    returned, a list made from a set and kept as the set. *)
Definition analyze_javascript_functions (self : results)
    (html_content : string) : results * gset string :=
  let onclick_handlers := findall1 onclick_pattern html_content in
  let function_calls := function_names_of onclick_handlers in
  let missing_functions := simple_missing_of onclick_handlers in
  let self1 :=
    match missing_functions with
    | [] => self
    | _ :: _ => add_issue self (MissingExpected missing_functions)
    end in
  ({| connectivity := connectivity self1;
      response_time := response_time self1;
      status_code := status_code self1; content_size := content_size self1;
      links_found := links_found self1; buttons_found := buttons_found self1;
      forms_found := forms_found self1;
      interactive_elements := interactive_elements self1;
      potential_issues := potential_issues self1;
      recommendations := recommendations self1;
      javascript_functions := Some function_calls |}, function_calls).

(** [check_external_resources]; the two lists it finds are only counted
    and printed. *)
Definition check_external_resources (base_url : string) (self : results)
    (html_content : string) : results :=
  let self1 :=
    if contains "localhost" html_content
    then add_issue self LocalhostReferences else self in
  if contains "http://" html_content && startswith "https://" base_url
  then add_issue self1 MixedContent else self1.

End Simple.

(** ** [link_test_script.py]: the tester that drives a browser *)

Module Interactive.

(** The exceptions the script can meet, with their hierarchy: the two
    Selenium exceptions it names are [WebDriverException]s, everything is
    an [Exception]. *)
Inductive error_class : Type :=
  | TimeoutException | ElementClickInterceptedException | WebDriverException
  | RequestException | AttributeError | AnyException.

Global Instance error_class_eq_dec : EqDecision error_class.
Proof. solve_decision. Defined.

Definition bases (c : error_class) : list error_class :=
  match c with
  | TimeoutException => [TimeoutException; WebDriverException; AnyException]
  | ElementClickInterceptedException =>
      [ElementClickInterceptedException; WebDriverException; AnyException]
  | WebDriverException => [WebDriverException; AnyException]
  | RequestException => [RequestException; AnyException]
  | AttributeError => [AttributeError; AnyException]
  | AnyException => [AnyException]
  end.

(** An exception object: its class and [str(e)]. *)
Record error : Type := { cls : error_class; text : string }.

Definition is_a (e : error) (c : error_class) : bool :=
  bool_decide (c ∈ bases (cls e)).

Inductive res (A : Type) : Type :=
  | Ok (a : A)
  | Err (e : error).
Arguments Ok {A} a.
Arguments Err {A} e.

(** The entries of [detailed_results] and of [errors]: the values the
    dictionaries and the messages are made of. *)
Inductive detail : Type :=
  | Connectivity (url : string) (status_code : Z) (response_time : spec_float)
  | Performance (load_time : spec_float) (status : string).

Inductive message : Type :=
  | StatusCode (code : Z)
  | ConnectFailed (e : string)
  | LoadTimeout
  | NavigationFailed (nav_item e : string)
  | ButtonFailed (func e : string)
  | AdminFailed (e : string)
  | FormFailed (e : string)
  | PerformanceFailed (e : string).

(** [self.results], without the dates and the base URL; the key
    [success_rate] is absent until the report is generated. *)
Record results : Type := {
  links_tested : Z;
  links_working : Z;
  links_broken : Z;
  interactive_elements_tested : Z;
  interactive_elements_working : Z;
  interactive_elements_broken : Z;
  detailed_results : list detail;
  errors : list message;
  success_rate : option pynum
}.

(** The tester: its base URL, its results, and whether [__init__] could
    start the browser and so set [self.driver] and [self.wait]. *)
Record WebsiteTester : Type := {
  base_url : string;
  tester_results : results;
  has_driver : bool
}.

Definition init (url : string) (browser_started : bool) : WebsiteTester :=
  {| base_url := url;
     tester_results :=
       {| links_tested := 0; links_working := 0; links_broken := 0;
          interactive_elements_tested := 0; interactive_elements_working := 0;
          interactive_elements_broken := 0; detailed_results := [];
          errors := []; success_rate := None |};
     has_driver := browser_started |}.

Definition with_results (self : WebsiteTester) (r : results) : WebsiteTester :=
  {| base_url := base_url self; tester_results := r;
     has_driver := has_driver self |}.

(** The updates of [self.results] the script makes. *)
Definition count_tested (r : results) : results :=
  {| links_tested := links_tested r; links_working := links_working r;
     links_broken := links_broken r;
     interactive_elements_tested := interactive_elements_tested r + 1;
     interactive_elements_working := interactive_elements_working r;
     interactive_elements_broken := interactive_elements_broken r;
     detailed_results := detailed_results r; errors := errors r;
     success_rate := success_rate r |}.

Definition count_working (r : results) : results :=
  {| links_tested := links_tested r; links_working := links_working r;
     links_broken := links_broken r;
     interactive_elements_tested := interactive_elements_tested r;
     interactive_elements_working := interactive_elements_working r + 1;
     interactive_elements_broken := interactive_elements_broken r;
     detailed_results := detailed_results r; errors := errors r;
     success_rate := success_rate r |}.

Definition count_broken (r : results) : results :=
  {| links_tested := links_tested r; links_working := links_working r;
     links_broken := links_broken r;
     interactive_elements_tested := interactive_elements_tested r;
     interactive_elements_working := interactive_elements_working r;
     interactive_elements_broken := interactive_elements_broken r + 1;
     detailed_results := detailed_results r; errors := errors r;
     success_rate := success_rate r |}.

Definition add_error (m : message) (r : results) : results :=
  {| links_tested := links_tested r; links_working := links_working r;
     links_broken := links_broken r;
     interactive_elements_tested := interactive_elements_tested r;
     interactive_elements_working := interactive_elements_working r;
     interactive_elements_broken := interactive_elements_broken r;
     detailed_results := detailed_results r; errors := errors r ++ [m];
     success_rate := success_rate r |}.

Definition add_detail (d : detail) (r : results) : results :=
  {| links_tested := links_tested r; links_working := links_working r;
     links_broken := links_broken r;
     interactive_elements_tested := interactive_elements_tested r;
     interactive_elements_working := interactive_elements_working r;
     interactive_elements_broken := interactive_elements_broken r;
     detailed_results := detailed_results r ++ [d]; errors := errors r;
     success_rate := success_rate r |}.

Definition set_success_rate (rate : pynum) (r : results) : results :=
  {| links_tested := links_tested r; links_working := links_working r;
     links_broken := links_broken r;
     interactive_elements_tested := interactive_elements_tested r;
     interactive_elements_working := interactive_elements_working r;
     interactive_elements_broken := interactive_elements_broken r;
     detailed_results := detailed_results r; errors := errors r;
     success_rate := Some rate |}.

(** How an element is looked for. *)
Inductive By : Type := XPATH | TAG_NAME | CSS_SELECTOR.

(** What [requests.get] returns, as far as the script reads it. *)
Record http_response : Type := {
  response_status_code : Z;
  elapsed_total_seconds : spec_float
}.

Definition no_driver : error :=
  {| cls := AttributeError;
     text := "'WebsiteTester' object has no attribute 'driver'" |}.

Definition nav_items : list string :=
  [ "switchSection('marketplace')"; "switchSection('auctions')";
    "switchSection('trading')"; "switchSection('admin')" ]%string.

Definition button_functions : list string :=
  [ "toggleAdminAccess()"; "toggleWalletOptions()"; "connectWallet('Phantom')";
    "connectWallet('MetaMask')"; "connectWallet('Solflare')"; "createTrade()";
    "addNewCard()"; "saveSettings()"; "toggleCart()"; "checkout()" ]%string.

Definition admin_tabs : list string :=
  [ "switchAdminTab('overview')"; "switchAdminTab('cards')";
    "switchAdminTab('users')"; "switchAdminTab('settings')" ]%string.

Definition screen_sizes : list (Z * Z) :=
  [ (1920, 1080); (768, 1024); (375, 667) ]%Z.

Section Browser.
(** The outside world: the HTTP request, the browser and its elements,
    the clock. *)
Variable World : Type.
Variable element : Type.
Variable requests_get : World -> string -> Z -> res http_response * World.
Variable driver_get : World -> string -> res unit * World.
Variable wait_for_body : World -> res unit * World.
Variable find_element : World -> By -> string -> res element * World.
Variable find_elements : World -> By -> string -> res (list element) * World.
Variable is_displayed : World -> element -> res bool * World.
Variable is_enabled : World -> element -> res bool * World.
Variable click : World -> element -> res unit * World.
Variable execute_script : World -> string -> element -> res unit * World.
Variable clear : World -> element -> res unit * World.
Variable send_keys : World -> element -> string -> res unit * World.
Variable set_window_size : World -> Z -> Z -> res unit * World.
Variable driver_quit : World -> res unit * World.
Variable time : World -> spec_float * World.
Variable sleep : World -> Q -> World.

(** Code that may raise, that changes the tester and that moves the
    world on; what it changed before raising stays changed. *)
Definition T (A : Type) : Type :=
  WebsiteTester -> World -> res A * WebsiteTester * World.

Definition pure {A : Type} (a : A) : T A := fun self w => (Ok a, self, w).

Definition seq {A B : Type} (c : T A) (f : A -> T B) : T B :=
  fun self w =>
    match c self w with
    | (Ok a, self', w') => f a self' w'
    | (Err e, self', w') => (Err e, self', w')
    end.

(** A call on an element or on a module. *)
Definition call {A : Type} (op : World -> res A * World) : T A :=
  fun self w => let '(r, w') := op w in (r, self, w').

(** A call on [self.driver] or [self.wait]: the attribute must exist. *)
Definition driver {A : Type} (op : World -> res A * World) : T A :=
  fun self w =>
    if has_driver self then let '(r, w') := op w in (r, self, w')
    else (Err no_driver, self, w).

Definition now : T spec_float :=
  fun self w => let '(t, w') := time w in (Ok t, self, w').

Definition pause (seconds : Q) : T unit :=
  fun self w => (Ok tt, self, sleep w seconds).

(** An update of [self.results]. *)
Definition update (f : results -> results) : T unit :=
  fun self w => (Ok tt, with_results self (f (tester_results self)), w).

(** [try: body except c as e: handler] *)
Definition try_ {A : Type} (body : T A) (c : error_class)
    (handler : error -> T A) : T A :=
  fun self w =>
    match body self w with
    | (Ok a, self', w') => (Ok a, self', w')
    | (Err e, self', w') =>
        if is_a e c then handler e self' w' else (Err e, self', w')
    end.

(** [for x in items: body] *)
Fixpoint for_each {X : Type} (items : list X) (body : X -> T unit) : T unit :=
  match items with
  | [] => pure tt
  | x :: rest => seq (body x) (fun _ => for_each rest body)
  end.

Definition test_basic_connectivity : T bool :=
  fun self =>
    try_
      (seq (call (fun w => requests_get w (base_url self) 10)) (fun response =>
         if (response_status_code response =? 200)%Z then
           seq (update (add_detail
                  (Connectivity (base_url self)
                     (response_status_code response)
                     (elapsed_total_seconds response))))
             (fun _ => pure true)
         else
           seq (update (add_error
                  (StatusCode (response_status_code response))))
             (fun _ => pure false)))
      RequestException
      (fun e => seq (update (add_error (ConnectFailed (text e))))
                  (fun _ => pure false))
      self.

Definition load_website : T bool :=
  fun self =>
    try_
      (seq (driver (fun w => driver_get w (base_url self))) (fun _ =>
       seq (driver wait_for_body) (fun _ => pure true)))
      TimeoutException
      (fun _ => seq (update (add_error LoadTimeout)) (fun _ => pure false))
      self.

(** The XPath of the element with the given onclick attribute. *)
Definition by_onclick (tag handler : string) : string :=
  "//" +:+ tag +:+ "[@onclick=" +:+ String dquote handler
  +:+ String dquote "]".

Definition test_navigation_links : T unit :=
  for_each nav_items (fun nav_item =>
    seq (try_
           (seq (driver (fun w => find_element w XPATH (by_onclick "a" nav_item)))
              (fun element =>
            seq (call (fun w => is_displayed w element)) (fun displayed =>
              if displayed then
                seq (call (fun w => click w element)) (fun _ =>
                seq (pause 1) (fun _ => update count_working))
              else pure tt)))
           AnyException
           (fun e =>
              seq (update count_broken) (fun _ =>
                update (add_error (NavigationFailed nav_item (text e))))))
      (fun _ => update count_tested)).

Definition test_interactive_buttons : T unit :=
  for_each button_functions (fun func =>
    seq (try_
           (seq (driver (fun w =>
                   find_elements w XPATH (by_onclick "button" func)))
              (fun elements =>
              match elements with
              | element :: _ =>
                  seq (call (fun w => is_displayed w element)) (fun displayed =>
                  seq (if displayed
                       then call (fun w => is_enabled w element)
                       else pure false) (fun usable =>
                    if usable then
                      try_
                        (seq (driver (fun w =>
                                execute_script w "arguments[0].click();"
                                  element)) (fun _ =>
                         seq (pause (1 # 2)) (fun _ => update count_working)))
                        ElementClickInterceptedException
                        (fun _ => pure tt)
                    else pure tt))
              | [] => pure tt
              end))
           AnyException
           (fun e =>
              seq (update count_broken) (fun _ =>
                update (add_error (ButtonFailed func (text e))))))
      (fun _ => update count_tested)).

Definition test_admin_functionality : T unit :=
  try_
    (seq (driver (fun w =>
            find_element w XPATH "//button[@onclick='toggleAdminAccess()']"))
       (fun admin_btn =>
     seq (call (fun w => click w admin_btn)) (fun _ =>
     seq (pause 1) (fun _ =>
       for_each admin_tabs (fun tab =>
         seq (try_
                (seq (driver (fun w =>
                        find_element w XPATH (by_onclick "button" tab)))
                   (fun tab_element =>
                 seq (call (fun w => is_displayed w tab_element))
                   (fun displayed =>
                   if displayed then
                     seq (call (fun w => click w tab_element)) (fun _ =>
                     seq (pause (1 # 2)) (fun _ => update count_working))
                   else pure tt)))
                AnyException
                (fun _ => update count_broken))
           (fun _ => update count_tested))))))
    AnyException
    (fun e => update (add_error (AdminFailed (text e)))).

Definition test_form_functionality : T unit :=
  try_
    (seq (driver (fun w => find_elements w CSS_SELECTOR "input[type='text']"))
       (fun search_inputs =>
       for_each search_inputs (fun search_input =>
         seq (call (fun w => is_displayed w search_input)) (fun displayed =>
         seq (if displayed then
                seq (call (fun w => clear w search_input)) (fun _ =>
                seq (call (fun w => send_keys w search_input "test search"))
                  (fun _ => update count_working))
              else pure tt)
           (fun _ => update count_tested)))))
    AnyException
    (fun e => update (add_error (FormFailed (text e)))).

Definition test_responsive_design : T unit :=
  for_each screen_sizes (fun '(width, height) =>
    seq (try_
           (seq (driver (fun w => set_window_size w width height)) (fun _ =>
            seq (pause 1) (fun _ =>
            seq (driver (fun w => find_element w TAG_NAME "body")) (fun body =>
            seq (call (fun w => is_displayed w body)) (fun displayed =>
              if displayed then update count_working
              else update count_broken)))))
           AnyException
           (fun _ => update count_broken))
      (fun _ => update count_tested)).

(** [x < n] for a float and an [int] *)
Definition float_lt (x : spec_float) (n : Z) : bool :=
  match compare_int (PFloat x) n with
  | Some Lt => true
  | _ => false
  end.

Definition test_performance : T unit :=
  fun self =>
    try_
      (seq now (fun start_time =>
       seq (driver (fun w => driver_get w (base_url self))) (fun _ =>
       seq (driver wait_for_body) (fun _ =>
       seq now (fun end_time =>
         let load_time := SFsub prec emax end_time start_time in
         let performance_status :=
           if float_lt load_time 3 then "good"%string
           else if float_lt load_time 5 then "acceptable"%string
           else "poor"%string in
         update (add_detail (Performance load_time performance_status)))))))
      AnyException
      (fun e => update (add_error (PerformanceFailed (text e))))
      self.

(** [generate_report], up to the file it writes and what it prints. *)
Definition generate_report : T unit :=
  fun self =>
    let total_interactive :=
      interactive_elements_tested (tester_results self) in
    let working_interactive :=
      interactive_elements_working (tester_results self) in
    match generate_report_success_rate total_interactive working_interactive
    with
    | Return rate => update (set_success_rate rate) self
    | Raise e =>
        fun w => (Err {| cls := AnyException; text := exn_str e |}, self, w)
    end.

(** [run_all_tests]; [hasattr(self, 'driver')] is [has_driver]. *)
Definition run_all_tests : T unit :=
  seq test_basic_connectivity (fun reachable =>
    if negb reachable then pure tt
    else
      seq load_website (fun loaded =>
        if negb loaded then pure tt
        else
          seq test_navigation_links (fun _ =>
          seq test_interactive_buttons (fun _ =>
          seq test_admin_functionality (fun _ =>
          seq test_form_functionality (fun _ =>
          seq test_responsive_design (fun _ =>
          seq test_performance (fun _ =>
          seq generate_report (fun _ =>
            fun self =>
              if has_driver self then driver driver_quit self
              else pure tt self))))))))).
End Browser.

End Interactive.

(** ** [extract_links_from_html] in a store of objects *)

Module Store.

(** A reference to a Python object. *)
Definition ref : Type := positive.

(** The objects the method creates: lists of strings, and a dictionary
    from keys to references. *)
Inductive object : Type :=
  | PyList (items : list string)
  | PyDict (entries : gmap string ref).

(** Everything a call could read or change: the objects alive, among them
    whatever earlier calls built, and the results the checker holds in
    [self.results].  The module has no variable of its own. *)
Record state : Type := {
  objects : gmap ref object;
  self_results : Results
}.

(** Code that may raise and that changes the state. *)
Definition S (A : Type) : Type := state -> outcome A * state.

Definition unit_ {A : Type} (a : A) : S A := fun σ => (Return a, σ).

Definition then_ {A B : Type} (c : S A) (f : A -> S B) : S B :=
  fun σ =>
    match c σ with
    | (Return a, σ') => f a σ'
    | (Raise e, σ') => (Raise e, σ')
    end.

Definition type_error (what : string) : exn :=
  {| exn_cls := Exception; exn_code := 0; exn_reason := EmptyString;
     exn_str := what |}.

(** A display [[]] or [{...}]: a new object, at a reference no object
    alive has. *)
Definition new (o : object) : S ref :=
  fun σ =>
    let r := fresh (dom (objects σ)) in
    (Return r,
     {| objects := <[r := o]> (objects σ); self_results := self_results σ |}).

(** [d[key]] *)
Definition getitem (d : ref) (key : string) : S ref :=
  fun σ =>
    match objects σ !! d with
    | Some (PyDict entries) =>
        match entries !! key with
        | Some r => (Return r, σ)
        | None => (Raise (key_error key), σ)
        end
    | _ => (Raise (type_error "object is not subscriptable"), σ)
    end.

(** [l.append(x)] *)
Definition append (l : ref) (x : string) : S unit :=
  fun σ =>
    match objects σ !! l with
    | Some (PyList items) =>
        (Return tt,
         {| objects := <[l := PyList (items ++ [x])]> (objects σ);
            self_results := self_results σ |})
    | _ => (Raise (type_error "object has no attribute 'append'"), σ)
    end.

(** [for m in matches: body] *)
Fixpoint for_each {X : Type} (matches : list X) (body : X -> S unit)
    : S unit :=
  match matches with
  | [] => unit_ tt
  | m :: rest => then_ (body m) (fun _ => for_each rest body)
  end.

(** [extract_links_from_html] statement by statement: the dictionary
    [links] with its seven new lists, the seven loops that append to
    them, and the reference returned.  [re.finditer] gives the matches
    of a pattern in a text, a function of the two. *)
Definition extract_links_from_html (html_content : string) : S ref :=
  then_ (new (PyList [])) (fun l1 =>
  then_ (new (PyList [])) (fun l2 =>
  then_ (new (PyList [])) (fun l3 =>
  then_ (new (PyList [])) (fun l4 =>
  then_ (new (PyList [])) (fun l5 =>
  then_ (new (PyList [])) (fun l6 =>
  then_ (new (PyList [])) (fun l7 =>
  then_ (new (PyDict
           (<["external_links"%string := l1]>
           (<["internal_links"%string := l2]>
           (<["onclick_handlers"%string := l3]>
           (<["form_actions"%string := l4]>
           (<["image_sources"%string := l5]>
           (<["script_sources"%string := l6]>
           (<["css_links"%string := l7]> ∅))))))))) (fun links =>
  then_ (for_each (finditer false external_pattern html_content) (fun m =>
           let full_url := str (slice_6_m1 (whole m)) in
           then_ (getitem links "external_links") (fun l =>
             append l full_url))) (fun _ =>
  then_ (for_each (finditer false internal_pattern html_content) (fun m =>
           let link := group 1 m in
           if keep_internal link then
             then_ (getitem links "internal_links") (fun l => append l link)
           else unit_ tt)) (fun _ =>
  then_ (for_each (finditer false onclick_pattern html_content) (fun m =>
           then_ (getitem links "onclick_handlers") (fun l =>
             append l (group 1 m)))) (fun _ =>
  then_ (for_each (finditer false form_pattern html_content) (fun m =>
           then_ (getitem links "form_actions") (fun l =>
             append l (group 1 m)))) (fun _ =>
  then_ (for_each (finditer true img_pattern html_content) (fun m =>
           then_ (getitem links "image_sources") (fun l =>
             append l (group 1 m)))) (fun _ =>
  then_ (for_each (finditer false script_pattern html_content) (fun m =>
           then_ (getitem links "script_sources") (fun l =>
             append l (group 1 m)))) (fun _ =>
  then_ (for_each (finditer false css_pattern html_content) (fun m =>
           then_ (getitem links "css_links") (fun l =>
             append l (group 1 m)))) (fun _ =>
  unit_ links))))))))))))))).

(** What a list and a dictionary of the seven lists hold. *)
Definition read_list (σ : state) (r : ref) : option (list string) :=
  match objects σ !! r with
  | Some (PyList items) => Some items
  | _ => None
  end.

Definition read_key (σ : state) (entries : gmap string ref) (key : string)
    : option (list string) :=
  match entries !! key with
  | Some r => read_list σ r
  | None => None
  end.

Definition read_links (σ : state) (d : ref) : option Links :=
  match objects σ !! d with
  | Some (PyDict entries) =>
      match read_key σ entries "external_links",
            read_key σ entries "internal_links",
            read_key σ entries "onclick_handlers",
            read_key σ entries "form_actions",
            read_key σ entries "image_sources",
            read_key σ entries "script_sources",
            read_key σ entries "css_links" with
      | Some e, Some i, Some o, Some f, Some im, Some s, Some c =>
          Some {| external_links := e; internal_links := i;
                  onclick_handlers := o; form_actions := f;
                  image_sources := im; script_sources := s;
                  css_links := c |}
      | _, _, _, _, _, _, _ => None
      end
  | _ => None
  end.

End Store.

(** ** Words of the specification, as definitions *)

(** An identifier: one [[a-zA-Z_$]], then any number of [[a-zA-Z0-9_$]]. *)
Definition is_identifier (f : list ascii) : Prop :=
  match f with
  | [] => False
  | c :: cs => ident_start c = true ∧ Forall (fun x => ident_char x = true) cs
  end.

(** The handler begins, at position 0, with the identifier [f], then
    optional whitespace, then an opening parenthesis. *)
Definition call_form (handler f : string) : Prop :=
  ∃ ws rest : list ascii,
    chars handler = chars f ++ ws ++ chars "(" ++ rest
    ∧ is_identifier (chars f)
    ∧ Forall (fun x => is_space x = true) ws.

(** The longest prefix of a text inside a character class, and the rest. *)
Fixpoint span (p : ascii -> bool) (s : list ascii)
    : list ascii * list ascii :=
  match s with
  | [] => ([], [])
  | c :: s' =>
      if p c then let '(run, tail) := span p s' in (c :: run, tail)
      else ([], s)
  end.

(** A text that does not start inside the class. *)
Definition stops (p : ascii -> bool) (tail : list ascii) : Prop :=
  match tail with [] => True | c :: _ => p c = false end.

(** The leading call of a handler, read off its text: an identifier
    start, the longest run of identifier characters, the longest run of
    whitespace, then an opening parenthesis. *)
Definition leading_call (h : list ascii) : option (list ascii) :=
  match h with
  | [] => None
  | c :: s =>
      if ident_start c then
        let '(run, tail) := span ident_char s in
        match (span is_space tail).2 with
        | x :: _ => if Ascii.eqb "(" x then Some (c :: run) else None
        | [] => None
        end
      else None
  end.

(** *** Pages made of quoted href attributes *)

(** Text in double quotes, as in an attribute value. *)
Definition dq (v : string) : string :=
  String dquote (v +:+ String dquote EmptyString).

(** One [href] attribute: the text before it, its two quote characters
    and its value. *)
Record attribute : Type := {
  lead : string;
  open_q : ascii;
  val : string;
  close_q : ascii
}.

Definition render_attr (a : attribute) : string :=
  lead a +:+ "href=" +:+ String (open_q a) (val a +:+ String (close_q a) EmptyString).

(** The page text: the attributes in order, then a trailer. *)
Definition render_page (attrs : list attribute) (trailer : string) : string :=
  foldr (fun a t => render_attr a +:+ t) trailer attrs.

Definition quote_free (s : list ascii) : Prop :=
  Forall (fun c => not_quote c = true) s.

(** The attribute is delimited by quote characters, and neither the text
    before it nor its value holds one; the value does not itself end in
    the five characters that open an attribute. *)
Definition well_formed (a : attribute) : Prop :=
  quote_free (chars (lead a)) ∧ quote_free (chars (val a))
  ∧ is_quote (open_q a) = true ∧ is_quote (close_q a) = true
  ∧ ¬ (chars "href=" `suffix_of` chars (val a)).

(** The value begins with [http://] or [https://]. *)
Definition has_scheme (v : string) : bool :=
  startswith "http://" v || startswith "https://" v.

(** The value is one of the two prefixes and nothing more. *)
Definition bare_scheme (v : string) : bool :=
  bool_decide (v = "http://"%string) || bool_decide (v = "https://"%string).

Definition goes_external (v : string) : bool :=
  has_scheme v && negb (bare_scheme v).

Definition goes_internal (v : string) : bool :=
  negb (has_scheme v) && truthy v
  && negb (startswith "mailto:" v) && negb (startswith "tel:" v).

(** The text starts with the five characters and a quote character. *)
Definition href_here (s : list ascii) : Prop :=
  ∃ q rest, s = chars "href=" ++ q :: rest ∧ is_quote q = true.

(** The characters of one attribute, from [href=] to its closing quote. *)
Definition attr_chars (q : ascii) (v : list ascii) (q' : ascii) : list ascii :=
  chars "href=" ++ q :: v ++ [q'].

(** *** Reading a page text for its href attributes *)

(** The quoted href attribute at the head of a text, if there is one:
    [href=], a quote character, the longest run of characters that are
    not quotes (the value) and a quote character.  The result is the
    value and the text after the closing quote. *)
Definition attribute_here (s : list ascii)
    : option (list ascii * list ascii) :=
  match strip false (chars "href=") s with
  | Some (q :: rest) =>
      if is_quote q then
        match (span not_quote rest).2 with
        | _ :: after => Some ((span not_quote rest).1, after)
        | [] => None
        end
      else None
  | _ => None
  end.

(** Reading a text from left to right for the attributes whose value
    qualifies: a qualifying attribute is taken whole and reading goes on
    after its closing quote; anywhere else reading goes on at the next
    character.  [skip] counts the characters of the attribute just taken
    that are still to be passed. *)
Fixpoint read_href_values (qualifies : string -> bool) (skip : nat)
    (s : list ascii) : list string :=
  match skip with
  | S n => match s with [] => [] | _ :: s' => read_href_values qualifies n s' end
  | O =>
      match s with
      | [] => []
      | _ :: s' =>
          match attribute_here s with
          | Some (v, _) =>
              if qualifies (str v)
              then str v :: read_href_values qualifies (length v + 6) s'
              else read_href_values qualifies 0 s'
          | None => read_href_values qualifies 0 s'
          end
      end
  end.

Definition href_values (qualifies : string -> bool) (text : string)
    : list string :=
  read_href_values qualifies 0 (chars text).

(** What the internal pattern takes: a value that is not empty and does
    not begin with [http://] or [https://]. *)
Definition internal_candidate (v : string) : bool :=
  negb (has_scheme v) && truthy v.

(** The opening quote of an attribute that comes after [before] would
    close a value that qualifies: the last quote character of [before]
    comes right after [href=], and the characters after that quote,
    followed by the [href=] of the attribute, qualify. *)
Definition closes_value (qualifies : string -> bool) (before : list ascii)
    : bool :=
  match (span not_quote (rev before)).2 with
  | _ :: earlier =>
      match strip false (rev (chars "href=")) earlier with
      | Some _ =>
          qualifies (str (rev (span not_quote (rev before)).1 ++ chars "href="))
      | None => false
      end
  | [] => false
  end.

(** An href attribute after a title whose value is [href=], and one
    after a class attribute. *)
Definition shadow_page : string :=
  "<a title=" +:+ dq "href=" +:+ " href=" +:+ dq "/a" +:+ ">x</a>".

Definition classed_page : string :=
  "<a class=" +:+ dq "x" +:+ " href=" +:+ dq "https://a.com/x" +:+ ">".

(** The text holds, after [before], a quoted href attribute with value
    [v]: [href=], a quote character, the value without any quote
    character in it, a quote character. *)
Definition href_attribute (text : string) (before : list ascii) (v : string)
    : Prop :=
  ∃ (after : list ascii) (q q' : ascii),
    chars text = before ++ attr_chars q (chars v) q' ++ after
    ∧ is_quote q = true ∧ is_quote q' = true ∧ quote_free (chars v).

(** *** Sample texts *)

(** The four attributes of the extraction example. *)
Definition crafted : string :=
  "<a href=" +:+ dq "https://a.com/x" +:+ ">a</a> <a href=" +:+ dq "/relative"
  +:+ ">b</a> <a href=" +:+ dq "mailto:a@b.com" +:+ ">c</a> <a href="
  +:+ dq "tel:123" +:+ ">d</a>".

(** The same page as a list of attributes and a trailer. *)
Definition crafted_attrs : list attribute :=
  [ {| lead := "<a "; open_q := dquote; val := "https://a.com/x";
       close_q := dquote |};
    {| lead := ">a</a> <a "; open_q := dquote; val := "/relative";
       close_q := dquote |};
    {| lead := ">b</a> <a "; open_q := dquote; val := "mailto:a@b.com";
       close_q := dquote |};
    {| lead := ">c</a> <a "; open_q := dquote; val := "tel:123";
       close_q := dquote |} ].

(** A page whose only attribute has the bare prefix as its value. *)
Definition bare_page : string := "<a href=" +:+ dq "https://" +:+ ">x</a>".


(** *** The outcomes of a probe, as the specification names them *)

(** The tag a fetch outcome is to be given: success; a server-reported
    HTTP error; a transport failure; any other exception. *)
Definition tag_of (fetched : outcome response) : string :=
  match fetched with
  | Return _ => "success"
  | Raise e =>
      if isinstance e HTTPError then "http_error"
      else if isinstance e URLError then "url_error"
      else "error"
  end.

(** The server answered 404. *)
Definition not_found : exn :=
  {| exn_cls := HTTPError; exn_code := 404; exn_reason := "Not Found";
     exn_str := "HTTP Error 404: Not Found" |}.

(** A network on which every fetch is answered 404. *)
Definition all_not_found : unit -> string -> Z -> outcome response * unit :=
  fun w _ _ => (Raise not_found, w).

(** The dictionary of a page with the given external links and nothing
    else. *)
Definition only_external (links : list string) : Links :=
  {| external_links := links; internal_links := []; onclick_handlers := [];
     form_actions := []; image_sources := []; script_sources := [];
     css_links := [] |}.

(** A batch records as many tested links as it has results. *)
Definition consistent (b : batch) : Prop :=
  external_links_tested b = Z.of_nat (length (results b)).

(** All the probes recorded in the results, batch after batch. *)
Definition all_probes (self : Results) : list link_result :=
  concat (results <$> link_checks self).

(** Twelve links, two more than a batch probes. *)
Definition twelve_links : list string :=
  ["https://a.example/1"; "https://a.example/2"; "https://a.example/3";
   "https://a.example/4"; "https://a.example/5"; "https://a.example/6";
   "https://a.example/7"; "https://a.example/8"; "https://a.example/9";
   "https://a.example/10"; "https://a.example/11";
   "https://a.example/12"]%string.

(** The results after a live page with one link and a local file with
    three were both read. *)
Definition one_against_three : Results :=
  {| live_website := live_website_entry 200 "<a href='/a'>a</a>";
     local_file :=
       local_file_entry "<a href='/a'>a</a><a href='/b'>b</a><a href='/c'>c</a>";
     comparison := None; link_checks := []; summary := None |}.

(** The results after one batch over the twelve links on the network
    that answers 404 to everything. *)
Definition after_failed_batch : Results :=
  match test_external_links unit all_not_found init
          (only_external twelve_links) "live website" tt with
  | (Return self, _) => self
  | (Raise _, _) => init
  end.

(** *** Sample results and the accuracy of the rate *)

Definition probe_ok : probe :=
  {| status := "success"; status_code := Some 200%Z;
     content_type := Some "text/html"%string; error := None;
     accessible := true |}.

Definition probe_404 : probe :=
  {| status := "http_error"; status_code := Some 404%Z;
     content_type := None; error := Some "Not Found"%string;
     accessible := false |}.

(** A consistent batch with one result per flag: [true] for a working
    link. *)
Definition batch_of (source_name : string) (flags : list bool) : batch :=
  let rs := (fun ok : bool =>
               {| url := "https://a.example/";
                  result := if ok then probe_ok else probe_404 |}) <$> flags in
  {| source := source_name;
     external_links_tested := Z.of_nat (length rs);
     external_links_total := Z.of_nat (length rs);
     results := rs |}.

(** Two full batches, eleven working links out of twenty. *)
Definition eleven_of_twenty : Results :=
  {| live_website := empty_site; local_file := empty_site;
     comparison := None;
     link_checks :=
       [ batch_of "live website" (replicate 10 true);
         batch_of "local file" (true :: replicate 9 false) ];
     summary := None |}.

(** The double next above 55, [55.00000000000001]. *)
Definition just_above_55 : pynum :=
  PFloat (S754_finite false 7740561859543041 (-47)).

(** The rate is a finite number within [2^-46] of [100 * w / n]. *)
Definition close_to_percentage (w n : Z) (rate : pynum) : bool :=
  match value rate with
  | Some q =>
      Qle_bool (Qabs (q - inject_Z (100 * w) / inject_Z n)) (1 # 2 ^ 46)
  | None => false
  end.

(** Every rate for a total from 1 to [bound] is that close. *)
Definition rates_close_upto (bound : Z) : bool :=
  forallb (fun n =>
    forallb (fun w =>
      match rate_expr w n with
      | Return rate => close_to_percentage w n rate
      | Raise _ => false
      end) (seqZ 0 (n + 1))) (seqZ 1 bound).

(** *** Patterns that cannot match without a quote character *)

(** Every match of the pattern consumes a quote character: the pattern
    is, or has in sequence, a class inside the quote class. *)
Inductive requires_quote : re -> Prop :=
  | rq_cls (p : ascii -> bool) :
      (∀ c, p c = true → is_quote c = true) → requires_quote (Cls p)
  | rq_cat_l (r1 r2 : re) : requires_quote r1 → requires_quote (Cat r1 r2)
  | rq_cat_r (r1 r2 : re) : requires_quote r2 → requires_quote (Cat r1 r2)
  | rq_grp (i : nat) (r : re) : requires_quote r → requires_quote (Grp i r).

(** The seven categories are all empty. *)
Definition no_links (l : Links) : Prop :=
  external_links l = [] ∧ internal_links l = [] ∧ onclick_handlers l = []
  ∧ form_actions l = [] ∧ image_sources l = [] ∧ script_sources l = []
  ∧ css_links l = [].

(** The value stands in the text as a quoted href attribute. *)
Definition href_value_in (v text : string) : Prop :=
  ∃ (before after : list ascii) (q q' : ascii),
    chars text = before ++ attr_chars q (chars v) q' ++ after
    ∧ is_quote q = true ∧ is_quote q' = true.

(** A text without any attribute. *)
Definition plain_text : string := "<p>plain text, no attribute at all</p>".

(** *** What a pattern can consume *)

(** Whenever the pattern matches at the head of a text, what it consumes
    is in [L], and its continuation is called on what follows. *)
Definition consumes (ci : bool) (r : re) (L : list ascii -> Prop) : Prop :=
  ∀ (X : Type) (s : list ascii) (g : groups)
    (k : list ascii -> groups -> option X) (y : X),
    exec ci r s g k = Some y →
    ∃ p s' g', s = p ++ s' ∧ L p ∧ k s' g' = Some y.

(** The literal, up to case when case is ignored. *)
Definition spelled (ci : bool) (l : string) (p : list ascii) : Prop :=
  Forall2 (fun c x => same_char ci c x = true) (chars l) p.

(** A run of at least [least] characters of the class. *)
Definition run_of (cls : ascii -> bool) (least : nat) (p : list ascii) : Prop :=
  Forall (fun x => cls x = true) p ∧ (least <= length p)%nat.

(** A value as the value groups capture it: not empty, no quote. *)
Definition plain_value (v : list ascii) : Prop := run_of not_quote 1 v.

(** The value stands in the text as a quoted attribute that [head]
    describes: [head], a quote, the value, a quote. *)
Definition quoted_in (head : list ascii -> Prop) (v text : string) : Prop :=
  ∃ (before p after : list ascii) (q q' : ascii),
    chars text = before ++ p ++ q :: chars v ++ q' :: after
    ∧ head p ∧ is_quote q = true ∧ is_quote q' = true.

(** An opening tag up to and including an attribute name: the tag, no
    [>] in between, the attribute name and its equals sign. *)
Definition in_open_tag (tag attr : string) (p : list ascii) : Prop :=
  ∃ mid, p = chars tag ++ mid ++ chars attr
         ∧ Forall (fun x => not_gt x = true) mid.

(** The extensions of the image pattern. *)
Definition image_extensions : list string :=
  ["jpg"; "jpeg"; "png"; "gif"; "svg"; "webp"]%string.

(** The value is a non-empty stem, a dot and one of the extensions in
    any mix of upper and lower case. *)
Definition has_image_extension (v : list ascii) : Prop :=
  ∃ (stem e : list ascii) (ext : string),
    v = stem ++ "."%char :: e ∧ plain_value stem
    ∧ ext ∈ image_extensions ∧ lower <$> e = chars ext.

(** The value is a non-empty stem followed by [.css]. *)
Definition has_css_extension (v : list ascii) : Prop :=
  ∃ stem, v = stem ++ chars ".css" ∧ plain_value stem.

(** A page with one of each kind of element. *)
Definition elements_page : string :=
  "<form method='post' action='/go'><img src='logo.PNG'>"
  +:+ "<script async src='app.js'></script><link rel='x' href='site.css'>"
  +:+ "<a onclick='open(1)'>x</a>".

(** *** The band of an exact ratio *)

(** The band in which [w / n], taken as an exact percentage, falls. *)
Definition exact_band (w n : Z) : band :=
  if (9 * n <=? 10 * w)%Z then Excellent
  else if (3 * n <=? 4 * w)%Z then Good
  else if (n <=? 2 * w)%Z then Poor
  else VeryPoor.

Definition same_band (a b : band) : bool :=
  match a, b with
  | Excellent, Excellent | Good, Good | Poor, Poor | VeryPoor, VeryPoor => true
  | _, _ => false
  end.

(** The rate is a finite number from 0 to 100. *)
Definition rate_in_range (rate : pynum) : bool :=
  match value rate with
  | Some q => Qle_bool 0 q && Qle_bool q 100
  | None => false
  end.

(** Every rate for a total from 1 to [bound] is in range and in the band
    of the exact ratio. *)
Definition bands_exact_upto (bound : Z) : bool :=
  forallb (fun n =>
    forallb (fun w =>
      match rate_expr w n with
      | Return rate =>
          rate_in_range rate && same_band (quality_band rate) (exact_band w n)
      | Raise _ => false
      end) (seqZ 0 (n + 1))) (seqZ 1 bound).

(** *** A run of the checker *)

(** An entry recorded as accessible has its links and their total. *)
Definition complete (s : site) : Prop :=
  get_accessible s = true →
  ∃ links, site_links s = Some links
           ∧ site_total_links s = Some (total_links links).

(** What a batch may be after a run: as many results as it says, from one
    to ten of them. *)
Definition bounded (b : batch) : Prop :=
  consistent b ∧ (0 < external_links_tested b <= 10)%Z.

(** The links a run probes for a source with this content. *)
Definition probed_of (content : string) : list string :=
  take 10 (external_links (extract_links_from_html content)).

(** Sample worlds without state. *)
Definition answers_ok : unit -> string -> Z -> outcome response * unit :=
  fun w _ _ =>
    (Return {| getcode := 200;
               header_content_type := Some "text/html"%string |}, w).

Definition timed_out : exn :=
  {| exn_cls := TimeoutError; exn_code := 0; exn_reason := EmptyString;
     exn_str := "timed out" |}.

Definition content_times_out : unit -> string -> Z -> outcome string * unit :=
  fun w _ _ => (Raise timed_out, w).

Definition serves (page : string) : unit -> string -> Z -> outcome string * unit :=
  fun w _ _ => (Return page, w).

Definition no_file : unit -> string -> bool * unit := fun w _ => (false, w).

Definition has_file : unit -> string -> bool * unit := fun w _ => (true, w).

Definition file_is (page : string) : unit -> string -> outcome string * unit :=
  fun w _ => (Return page, w).

Definition unreadable : unit -> string -> outcome string * unit :=
  fun w _ => (Raise timed_out, w).

Definition two_links_page : string :=
  "<a href='https://a.example/1'>1</a><a href='https://a.example/2'>2</a>".

Definition one_link_page : string :=
  "<a href='https://b.example/'>b</a><a href='/local'>l</a>".

(** *** The simple tester *)

(** The value of the last attribute called [name]: [None] when there is
    no such attribute or when the last one has no value. *)
Definition last_value (attrs : list (string * option string))
    (name : string) : option string :=
  match last (filter (fun kv => kv.1 = name) attrs) with
  | Some kv => kv.2
  | None => None
  end.

(** The method of a form: that of the last [method] attribute, [GET]
    without one. *)
Definition method_of (attrs : list (string * option string))
    : option string :=
  match last (filter (fun kv => kv.1 = "method"%string) attrs) with
  | Some kv => kv.2
  | None => Some "GET"%string
  end.

(** What one start tag adds to each of the three lists. *)
Definition link_of (t : string * Simple.attributes)
    : option Simple.element :=
  let href := last_value t.2 "href" in
  let onclick := last_value t.2 "onclick" in
  if bool_decide (t.1 = "a"%string)
     && (Simple.truth href || Simple.truth onclick)
  then Some (Simple.Link href onclick) else None.

Definition button_of (t : string * Simple.attributes)
    : option Simple.element :=
  let onclick := last_value t.2 "onclick" in
  if bool_decide (t.1 = "button"%string) && Simple.truth onclick
  then Some (Simple.Button onclick) else None.

Definition form_of (t : string * Simple.attributes)
    : option Simple.element :=
  if bool_decide (t.1 = "form"%string)
  then Some (Simple.Form (last_value t.2 "action") (method_of t.2))
  else None.

(** A page seen as its start tags: an anchor whose href is given twice,
    a button without a handler, a form without attributes, a button with a
    handler. *)
Definition sample_tags : list (string * Simple.attributes) :=
  [ ("a", [("href", Some "/first"); ("href", Some EmptyString)]);
    ("button", [("class", Some "btn")]);
    ("form", []);
    ("a", [("onclick", Some "go()")]);
    ("button", [("onclick", Some "checkout()")]) ]%string.

(** A page on which the mixed content check fires. *)
Definition mixed_page : string :=
  "<a href='http://old.example/x'>x</a>".

(** *** The counters of the interactive tester *)

Definition elements_tested (self : Interactive.WebsiteTester) : Z :=
  Interactive.interactive_elements_tested (Interactive.tester_results self).

Definition elements_working (self : Interactive.WebsiteTester) : Z :=
  Interactive.interactive_elements_working (Interactive.tester_results self).

Definition elements_broken (self : Interactive.WebsiteTester) : Z :=
  Interactive.interactive_elements_broken (Interactive.tester_results self).

(** What no test touches: the base URL, the browser, the three counters
    of links and the success rate; the two logs only grow. *)
Definition kept (a b : Interactive.WebsiteTester) : Prop :=
  Interactive.base_url b = Interactive.base_url a
  ∧ Interactive.has_driver b = Interactive.has_driver a
  ∧ Interactive.links_tested (Interactive.tester_results b)
    = Interactive.links_tested (Interactive.tester_results a)
  ∧ Interactive.links_working (Interactive.tester_results b)
    = Interactive.links_working (Interactive.tester_results a)
  ∧ Interactive.links_broken (Interactive.tester_results b)
    = Interactive.links_broken (Interactive.tester_results a)
  ∧ Interactive.success_rate (Interactive.tester_results b)
    = Interactive.success_rate (Interactive.tester_results a)
  ∧ Interactive.errors (Interactive.tester_results a)
    `prefix_of` Interactive.errors (Interactive.tester_results b)
  ∧ Interactive.detailed_results (Interactive.tester_results a)
    `prefix_of` Interactive.detailed_results (Interactive.tester_results b).

(** [t] more elements were tested, and at most [t] more of them were
    counted as working or as broken. *)
Definition advanced (t : Z) (a b : Interactive.WebsiteTester) : Prop :=
  kept a b
  ∧ elements_tested b = (elements_tested a + t)%Z
  ∧ (elements_working a <= elements_working b)%Z
  ∧ (elements_broken a <= elements_broken b)%Z
  ∧ (elements_working b + elements_broken b
     <= elements_working a + elements_broken a + t)%Z.

(** Each of the [t] elements was counted as working or as broken. *)
Definition decided (t : Z) (a b : Interactive.WebsiteTester) : Prop :=
  advanced t a b
  ∧ (elements_working b + elements_broken b
     = elements_working a + elements_broken a + t)%Z.

(** None of the [t] elements was counted as broken. *)
Definition unbroken (t : Z) (a b : Interactive.WebsiteTester) : Prop :=
  advanced t a b ∧ elements_broken b = elements_broken a.

(** A browser in which every element is there, shown and enabled, and
    every call succeeds; the page has two text inputs. *)
Definition steady_get : unit -> string -> Z
    -> Interactive.res Interactive.http_response * unit :=
  fun w _ _ =>
    (Interactive.Ok
       {| Interactive.response_status_code := 200;
          Interactive.elapsed_total_seconds := S754_zero false |}, w).

Definition failing_get (code : Z) : unit -> string -> Z
    -> Interactive.res Interactive.http_response * unit :=
  fun w _ _ =>
    (Interactive.Ok
       {| Interactive.response_status_code := code;
          Interactive.elapsed_total_seconds := S754_zero false |}, w).

Definition done_ : unit -> Interactive.res unit * unit :=
  fun w => (Interactive.Ok tt, w).

Definition never_loads : unit -> Interactive.res unit * unit :=
  fun w =>
    (Interactive.Err
       {| Interactive.cls := Interactive.TimeoutException;
          Interactive.text := "timeout" |}, w).

(** A run of the interactive tester in the steady browser, from the
    request [get] and the wait [wait_for_body] on. *)
Definition steady_run
    (get : unit -> string -> Z
           -> Interactive.res Interactive.http_response * unit)
    (wait_for_body : unit -> Interactive.res unit * unit)
    (browser_started : bool)
    : Interactive.res unit * Interactive.WebsiteTester * unit :=
  Interactive.run_all_tests unit unit get
    (fun w _ => (Interactive.Ok tt, w)) wait_for_body
    (fun w _ _ => (Interactive.Ok tt, w))
    (fun w _ _ => (Interactive.Ok [tt; tt], w))
    (fun w _ => (Interactive.Ok true, w))
    (fun w _ => (Interactive.Ok true, w))
    (fun w _ => (Interactive.Ok tt, w))
    (fun w _ _ => (Interactive.Ok tt, w))
    (fun w _ => (Interactive.Ok tt, w))
    (fun w _ _ => (Interactive.Ok tt, w))
    (fun w _ _ => (Interactive.Ok tt, w))
    done_
    (fun w => (S754_zero false, w))
    (fun w _ => w)
    (Interactive.init "https://mybird.app" browser_started) tt.

(** The page does not load: the request of the browser, or else the wait
    for the body, raises [e]. *)
Definition load_raises {World : Type}
    (driver_get : World -> string -> Interactive.res unit * World)
    (wait_for_body : World -> Interactive.res unit * World)
    (self : Interactive.WebsiteTester) (w w' : World)
    (e : Interactive.error) : Prop :=
  driver_get w (Interactive.base_url self) = (Interactive.Err e, w')
  ∨ ∃ w1, driver_get w (Interactive.base_url self) = (Interactive.Ok tt, w1)
          ∧ wait_for_body w1 = (Interactive.Err e, w').

(** No test was run and no report made. *)
Definition no_report (self : Interactive.WebsiteTester) : Prop :=
  Interactive.success_rate (Interactive.tester_results self) = None
  ∧ elements_tested self = 0%Z ∧ elements_working self = 0%Z
  ∧ elements_broken self = 0%Z.

(** *** States around a call of the extraction *)

(** Every object of [σ] is in [σ'] as it was. *)
Definition untouched (σ σ' : Store.state) : Prop :=
  ∀ r o, Store.objects σ !! r = Some o → Store.objects σ' !! r = Some o.

(** A state left by earlier work: two lists and the results of a run. *)
Definition used_state : Store.state :=
  {| Store.objects :=
       <[1%positive := Store.PyList ["https://old.example/"%string]]>
       (<[2%positive := Store.PyList []]> ∅);
     Store.self_results := one_against_three |}.

(* ================================================================== *)
(** * Properties *)

(** ** Strings and characters *)

Local Arguments Ascii.eqb : simpl never.

Lemma chars_app (a b : string) : chars (a +:+ b) = chars a ++ chars b.
Proof. induction a as [|c a IH]; simpl; [done | by rewrite IH]. Qed.

Lemma str_chars (a : string) : str (chars a) = a.
Proof. apply string_of_list_ascii_of_string. Qed.

Lemma chars_str (l : list ascii) : chars (str l) = l.
Proof. apply list_ascii_of_string_of_list_ascii. Qed.

Lemma chars_inj (a b : string) : chars a = chars b → a = b.
Proof. intros H. rewrite <- (str_chars a), <- (str_chars b). by rewrite H. Qed.

Lemma space_not_ident (c : ascii) : is_space c = true → ident_char c = false.
Proof.
  destruct c as [[] [] [] [] [] [] [] []]; vm_compute; congruence.
Qed.

Lemma paren_not_ident : ident_char "("%char = false.
Proof. reflexivity. Qed.

Lemma paren_not_space : is_space "("%char = false.
Proof. reflexivity. Qed.

(** ** The matcher *)

Lemma strip_Some (l s s' : list ascii) :
  strip false l s = Some s' ↔ s = l ++ s'.
Proof.
  revert s. induction l as [|c l IH]; intros s; simpl.
  - split; [by intros [= ->] | by intros ->].
  - destruct s as [|x s]; [split; [done | discriminate]|].
    destruct (Ascii.eqb c x) eqn:E.
    + apply Ascii.eqb_eq in E as ->. rewrite IH. split; [by intros -> | by intros [= ->]].
    + split; [done|]. intros [= -> _]. by rewrite Ascii.eqb_refl in E.
Qed.

Lemma strip_app (l s : list ascii) : strip false l (l ++ s) = Some s.
Proof. by apply strip_Some. Qed.

Lemma span_spec (p : ascii -> bool) (s : list ascii) :
  s = (span p s).1 ++ (span p s).2
  ∧ Forall (fun x => p x = true) (span p s).1 ∧ stops p (span p s).2.
Proof.
  induction s as [|c s (Hs & Hr & Ht)]; simpl; [done|].
  destruct (p c) eqn:E; [|done].
  destruct (span p s) as [run tail]; simpl in *.
  repeat split; [by f_equal | by constructor | done].
Qed.

Lemma span_app (p : ascii -> bool) (run tail : list ascii) :
  Forall (fun x => p x = true) run → stops p tail →
  span p (run ++ tail) = (run, tail).
Proof.
  intros Hrun Htail. induction Hrun as [|x run Hx Hrun IH]; simpl.
  - destruct tail as [|c tail]; [done|]. cbn in *. by rewrite Htail.
  - cbn. by rewrite Hx, IH.
Qed.

(** A greedy repetition whose continuation cannot start inside the class
    takes the whole run: giving characters back never helps. *)
Lemma rep_greedy {X : Type} (p : ascii -> bool) (least : nat)
    (run tail : list ascii) (k : list ascii -> option X) :
  Forall (fun x => p x = true) run →
  stops p tail →
  (∀ c s, p c = true → k (c :: s) = None) →
  rep p least (run ++ tail) k
  = if (least <=? length run)%nat then k tail else None.
Proof.
  intros Hrun Htail Hk. revert least.
  induction Hrun as [|x run Hx Hrun IH]; intros least.
  - simpl. destruct tail as [|c tail]; simpl in *.
    + by destruct least.
    + rewrite Htail. by destruct least.
  - simpl. rewrite Hx, IH.
    destruct least as [|least]; simpl.
    + destruct (k tail); [done|]. by apply Hk.
    + destruct (least <=? length run)%nat; [by destruct (k tail)|done].
Qed.

Lemma rep_span {X : Type} (p : ascii -> bool) (least : nat)
    (s : list ascii) (k : list ascii -> option X) :
  (∀ c s, p c = true → k (c :: s) = None) →
  rep p least s k
  = if (least <=? length (span p s).1)%nat then k (span p s).2 else None.
Proof.
  intros Hk. destruct (span_spec p s) as (Hs & Hr & Ht).
  rewrite Hs at 1. by apply rep_greedy.
Qed.

(** ** The name a handler calls *)

Lemma called_name_eq (h : string) :
  called_name h = str <$> leading_call (chars h).
Proof.
  unfold called_name, re_match, match_at, call_pattern, leading_call.
  destruct (chars h) as [|c s]; [done|]. simpl exec.
  destruct (ident_start c) eqn:Ec; [|done].
  rewrite rep_span.
  - simpl. destruct (span_spec ident_char s) as (Hs & Hr & Ht).
    destruct (span ident_char s) as [run tail]; simpl in *.
    rewrite rep_span.
    + simpl. destruct (span is_space tail) as [ws tail2]; simpl.
      destruct tail2 as [|x tail2]; [done|]. simpl.
      destruct (Ascii.eqb "(" x); [|done]. simpl.
      unfold group; simpl. rewrite lookup_insert_eq. simpl.
      do 3 f_equal. subst s. rewrite length_app.
      replace (S (length run + length tail) - length tail)%nat
        with (S (length run)) by lia.
      simpl. f_equal. by rewrite take_app_length.
    + intros x s' Hx. simpl. destruct (Ascii.eqb "(" x) eqn:E; [|done].
      apply Ascii.eqb_eq in E as <-. by rewrite paren_not_space in Hx.
  - intros x s' Hx. rewrite rep_span.
    + simpl. destruct (is_space x) eqn:Es.
      { apply space_not_ident in Es. congruence. }
      simpl. destruct (Ascii.eqb "(" x) eqn:E; [|done].
      apply Ascii.eqb_eq in E as <-. by rewrite paren_not_ident in Hx.
    + intros y s'' Hy. simpl. destruct (Ascii.eqb "(" y) eqn:E; [|done].
      apply Ascii.eqb_eq in E as <-. by rewrite paren_not_space in Hy.
Qed.

Lemma call_form_called (h f : string) :
  call_form h f ↔ called_name h = Some f.
Proof.
  rewrite called_name_eq. split.
  - intros (ws & rest & Hh & Hf & Hws). rewrite Hh.
    destruct (chars f) as [|c cs] eqn:Ef; [done|]. destruct Hf as [Hc Hcs].
    simpl. rewrite Hc.
    assert (stops ident_char (ws ++ "("%char :: rest)) as Hstop.
    { destruct ws as [|w ws]; simpl; [apply paren_not_ident|].
      apply space_not_ident. by inversion Hws. }
    rewrite (span_app _ _ _ Hcs Hstop).
    rewrite (span_app is_space ws ("("%char :: rest) Hws paren_not_space).
    simpl. f_equal. change (str (c :: cs) = f). by rewrite <- Ef, str_chars.
  - intros H. unfold leading_call in H.
    destruct (chars h) as [|c s] eqn:Eh; [done|].
    destruct (ident_start c) eqn:Ec; [|done].
    destruct (span_spec ident_char s) as (Hs & Hr & _).
    destruct (span ident_char s) as [run tail]; simpl in *.
    destruct (span_spec is_space tail) as (Ht & Hw & _).
    destruct (span is_space tail) as [ws tail2]; simpl in *.
    destruct tail2 as [|x rest]; [done|].
    destruct (Ascii.eqb "(" x) eqn:Ex; [|done].
    apply Ascii.eqb_eq in Ex as <-.
    change (Some (str (c :: run)) = Some f) in H. injection H as <-.
    exists ws, rest. change (String c (str run)) with (str (c :: run)).
    rewrite chars_str, Eh. subst s tail. by repeat split.
Qed.

Lemma function_names_of_acc (acc : gset string) (hs : list string) (f : string) :
  f ∈ foldl (fun names handler =>
               match called_name handler with
               | Some g => names ∪ {[g]}
               | None => names
               end) acc hs
  ↔ f ∈ acc ∨ ∃ h, h ∈ hs ∧ called_name h = Some f.
Proof.
  revert acc. induction hs as [|h hs IH]; intros acc; simpl.
  - split; [by left|]. intros [?|(h & Hh & _)]; [done|]. by apply elem_of_nil in Hh.
  - rewrite IH. destruct (called_name h) as [g|] eqn:Eg.
    + rewrite elem_of_union, elem_of_singleton. split.
      * intros [[?| ->]|(h' & Hh' & ?)]; [by left| |].
        -- right. exists h. split; [by left|done].
        -- right. exists h'. split; [by right|done].
      * intros [?|(h' & Hh' & Hc)]; [by left; left|].
        apply elem_of_cons in Hh' as [->|Hh'].
        -- left; right. congruence.
        -- right. by exists h'.
    + split.
      * intros [?|(h' & Hh' & ?)]; [by left|].
        right. exists h'. split; [by right|done].
      * intros [?|(h' & Hh' & Hc)]; [by left|].
        apply elem_of_cons in Hh' as [->|Hh']; [congruence|].
        right. by exists h'.
Qed.

Lemma elem_of_function_names_of (hs : list string) (f : string) :
  f ∈ function_names_of hs ↔ ∃ h, h ∈ hs ∧ call_form h f.
Proof.
  unfold function_names_of. rewrite function_names_of_acc.
  split.
  - intros [H|(h & Hh & Hc)]; [by apply not_elem_of_empty in H|].
    exists h. by rewrite call_form_called.
  - intros (h & Hh & Hc). right. exists h. by rewrite <- call_form_called.
Qed.

(** A handler that calls nothing leaves the set of names as it is. *)
Lemma function_names_of_skip (before after : list string) (h : string) :
  called_name h = None →
  function_names_of (before ++ h :: after) = function_names_of (before ++ after).
Proof.
  intros Hn. apply set_eq. intros f. rewrite !elem_of_function_names_of.
  split; intros (h' & Hh' & Hc); exists h'; (split; [|done]).
  - rewrite elem_of_app, elem_of_cons in Hh'. rewrite elem_of_app.
    destruct Hh' as [?|[->|?]]; [by left| |by right].
    apply call_form_called in Hc. congruence.
  - rewrite elem_of_app in Hh'. rewrite elem_of_app, elem_of_cons. tauto.
Qed.

(** ** Scanning a text *)

Lemma scan_skip (ci : bool) (r : re) (pre rest : list ascii) :
  scan ci r (length pre) (pre ++ rest) = scan ci r 0 rest.
Proof. induction pre as [|c pre IH]; [done|]. simpl. apply IH. Qed.

(** Where no match starts, the scan moves on. *)
Lemma scan_no_match (ci : bool) (r : re) (pre rest : list ascii) :
  (∀ b, b ≠ [] → b `suffix_of` pre → match_at ci r (b ++ rest) = None) →
  scan ci r 0 (pre ++ rest) = scan ci r 0 rest.
Proof.
  induction pre as [|c pre IH]; intros H; [done|].
  pose proof (H (c :: pre) ltac:(done) ltac:(done)) as H0.
  simpl in H0. cbn [scan app]. rewrite H0.
  apply IH. intros b Hb Hs. apply H; [done|]. by apply suffix_cons_r.
Qed.

(** A match that covers exactly [pre] is reported, and the scan goes on
    after it. *)
Lemma scan_match (ci : bool) (r : re) (pre rest rest' : list ascii)
    (m : rmatch) :
  pre ≠ [] → length (whole m) = length pre →
  match_at ci r (pre ++ rest) = Some (m, rest') →
  scan ci r 0 (pre ++ rest) = m :: scan ci r 0 rest.
Proof.
  intros Hne Hlen Hm. destruct pre as [|c pre]; [done|].
  simpl in Hm. cbn [scan app]. rewrite Hm, Hlen. simpl. f_equal. apply scan_skip.
Qed.

(** ** The two href patterns *)

Lemma strip_cat (l1 l2 s : list ascii) :
  strip false (l1 ++ l2) s
  = match strip false l1 s with
    | Some s' => strip false l2 s'
    | None => None
    end.
Proof.
  revert s. induction l1 as [|c l1 IH]; intros s; simpl; [done|].
  destruct s as [|x s]; [done|]. by destruct (Ascii.eqb c x).
Qed.

(** A literal without quote characters is looked for inside the value. *)
Lemma strip_value (l v rest : list ascii) (q : ascii) :
  quote_free l → is_quote q = true →
  strip false l (v ++ q :: rest) = (fun w => w ++ q :: rest) <$> strip false l v.
Proof.
  intros Hl Hq. revert v. induction Hl as [|c l Hc Hl IH]; intros v; [done|].
  destruct v as [|x v]; simpl.
  - destruct (Ascii.eqb c q) eqn:E; [|done].
    apply Ascii.eqb_eq in E as ->. unfold not_quote in Hc. by rewrite Hq in Hc.
  - destruct (Ascii.eqb c x); [apply IH|done].
Qed.

Lemma quote_free_span (v rest : list ascii) (q : ascii) :
  quote_free v → is_quote q = true →
  span not_quote (v ++ q :: rest) = (v, q :: rest).
Proof.
  intros Hv Hq. apply span_app; [done|]. simpl. unfold not_quote. by rewrite Hq.
Qed.

(** The first quote character of a text is at one place only. *)
Lemma first_quote_unique (u u' rest rest' : list ascii) (q q' : ascii) :
  quote_free u → quote_free u' → is_quote q = true → is_quote q' = true →
  u ++ q :: rest = u' ++ q' :: rest' → u = u'.
Proof.
  intros Hu Hu' Hq Hq' E.
  assert (span not_quote (u ++ q :: rest) = span not_quote (u' ++ q' :: rest'))
    as Hs by (by rewrite E).
  rewrite !quote_free_span in Hs by done. congruence.
Qed.

Lemma href_here_run (u rest : list ascii) (q : ascii) :
  quote_free u → is_quote q = true →
  href_here (u ++ q :: rest) → u = chars "href=".
Proof.
  intros Hu Hq (q' & rest' & E & Hq').
  apply (first_quote_unique _ _ _ _ _ _ Hu) in E; [done| |done|done].
  repeat constructor.
Qed.

Lemma href_here_quote_free (u : list ascii) : quote_free u → ¬ href_here u.
Proof.
  intros Hu (q & rest & -> & Hq).
  apply Forall_app in Hu as [_ Hu]. inversion Hu as [|? ? Hnq _]; subst.
  unfold not_quote in Hnq. by rewrite Hq in Hnq.
Qed.

(** One step of the matcher at a time. *)
Lemma exec_Cat {X : Type} ci r1 r2 s g (k : list ascii -> groups -> option X) :
  exec ci (Cat r1 r2) s g k = exec ci r1 s g (fun s' g' => exec ci r2 s' g' k).
Proof. reflexivity. Qed.

Lemma exec_Str {X : Type} l s' g (k : list ascii -> groups -> option X) :
  exec false (Str l) (chars l ++ s') g k = k s' g.
Proof. cbn [exec]. by rewrite strip_app. Qed.

Lemma exec_quote {X : Type} q s g (k : list ascii -> groups -> option X) :
  is_quote q = true → exec false quote (q :: s) g k = k s g.
Proof. intros Hq. cbn [exec quote]. by rewrite Hq. Qed.

(** Side conditions: a hypothesis, or a literal without quote characters. *)
Local Ltac side := first [done | by repeat constructor].

Lemma exec_scheme_value {X : Type} (v rest : list ascii) (q : ascii)
    (g : groups) (k : list ascii -> groups -> option X) :
  quote_free v → is_quote q = true →
  exec false scheme (v ++ q :: rest) g k
  = match strip false (chars "http") v with
    | None => None
    | Some v1 =>
        match
          match strip false (chars "s") v1 with
          | Some v2 =>
              match strip false (chars "://") v2 with
              | Some v3 => k (v3 ++ q :: rest) g
              | None => None
              end
          | None => None
          end
        with
        | Some y => Some y
        | None =>
            match strip false (chars "://") v1 with
            | Some v3 => k (v3 ++ q :: rest) g
            | None => None
            end
        end
    end.
Proof.
  intros Hv Hq. cbn [exec scheme].
  rewrite (strip_value (chars "http")) by side.
  destruct (strip false (chars "http") v) as [v1|]; [|done]. cbn [fmap option_fmap option_map].
  rewrite (strip_value (chars "s")) by side.
  rewrite (strip_value (chars "://")) by side.
  destruct (strip false (chars "s") v1) as [v2|]; cbn [fmap option_fmap option_map].
  - rewrite (strip_value (chars "://")) by side.
    by destruct (strip false (chars "://") v2), (strip false (chars "://") v1).
  - by destruct (strip false (chars "://") v1).
Qed.

(** The value group and the closing quote, after whatever came before. *)
Lemma exec_value_group {X : Type} (w rest : list ascii) (q : ascii)
    (g : groups) (k : list ascii -> groups -> option X) :
  quote_free w → is_quote q = true →
  exec false (Cat (Grp 1 (Rep not_quote 1)) quote) (w ++ q :: rest) g k
  = match w with
    | [] => None
    | _ :: _ => k rest (<[1 := w]> g)
    end.
Proof.
  intros Hw Hq. cbn [exec quote]. rewrite rep_span.
  - rewrite quote_free_span by done. cbn [fst snd]. rewrite Hq.
    destruct w as [|c w]; [done|]. cbn [length Nat.leb].
    do 2 f_equal. rewrite length_app.
    replace (length (c :: w) + length (q :: rest) - S (length rest))%nat
      with (length (c :: w)) by (simpl; lia).
    by rewrite take_app_length.
  - intros c s' Hc. unfold not_quote in Hc. by destruct (is_quote c).
Qed.

Lemma has_scheme_eq (v : list ascii) :
  has_scheme (str v)
  = match strip false (chars "http") v with
    | None => false
    | Some v1 =>
        match strip false (chars "://") v1 with
        | Some _ => true
        | None =>
            match strip false (chars "s") v1 with
            | Some v2 =>
                match strip false (chars "://") v2 with
                | Some _ => true
                | None => false
                end
            | None => false
            end
        end
    end.
Proof.
  unfold has_scheme, startswith. rewrite chars_str.
  change (chars "http://") with (chars "http" ++ chars "://").
  change (chars "https://") with (chars "http" ++ chars "s" ++ chars "://").
  rewrite !strip_cat.
  destruct (strip false (chars "http") v) as [v1|]; [|done].
  rewrite !strip_cat.
  destruct (strip false (chars "://") v1); [done|].
  destruct (strip false (chars "s") v1) as [v2|]; [|done].
  by destruct (strip false (chars "://") v2).
Qed.

Lemma attr_chars_app (q q' : ascii) (v rest : list ascii) :
  attr_chars q v q' ++ rest = chars "href=" ++ q :: v ++ q' :: rest.
Proof. unfold attr_chars. by rewrite <- !app_assoc, <- app_comm_cons, <- app_assoc. Qed.

Lemma bare_scheme_eq (v : list ascii) :
  bare_scheme (str v)
  = bool_decide (v = chars "http://") || bool_decide (v = chars "https://").
Proof.
  unfold bare_scheme. f_equal; apply bool_decide_ext; split.
  - intros H. by rewrite <- (chars_str v), H.
  - intros ->. reflexivity.
  - intros H. by rewrite <- (chars_str v), H.
  - intros ->. reflexivity.
Qed.

(** What the final continuation of [match_at] returns at an attribute. *)
Lemma whole_attr (q q' : ascii) (v rest : list ascii) :
  take (length (chars "href=" ++ q :: v ++ q' :: rest) - length rest)
    (chars "href=" ++ q :: v ++ q' :: rest) = attr_chars q v q'.
Proof.
  rewrite <- attr_chars_app, length_app.
  replace (length (attr_chars q v q') + length rest - length rest)%nat
    with (length (attr_chars q v q')) by lia.
  by rewrite take_app_length.
Qed.

Lemma external_at_attr (q q' : ascii) (v rest : list ascii) :
  quote_free v → is_quote q = true → is_quote q' = true →
  if goes_external (str v)
  then ∃ m, match_at false external_pattern (attr_chars q v q' ++ rest)
            = Some (m, rest) ∧ whole m = attr_chars q v q'
  else match_at false external_pattern (attr_chars q v q' ++ rest) = None.
Proof.
  intros Hv Hq Hq'. unfold goes_external, match_at, external_pattern.
  rewrite has_scheme_eq, bare_scheme_eq.
  rewrite !attr_chars_app.
  rewrite exec_Cat, exec_Str, exec_Cat, exec_quote, exec_Cat by done.
  rewrite exec_scheme_value by done.
  destruct (strip false (chars "http") v) as [v1|] eqn:E1; [|done].
  apply strip_Some in E1 as ->.
  apply Forall_app in Hv as [_ Hv].
  destruct (strip false (chars "s") v1) as [v2|] eqn:E2.
  - apply strip_Some in E2 as ->. apply Forall_app in Hv as [_ Hv].
    change (strip false (chars "://") (chars "s" ++ v2)) with (@None (list ascii)).
    destruct (strip false (chars "://") v2) as [v3|] eqn:E3; [|done].
    apply strip_Some in E3 as ->. apply Forall_app in Hv as [_ Hv].
    rewrite exec_value_group by done.
    destruct v3 as [|c v3]; [done|].
    rewrite !bool_decide_eq_false_2 by done. cbn [orb negb andb].
    eexists. split; [reflexivity|]. cbn [whole]. apply whole_attr.
  - destruct (strip false (chars "://") v1) as [v3|] eqn:E3; [|done].
    apply strip_Some in E3 as ->. apply Forall_app in Hv as [_ Hv].
    rewrite exec_value_group by done.
    destruct v3 as [|c v3]; [done|].
    rewrite !bool_decide_eq_false_2 by done. cbn [orb negb andb].
    eexists. split; [reflexivity|]. cbn [whole]. apply whole_attr.
Qed.

Lemma exec_NotAhead {X : Type} ci r s g (k : list ascii -> groups -> option X) :
  exec ci (NotAhead r) s g k
  = match exec ci r s g (fun _ _ => Some tt) with
    | Some _ => None
    | None => k s g
    end.
Proof. reflexivity. Qed.

Lemma internal_at_attr (q q' : ascii) (v rest : list ascii) :
  quote_free v → is_quote q = true → is_quote q' = true →
  if negb (has_scheme (str v)) && truthy (str v)
  then ∃ m, match_at false internal_pattern (attr_chars q v q' ++ rest)
            = Some (m, rest)
            ∧ whole m = attr_chars q v q' ∧ group 1 m = str v
  else match_at false internal_pattern (attr_chars q v q' ++ rest) = None.
Proof.
  intros Hv Hq Hq'. unfold match_at, internal_pattern.
  rewrite has_scheme_eq, !attr_chars_app.
  rewrite exec_Cat, exec_Str, exec_Cat, exec_quote, exec_Cat by done.
  rewrite exec_NotAhead, exec_scheme_value by done.
  assert (∀ b : bool,
    (if negb b && truthy (str v)
     then ∃ m, (if b then None else
                  exec false (Cat (Grp 1 (Rep not_quote 1)) quote)
                    (v ++ q' :: rest) ∅
                    (fun s' g => Some
                       ({| whole := take
                             (length (chars "href=" ++ q :: v ++ q' :: rest)
                              - length s')
                             (chars "href=" ++ q :: v ++ q' :: rest);
                           caps := g |}, s'))) = Some (m, rest)
               ∧ whole m = attr_chars q v q' ∧ group 1 m = str v
     else (if b then None else
             exec false (Cat (Grp 1 (Rep not_quote 1)) quote)
               (v ++ q' :: rest) ∅
               (fun s' g => Some
                  ({| whole := take
                        (length (chars "href=" ++ q :: v ++ q' :: rest)
                         - length s')
                        (chars "href=" ++ q :: v ++ q' :: rest);
                      caps := g |}, s'))) = None)) as Hcase.
  { intros [|]; [done|]. cbn [negb andb].
    rewrite exec_value_group by done.
    destruct v as [|c v]; [done|]. cbn [truthy str].
    eexists. split; [reflexivity|]. split; [apply whole_attr|].
    unfold group. cbn [caps]. by rewrite lookup_insert_eq. }
  destruct (strip false (chars "http") v) as [v1|]; [|apply (Hcase false)].
  destruct (strip false (chars "s") v1) as [v2|].
  - destruct (strip false (chars "://") v2), (strip false (chars "://") v1);
      first [apply (Hcase true) | apply (Hcase false)].
  - destruct (strip false (chars "://") v1);
      first [apply (Hcase true) | apply (Hcase false)].
Qed.

Lemma chars_render_attr (a : attribute) :
  chars (render_attr a)
  = chars (lead a) ++ attr_chars (open_q a) (chars (val a)) (close_q a).
Proof.
  unfold render_attr, attr_chars. rewrite !chars_app.
  change (chars (String (open_q a) (val a +:+ String (close_q a) EmptyString)))
    with (open_q a :: chars (val a +:+ String (close_q a) EmptyString)).
  by rewrite chars_app.
Qed.

(** Both patterns start with [href=] and a quote character. *)
Lemma href_needed (r : re) (s : list ascii) :
  ¬ href_here s → match_at false (Cat (Str "href=") (Cat quote r)) s = None.
Proof.
  intros Hn. unfold match_at. rewrite exec_Cat. cbn [exec quote].
  destruct (strip false (chars "href=") s) as [s'|] eqn:E; [|done].
  apply strip_Some in E as ->. destruct s' as [|q s']; [done|].
  destruct (is_quote q) eqn:Hq; [|done].
  destruct Hn. by exists q, s'.
Qed.

(** The scan of one attribute and what precedes it, for a pattern that
    starts like an href attribute and accepts the values [acc] holds of. *)
Section ScanAttributes.
Variable r : re.
Variable acc : string -> bool.
Variable out : rmatch -> string.

Let P : re := Cat (Str "href=") (Cat quote r).

Hypothesis at_attr : ∀ q q' v rest,
  quote_free v → is_quote q = true → is_quote q' = true →
  if acc (str v)
  then ∃ m, match_at false P (attr_chars q v q' ++ rest) = Some (m, rest)
            ∧ whole m = attr_chars q v q' ∧ out m = str v
  else match_at false P (attr_chars q v q' ++ rest) = None.

(** No match starts inside a run without quote characters, unless the
    run is exactly [href=]. *)
Lemma scan_run (pre mid rest : list ascii) :
  quote_free (pre ++ mid) → stops not_quote rest →
  (∀ b, b ≠ [] → b `suffix_of` pre → b ++ mid ≠ chars "href=") →
  scan false P 0 (pre ++ mid ++ rest) = scan false P 0 (mid ++ rest).
Proof.
  intros Hqf Hrest Hne. apply scan_no_match. intros b Hb Hsuf.
  apply href_needed. rewrite app_assoc.
  assert (quote_free (b ++ mid)) as Hbm.
  { destruct Hsuf as [a ->]. rewrite <- app_assoc in Hqf.
    by apply Forall_app in Hqf as [_ ?]. }
  destruct rest as [|q rest].
  - rewrite app_nil_r. by apply href_here_quote_free.
  - intros Hh. apply href_here_run in Hh; [by eapply Hne|done|].
    simpl in Hrest. unfold not_quote in Hrest. by destruct (is_quote q).
Qed.

Lemma scan_run0 (pre rest : list ascii) :
  quote_free pre → stops not_quote rest →
  ¬ (chars "href=" `suffix_of` pre) →
  scan false P 0 (pre ++ rest) = scan false P 0 rest.
Proof.
  intros Hqf Hrest Hne.
  rewrite <- (app_nil_l rest) at 1. rewrite scan_run; [done| |done|].
  - by rewrite app_nil_r.
  - intros b _ Hs E. rewrite app_nil_r in E. by subst b.
Qed.

Lemma scan_step_none (c : ascii) (s : list ascii) :
  match_at false P (c :: s) = None →
  scan false P 0 (c :: s) = scan false P 0 s.
Proof. intros H. cbn [scan]. by rewrite H. Qed.

Lemma scan_attr (a : attribute) (rest : list ascii) :
  well_formed a →
  out <$> scan false P 0 (chars (render_attr a) ++ rest)
  = (if acc (val a) then [val a] else []) ++ (out <$> scan false P 0 rest).
Proof.
  intros (Hl & Hv & Hq & Hq' & Hsuf).
  rewrite chars_render_attr, <- app_assoc, attr_chars_app.
  (* the text before the attribute *)
  rewrite (scan_run (chars (lead a)) (chars "href=")
             (open_q a :: chars (val a) ++ close_q a :: rest)).
  2:{ apply Forall_app. split; [done|repeat constructor]. }
  2:{ simpl. unfold not_quote. by rewrite Hq. }
  2:{ intros b Hb _ E. apply (f_equal length) in E. rewrite length_app in E.
      destruct b; [done|]. simpl in E. lia. }
  rewrite <- attr_chars_app.
  pose proof (at_attr (open_q a) (close_q a) (chars (val a)) rest Hv Hq Hq')
    as Hat.
  rewrite str_chars in Hat. destruct (acc (val a)).
  - destruct Hat as (m & Hm & Hw & Ho).
    erewrite scan_match; [|done|by rewrite Hw|exact Hm].
    by rewrite fmap_cons, Ho.
  - (* nothing matches at the attribute, nor inside it *)
    rewrite attr_chars_app in Hat |- *.
    set (T := open_q a :: chars (val a) ++ close_q a :: rest) in *.
    change (chars "href=" ++ T) with ("h"%char :: (chars "ref=" ++ T)) in *.
    rewrite scan_step_none by exact Hat.
    rewrite (scan_run0 (chars "ref=") T).
    2:{ repeat constructor. }
    2:{ simpl. unfold not_quote. by rewrite Hq. }
    2:{ intros Hs. apply suffix_length in Hs. simpl in Hs. lia. }
    subst T. rewrite scan_step_none.
    2:{ apply href_needed. intros (q0 & r0 & E & _).
        injection E as E _. rewrite E in Hq. discriminate Hq. }
    rewrite (scan_run0 (chars (val a)) (close_q a :: rest)); [|done| |done].
    2:{ simpl. unfold not_quote. by rewrite Hq'. }
    rewrite scan_step_none; [done|].
    apply href_needed. intros (q0 & r0 & E & _).
    injection E as E _. rewrite E in Hq'. discriminate Hq'.
Qed.

Lemma scan_page (attrs : list attribute) (trailer : string) :
  Forall well_formed attrs → quote_free (chars trailer) →
  out <$> scan false P 0 (chars (render_page attrs trailer))
  = List.filter acc (val <$> attrs).
Proof.
  intros Hwf Htr. induction Hwf as [|a attrs Ha Hwf IH].
  - cbn [render_page foldr fmap list_fmap List.filter].
    rewrite <- (app_nil_r (chars trailer)). rewrite scan_no_match.
    + cbn [scan].
      assert (match_at false P [] = None) as ->; [|done].
      apply href_needed, href_here_quote_free. constructor.
    + intros b _ [pre E]. apply href_needed. rewrite app_nil_r.
      apply href_here_quote_free. rewrite E in Htr.
      by apply Forall_app in Htr as [_ ?].
  - cbn [render_page foldr]. rewrite chars_app, scan_attr by done.
    fold (render_page attrs trailer). rewrite IH.
    rewrite fmap_cons. cbn [List.filter]. by destruct (acc (val a)).
Qed.
End ScanAttributes.

(** ** Extraction on a page of href attributes *)

Lemma slice_attr (q q' : ascii) (v : list ascii) :
  slice_6_m1 (attr_chars q v q') = v.
Proof.
  unfold slice_6_m1, attr_chars.
  change (drop 6 (chars "href=" ++ q :: v ++ [q'])) with (v ++ [q']).
  replace (length (chars "href=" ++ q :: v ++ [q']) - 1 - 6)%nat
    with (length v); [by rewrite take_app_length|].
  rewrite length_app. cbn [length chars]. rewrite length_app. cbn [length]. lia.
Qed.

Lemma filter_filter {A : Type} (f g : A -> bool) (l : list A) :
  List.filter f (List.filter g l) = List.filter (fun x => g x && f x) l.
Proof.
  induction l as [|x l IH]; [done|]. cbn [List.filter].
  destruct (g x); cbn [List.filter andb]; [|done]. by rewrite IH.
Qed.

Lemma external_links_page (attrs : list attribute) (trailer : string) :
  Forall well_formed attrs → quote_free (chars trailer) →
  external_links (extract_links_from_html (render_page attrs trailer))
  = List.filter goes_external (val <$> attrs).
Proof.
  intros Hwf Htr. cbn [external_links extract_links_from_html].
  unfold finditer, external_pattern.
  apply (scan_page _ goes_external (fun m => str (slice_6_m1 (whole m))));
    [|done|done].
  intros q q' v rest Hv Hq Hq'.
  pose proof (external_at_attr q q' v rest Hv Hq Hq') as H.
  destruct (goes_external (str v)); [|exact H].
  destruct H as (m & Hm & Hw). exists m. repeat split; [exact Hm|done|].
  by rewrite Hw, slice_attr.
Qed.

Lemma internal_links_page (attrs : list attribute) (trailer : string) :
  Forall well_formed attrs → quote_free (chars trailer) →
  internal_links (extract_links_from_html (render_page attrs trailer))
  = List.filter goes_internal (val <$> attrs).
Proof.
  intros Hwf Htr. cbn [internal_links extract_links_from_html].
  unfold finditer, internal_pattern.
  rewrite (scan_page _ (fun v => negb (has_scheme v) && truthy v) (group 1)
             (fun q q' v rest => internal_at_attr q q' v rest)) by done.
  rewrite filter_filter. apply List.filter_ext. intros v.
  unfold goes_internal, keep_internal.
  by destruct (has_scheme v), (truthy v), (startswith "mailto:" v),
    (startswith "tel:" v).
Qed.

(* ================================================================== *)
(** * The claims *)

(** ** JavaScript analysis *)


(** C10.  A handler that does not begin, at position 0, with an
    identifier followed by optional whitespace and an opening parenthesis
    contributes no called name: the set of called names, the missing set of
    the checker and the missing list of the simple tester are what they
    are without it, and every missing name comes from a handler that does
    begin with a call. *)
Theorem handler_without_call_contributes_nothing (handler : string) :
  (¬ ∃ f, call_form handler f) →
  called_name handler = None
  ∧ (∀ before after,
       function_names_of (before ++ handler :: after)
       = function_names_of (before ++ after))
  ∧ (∀ before after (defined : gset string),
       function_names_of (before ++ handler :: after) ∖ defined
       = function_names_of (before ++ after) ∖ defined)
  ∧ (∀ before after,
       simple_missing_of (before ++ handler :: after)
       = simple_missing_of (before ++ after))
  ∧ (∀ html f,
       f ∈ js_missing_functions (analyze_javascript_functionality html) →
       ∃ h, h ∈ findall1 onclick_pattern html ∧ call_form h f ∧ h ≠ handler).
Proof.
  intros Hno.
  assert (called_name handler = None) as Hn.
  { destruct (called_name handler) as [f|] eqn:E; [|done].
    destruct Hno. exists f. by apply call_form_called. }
  split; [done|]. split; [by intros; apply function_names_of_skip|].
  split; [by intros; rewrite function_names_of_skip|].
  split; [by intros; unfold simple_missing_of; rewrite function_names_of_skip|].
  intros html f Hf.
  cbn [js_missing_functions analyze_javascript_functionality] in Hf.
  apply elem_of_difference in Hf as [Hf _].
  apply elem_of_function_names_of in Hf as (h & Hh & Hc).
  exists h. repeat split; [done..|]. intros ->. destruct Hno. by exists f.
Qed.

Lemma handler_without_call_witness :
  called_name "return foo()" = None
  ∧ (∀ before after,
       function_names_of (before ++ "return foo()"%string :: after)
       = function_names_of (before ++ after))
  ∧ (∀ before after (defined : gset string),
       function_names_of (before ++ "return foo()"%string :: after) ∖ defined
       = function_names_of (before ++ after) ∖ defined)
  ∧ (∀ before after,
       simple_missing_of (before ++ "return foo()"%string :: after)
       = simple_missing_of (before ++ after))
  ∧ (∀ html f,
       f ∈ js_missing_functions (analyze_javascript_functionality html) →
       ∃ h, h ∈ findall1 onclick_pattern html ∧ call_form h f
            ∧ h ≠ "return foo()"%string).
Proof.
  apply (handler_without_call_contributes_nothing "return foo()").
  intros [f H]. apply call_form_called in H. vm_compute in H. discriminate H.
Defined.

(** The handlers the claim names call nothing; one with a call does. *)
Example handlers_calling_nothing :
  called_name "return foo()" = None ∧ called_name "this.save()" = None
  ∧ called_name "x = 1" = None ∧ called_name " foo()" = None
  ∧ called_name "foo (1)" = Some "foo"%string.
Proof. vm_compute. by repeat split. Qed.

(** ** Extraction *)

Local Ltac well_formed_attr :=
  split; [by repeat constructor|];
  split; [by repeat constructor|];
  split; [reflexivity|];
  split; [reflexivity|];
  compute_done.

Local Ltac well_formed_page :=
  repeat (constructor; [well_formed_attr|]); constructor.

Example crafted_is_a_page : render_page crafted_attrs ">d</a>" = crafted.
Proof. reflexivity. Qed.

(** A value that is the bare prefix begins with [https://] and yet
    reaches neither list. *)
Lemma bare_scheme_value_is_dropped :
  startswith "https://" "https://" = true
  ∧ external_links (extract_links_from_html bare_page) = []
  ∧ internal_links (extract_links_from_html bare_page) = []
  ∧ ¬ (∀ html v,
         (∃ before after, html = before +:+ "href=" +:+ dq v +:+ after) →
         has_scheme v = true →
         v ∈ external_links (extract_links_from_html html)).
Proof.
  split; [reflexivity|]. split; [vm_compute; reflexivity|].
  split; [vm_compute; reflexivity|].
  intros H. specialize (H bare_page "https://"%string).
  assert ("https://"%string
          ∈ external_links (extract_links_from_html bare_page)) as Hin.
  { apply H; [|reflexivity]. by exists "<a "%string, ">x</a>"%string. }
  assert (external_links (extract_links_from_html bare_page) = []) as E
    by (vm_compute; reflexivity).
  rewrite E in Hin. by apply elem_of_nil in Hin.
Qed.

(** ** Probing *)

Lemma classify_returns (fetched : outcome response) :
  ∃ p, classify fetched = Return p
       ∧ status p = tag_of fetched
       ∧ (accessible p = true ↔ status p = "success"%string)
       ∧ (accessible p = true ↔ ∃ resp, fetched = Return resp).
Proof.
  destruct fetched as [resp|[cls code reason msg]].
  - eexists. split; [reflexivity|]. cbn. repeat split; eauto.
  - destruct cls; (eexists; split; [reflexivity|]); cbn;
      (repeat split; try done); by intros [? ?].
Qed.

Section ProberFacts.
Context {World : Type}.
Variable fetch : World -> string -> Z -> outcome response * World.

Lemma test_url_returns (url : string) (timeout : Z) (w : World) :
  ∃ p w', test_url World fetch url timeout w = (Return p, w')
          ∧ status p = tag_of (fetch w url timeout).1
          ∧ w' = (fetch w url timeout).2.
Proof.
  unfold test_url. destruct (fetch w url timeout) as [r w'].
  destruct (classify_returns r) as (p & Hp & Hs & _).
  exists p, w'. by rewrite Hp.
Qed.

Lemma probe_loop_returns (links : list string) (acc : list link_result)
    (w : World) :
  ∃ rs w', probe_loop World fetch links acc w = (Return (acc ++ rs), w')
           ∧ url <$> rs = links.
Proof.
  revert acc w. induction links as [|link links IH]; intros acc w.
  - exists [], w. by rewrite app_nil_r.
  - cbn [probe_loop]. unfold bind at 1.
    destruct (test_url_returns link 5 w) as (p & w1 & Hp & _). rewrite Hp.
    destruct (IH (acc ++ [{| url := link; result := p |}]) w1)
      as (rs & w2 & Hrs & Hu).
    exists ({| url := link; result := p |} :: rs), w2.
    rewrite Hrs, <- app_assoc. split; [done|]. by rewrite fmap_cons, Hu.
Qed.

(** On the logging network the loop asks for its links, in order. *)
Lemma probe_loop_logged (links : list string) (acc : list link_result)
    (w : World) (log : list string) :
  ∃ rs w',
    probe_loop (World * list string) (logged fetch) links acc (w, log)
    = (Return (acc ++ rs), (w', log ++ links))
    ∧ url <$> rs = links.
Proof.
  revert acc w log. induction links as [|link links IH]; intros acc w log.
  - exists [], w. by rewrite !app_nil_r.
  - cbn [probe_loop]. unfold bind at 1. unfold test_url at 1.
    cbn [logged]. destruct (fetch w link 5) as [r w1].
    destruct (classify_returns r) as (p & Hp & _). rewrite Hp.
    destruct (IH (acc ++ [{| url := link; result := p |}]) w1 (log ++ [link]))
      as (rs & w2 & Hrs & Hu).
    exists ({| url := link; result := p |} :: rs), w2.
    rewrite Hrs, <- !app_assoc. split; [done|]. by rewrite fmap_cons, Hu.
Qed.
End ProberFacts.

(** C5.  When the fetch raises an [HTTPError], the probe is the
    [http_error] outcome with the status code and the reason of the error
    and with [accessible] false. *)
Theorem http_error_is_reported (e : exn) :
  exn_cls e = HTTPError →
  classify (Raise e)
  = Return {| status := "http_error"; status_code := Some (exn_code e);
              content_type := None; error := Some (exn_reason e);
              accessible := false |}
  ∧ (∀ (World : Type) (fetch : World -> string -> Z -> outcome response * World)
       (url : string) (timeout : Z) (w w' : World),
       fetch w url timeout = (Raise e, w') →
       ∃ p, test_url World fetch url timeout w = (Return p, w')
            ∧ status p = "http_error"%string
            ∧ status_code p = Some (exn_code e)
            ∧ error p = Some (exn_reason e)
            ∧ accessible p = false).
Proof.
  intros Hc. destruct e as [cls code reason msg]. cbn in Hc. subst cls.
  split; [reflexivity|].
  intros World fetch url timeout w w' Hf. unfold test_url. rewrite Hf.
  eexists. split; [reflexivity|]. by repeat split.
Qed.

Lemma http_error_is_reported_witness :
  classify (Raise not_found)
  = Return {| status := "http_error"; status_code := Some 404%Z;
              content_type := None; error := Some "Not Found"%string;
              accessible := false |}
  ∧ (∀ (World : Type) (fetch : World -> string -> Z -> outcome response * World)
       (url : string) (timeout : Z) (w w' : World),
       fetch w url timeout = (Raise not_found, w') →
       ∃ p, test_url World fetch url timeout w = (Return p, w')
            ∧ status p = "http_error"%string
            ∧ status_code p = Some 404%Z
            ∧ error p = Some "Not Found"%string
            ∧ accessible p = false).
Proof. exact (http_error_is_reported not_found eq_refl). Defined.

(** ** Totals of the summary *)

Lemma foldl_add (a : Z) (l : list Z) :
  foldl Z.add a l = (a + foldl Z.add 0 l)%Z.
Proof.
  revert a. induction l as [|y l IH]; intros a; cbn [foldl]; [lia|].
  rewrite (IH (a + y)%Z), (IH (0 + y)%Z). lia.
Qed.

Lemma sum_Z_cons (x : Z) (l : list Z) : sum_Z (x :: l) = (x + sum_Z l)%Z.
Proof. unfold sum_Z. cbn [foldl]. rewrite foldl_add. lia. Qed.

Lemma total_tested_consistent (checks : list batch) :
  Forall consistent checks →
  sum_Z (external_links_tested <$> checks)
  = Z.of_nat (length (concat (results <$> checks))).
Proof.
  induction 1 as [|b checks Hb _ IH]; [done|].
  rewrite !fmap_cons, sum_Z_cons, IH. cbn [concat]. rewrite length_app, Hb. lia.
Qed.

Lemma total_working (checks : list batch) :
  sum_Z (working_in <$> checks)
  = Z.of_nat (length (List.filter (fun link => accessible (result link))
                        (concat (results <$> checks)))).
Proof.
  induction checks as [|b checks IH]; [done|].
  rewrite !fmap_cons, sum_Z_cons, IH. cbn [concat].
  rewrite List.filter_app, length_app. unfold working_in. lia.
Qed.


Lemma rate_expr_returns (working total : Z) :
  rate_expr working total
  = Return (if (total >? 0)%Z
            then PFloat (float_mul_int
                   (SFdiv prec emax (exact_of_int working) (exact_of_int total))
                   100)
            else PInt 0).
Proof.
  unfold rate_expr, int_truediv. destruct (total >? 0)%Z eqn:E; [|done].
  assert ((total =? 0)%Z = false) as -> by lia. done.
Qed.

Lemma summary_returns (self : Results) :
  generate_summary_report self
  = Return
      {| live_website := live_website self; local_file := local_file self;
         comparison := comparison self; link_checks := link_checks self;
         summary := Some
           {| live_website_accessible := get_accessible (live_website self);
              local_file_accessible := get_accessible (local_file self);
              total_external_links_tested :=
                sum_Z (external_links_tested <$> link_checks self);
              working_external_links :=
                sum_Z (working_in <$> link_checks self);
              broken_external_links :=
                (sum_Z (external_links_tested <$> link_checks self)
                 - sum_Z (working_in <$> link_checks self))%Z;
              success_rate :=
                if (sum_Z (external_links_tested <$> link_checks self) >? 0)%Z
                then PFloat (float_mul_int
                       (SFdiv prec emax
                          (exact_of_int (sum_Z (working_in <$> link_checks self)))
                          (exact_of_int
                             (sum_Z (external_links_tested <$> link_checks self))))
                       100)
                else PInt 0 |} |}.
Proof. unfold generate_summary_report. by rewrite rate_expr_returns. Qed.



(** All ten probes of that batch fail, and all ten are counted broken. *)
Example failed_batch_counts :
  ∃ self' s,
    generate_summary_report after_failed_batch = Return self'
    ∧ summary self' = Some s
    ∧ total_external_links_tested s = 10%Z
    ∧ working_external_links s = 0%Z
    ∧ broken_external_links s = 10%Z
    ∧ success_rate s = PFloat (S754_zero false).
Proof. eexists _, _. split; [reflexivity|]. vm_compute. by repeat split. Qed.

(** ** The batch of probes *)

(** C2, as the specification states it, fails on a page without external
    links: nothing is probed and no batch record is written, so no record
    states a tested count of 0 beside a total of 0. *)
Lemma no_links_no_batch_record :
  test_external_links unit all_not_found init (only_external [])
    "live website" tt = (Return init, tt)
  ∧ link_checks init = []
  ∧ ¬ (∀ links : list string,
         ∃ self' w' b,
           test_external_links unit all_not_found init (only_external links)
             "live website" tt = (Return self', w')
           ∧ b ∈ link_checks self'
           ∧ external_links_tested b = Z.of_nat (length links `min` 10)
           ∧ external_links_total b = Z.of_nat (length links)).
Proof.
  split; [reflexivity|]. split; [reflexivity|].
  intros H. destruct (H []) as (self' & w' & b & Hrun & Hb & _).
  cbn in Hrun. injection Hrun as <- _. cbn in Hb. by apply elem_of_nil in Hb.
Qed.

(** C2, amended.  For every non-empty list of external links of length M
    the batch probes exactly the first [min M 10] of them, in extraction
    order, and appends one record that states the tested count [min M 10]
    and the total M; for the empty list nothing is probed and the results
    are left as they were. *)
Theorem bounded_prefix_is_probed
    (World : Type) (fetch : World -> string -> Z -> outcome response * World)
    (self : Results) (links_dict : Links) (source_name : string)
    (w : World) (log : list string) :
  let links := external_links links_dict in
  ∃ self' w',
    test_external_links (World * list string) (logged fetch) self links_dict
      source_name (w, log)
    = (Return self', (w', log ++ take 10 links))
    ∧ length (take 10 links) = (length links `min` 10)%nat
    ∧ (links = [] → self' = self)
    ∧ (links ≠ [] →
       ∃ rs,
         link_checks self' = link_checks self ++
           [{| source := source_name;
               external_links_tested := Z.of_nat (length links `min` 10);
               external_links_total := Z.of_nat (length links);
               results := rs |}]
         ∧ url <$> rs = take 10 links
         ∧ live_website self' = live_website self
         ∧ local_file self' = local_file self
         ∧ comparison self' = comparison self
         ∧ summary self' = summary self).
Proof.
  intros links. subst links. unfold test_external_links.
  destruct (external_links links_dict) as [|l links] eqn:E.
  - exists self, w. rewrite app_nil_r. by repeat split.
  - unfold bind.
    destruct (probe_loop_logged fetch (take 10 (l :: links)) [] w log)
      as (rs & w' & Hrs & Hu).
    rewrite Hrs. eexists _, w'. split; [reflexivity|].
    assert (length (take 10 (l :: links)) = (length (l :: links) `min` 10)%nat)
      as Hlen by (rewrite length_take; lia).
    split; [exact Hlen|]. split; [done|]. intros _.
    exists rs. cbn [app]. repeat split; [|done].
    cbn [link_checks]. do 3 f_equal.
    rewrite <- Hlen, <- Hu. by rewrite length_fmap.
Qed.

Lemma bounded_prefix_witness :
  external_links (only_external twelve_links) ≠ []
  ∧ ∃ self' w',
      test_external_links (unit * list string) (logged all_not_found) init
        (only_external twelve_links) "live website" (tt, [])
      = (Return self', (w', [] ++ take 10 twelve_links))
      ∧ length (take 10 twelve_links) = (length twelve_links `min` 10)%nat
      ∧ (twelve_links = [] → self' = init)
      ∧ (twelve_links ≠ [] →
         ∃ rs,
           link_checks self' = link_checks init ++
             [{| source := "live website";
                 external_links_tested :=
                   Z.of_nat (length twelve_links `min` 10);
                 external_links_total := Z.of_nat (length twelve_links);
                 results := rs |}]
           ∧ url <$> rs = take 10 twelve_links
           ∧ live_website self' = live_website init
           ∧ local_file self' = local_file init
           ∧ comparison self' = comparison init
           ∧ summary self' = summary init).
Proof.
  split; [done|].
  exact (bounded_prefix_is_probed unit all_not_found init
           (only_external twelve_links) "live website"%string tt []).
Defined.

(** ** Comparison of the two sources *)

(** C1, as the specification states it, fails when the local file has
    more links than the live page: with 1 link against 3 the recorded
    difference is -2, neither non-negative nor the absolute difference. *)
Lemma recorded_difference_is_signed :
  get_accessible (live_website one_against_three) = true
  ∧ get_accessible (local_file one_against_three) = true
  ∧ site_total_links (live_website one_against_three) = Some 1%Z
  ∧ site_total_links (local_file one_against_three) = Some 3%Z
  ∧ ∃ self',
      compare_versions one_against_three = Return (self', LocalHasMore 2)
      ∧ (difference <$> comparison self') = Some (-2)%Z
      ∧ ¬ (∃ c, comparison self' = Some c
                ∧ (0 <= difference c)%Z
                ∧ difference c = Z.abs (1 - 3)).
Proof.
  split; [reflexivity|]. split; [reflexivity|].
  split; [vm_compute; reflexivity|]. split; [vm_compute; reflexivity|].
  eexists. split; [vm_compute; reflexivity|]. split; [reflexivity|].
  intros (c & Hc & Hpos & _). cbn in Hc. injection Hc as <-. cbn in Hpos. lia.
Qed.

(** C1, amended.  When both sources are accessible the comparison records
    the two totals and their signed difference, live minus local, which
    is negative when the local file has more links; its magnitude, the
    absolute difference of the totals, is what the message gives beside
    the side that has more.  Nothing else of the results changes. *)
Theorem comparison_records_signed_difference
    (self : Results) (live_total local_total : Z) :
  site_accessible (live_website self) = Some true →
  site_accessible (local_file self) = Some true →
  site_total_links (live_website self) = Some live_total →
  site_total_links (local_file self) = Some local_total →
  ∃ self' said,
    compare_versions self = Return (self', said)
    ∧ comparison self'
      = Some {| live_links := live_total; local_links := local_total;
                difference := (live_total - local_total)%Z |}
    ∧ said = (if (live_total =? local_total)%Z then SameNumber
              else if (live_total >? local_total)%Z
                   then LiveHasMore (Z.abs (live_total - local_total))
                   else LocalHasMore (Z.abs (live_total - local_total)))
    ∧ ((0 <= live_total - local_total)%Z ↔ (local_total <= live_total)%Z)
    ∧ live_website self' = live_website self
    ∧ local_file self' = local_file self
    ∧ link_checks self' = link_checks self
    ∧ summary self' = summary self.
Proof.
  intros Hl Hf Hlt Hft. unfold compare_versions, get_accessible, get_total_links.
  rewrite Hl, Hf, Hlt, Hft. cbn [default negb orb].
  eexists _, _. split; [reflexivity|]. split; [reflexivity|].
  split; [|split; [lia|done]].
  destruct (live_total =? local_total)%Z eqn:E1; [done|].
  destruct (live_total >? local_total)%Z eqn:E2; f_equal; lia.
Qed.

Lemma comparison_witness :
  site_accessible (live_website one_against_three) = Some true
  ∧ site_accessible (local_file one_against_three) = Some true
  ∧ site_total_links (live_website one_against_three) = Some 1%Z
  ∧ site_total_links (local_file one_against_three) = Some 3%Z
  ∧ ∃ self' said,
      compare_versions one_against_three = Return (self', said)
      ∧ comparison self'
        = Some {| live_links := 1; local_links := 3;
                  difference := (1 - 3)%Z |}
      ∧ said = (if (1 =? 3)%Z then SameNumber
                else if (1 >? 3)%Z
                     then LiveHasMore (Z.abs (1 - 3))
                     else LocalHasMore (Z.abs (1 - 3)))
      ∧ ((0 <= 1 - 3)%Z ↔ (3 <= 1)%Z)
      ∧ live_website self' = live_website one_against_three
      ∧ local_file self' = local_file one_against_three
      ∧ link_checks self' = link_checks one_against_three
      ∧ summary self' = summary one_against_three.
Proof.
  assert (site_total_links (live_website one_against_three) = Some 1%Z) as H1
    by (vm_compute; reflexivity).
  assert (site_total_links (local_file one_against_three) = Some 3%Z) as H3
    by (vm_compute; reflexivity).
  split; [reflexivity|]. split; [reflexivity|].
  split; [exact H1|]. split; [exact H3|].
  exact (comparison_records_signed_difference one_against_three 1 3
           eq_refl eq_refl H1 H3).
Defined.

(** ** The bands of the summary *)

Lemma compare_int_value (x : pynum) (n : Z) (q : Q) :
  value x = Some q → compare_int x n = Some (q ?= inject_Z n)%Q.
Proof.
  unfold Qcompare.
  destruct x as [z|[s|s| |s m e]]; cbn [value compare_int]; try done.
  - intros [= <-]. cbn [Qnum Qden inject_Z]. by rewrite !Z.mul_1_r.
  - intros [= <-]. cbn [Qnum Qden]. by rewrite !Z.mul_1_r.
  - destruct (0 <=? e)%Z eqn:E; intros [= <-]; cbn [Qnum Qden inject_Z].
    + by rewrite !Z.mul_1_r.
    + rewrite Z.mul_1_r, Z2Pos.id; [done|]. apply Z.pow_pos_nonneg; lia.
Qed.

Lemma py_ge_value (x : pynum) (n : Z) (q : Q) :
  value x = Some q → py_ge x n = true ↔ (inject_Z n <= q)%Q.
Proof.
  intros Hv. unfold py_ge. rewrite (compare_int_value x n q Hv).
  destruct (q ?= inject_Z n)%Q eqn:E.
  - apply Qeq_alt in E. split; [|done]. intros _. rewrite E. apply Qle_refl.
  - apply Qlt_alt in E. split; [done|]. intros H.
    exfalso. by apply (Qlt_not_le _ _ E).
  - apply Qgt_alt in E. split; [|done]. intros _. by apply Qlt_le_weak.
Qed.

(** C8.  The band follows the value of the success rate: at least 90 is
    excellent, from 75 up to but excluding 90 is good, from 50 up to but
    excluding 75 is poor, below 50 is very poor; an infinite rate falls
    in the band of its sign, and a rate that is not a number compares
    with nothing and is written very poor. *)
Theorem band_follows_rate (rate : pynum) :
  (∀ q : Q, value rate = Some q →
     ((90 <= q)%Q → quality_band rate = Excellent)
     ∧ ((75 <= q)%Q ∧ (q < 90)%Q → quality_band rate = Good)
     ∧ ((50 <= q)%Q ∧ (q < 75)%Q → quality_band rate = Poor)
     ∧ ((q < 50)%Q → quality_band rate = VeryPoor))
  ∧ (rate = PFloat (S754_infinity false) → quality_band rate = Excellent)
  ∧ (rate = PFloat (S754_infinity true) → quality_band rate = VeryPoor)
  ∧ (rate = PFloat S754_nan → quality_band rate = VeryPoor).
Proof.
  split; [|by repeat split; intros ->].
  intros q Hv. unfold quality_band.
  pose proof (py_ge_value rate 90 q Hv) as H90.
  pose proof (py_ge_value rate 75 q Hv) as H75.
  pose proof (py_ge_value rate 50 q Hv) as H50.
  change (inject_Z 90) with 90%Q in H90.
  change (inject_Z 75) with 75%Q in H75.
  change (inject_Z 50) with 50%Q in H50.
  assert ((75 <= 90)%Q ∧ (50 <= 75)%Q ∧ (50 <= 90)%Q) as (L1 & L2 & L3)
    by (by repeat split).
  assert (∀ a b : Q, (a < b)%Q → (b <= a)%Q → False) as Hnle
    by (intros a b; apply Qlt_not_le).
  assert (∀ a b c : Q, (a <= b)%Q → (b <= c)%Q → (a <= c)%Q) as Htr
    by (intros a b c; apply Qle_trans).
  destruct (py_ge rate 90) eqn:E90.
  { apply proj1 in H90. specialize (H90 eq_refl).
    split; [done|]. split; [|split].
    - intros [_ H]. exfalso. eauto.
    - intros [_ H]. exfalso. eauto.
    - intros H. exfalso. eauto. }
  assert (¬ (90 <= q)%Q) as N90 by (intros H; apply H90 in H; discriminate H).
  destruct (py_ge rate 75) eqn:E75.
  { apply proj1 in H75. specialize (H75 eq_refl).
    split; [done|]. split; [done|]. split.
    - intros [_ H]. exfalso. eauto.
    - intros H. exfalso. eauto. }
  assert (¬ (75 <= q)%Q) as N75 by (intros H; apply H75 in H; discriminate H).
  destruct (py_ge rate 50) eqn:E50.
  { apply proj1 in H50. specialize (H50 eq_refl).
    split; [done|]. split; [by intros [? _]|]. split; [done|].
    intros H. exfalso. eauto. }
  assert (¬ (50 <= q)%Q) as N50 by (intros H; apply H50 in H; discriminate H).
  split; [done|]. split; [by intros [? _]|]. split; [by intros [? _]|done].
Qed.

Lemma band_follows_rate_witness :
  value just_above_55 = Some (7740561859543041 # 2 ^ 47)%Q
  ∧ ((50 <= 7740561859543041 # 2 ^ 47)%Q ∧ (7740561859543041 # 2 ^ 47 < 75)%Q)
  ∧ quality_band just_above_55 = Poor.
Proof.
  assert (value just_above_55 = Some (7740561859543041 # 2 ^ 47)%Q) as Hv
    by reflexivity.
  assert ((50 <= 7740561859543041 # 2 ^ 47)%Q
          ∧ (7740561859543041 # 2 ^ 47 < 75)%Q) as Hq
    by (split; [by vm_compute|reflexivity]).
  split; [exact Hv|]. split; [exact Hq|].
  exact (proj1 (proj2 (proj2
           (proj1 (band_follows_rate just_above_55) _ Hv))) Hq).
Defined.

(** ** The success rate *)

Lemma rates_close_upto_20 : rates_close_upto 20 = true.
Proof. vm_compute. reflexivity. Qed.

Lemma rate_close (w n : Z) :
  (0 < n <= 20)%Z → (0 <= w <= n)%Z →
  ∃ rate q, rate_expr w n = Return rate ∧ value rate = Some q
            ∧ (Qabs (q - inject_Z (100 * w) / inject_Z n) <= 1 # 2 ^ 46)%Q.
Proof.
  intros Hn Hw. pose proof rates_close_upto_20 as H.
  unfold rates_close_upto in H. rewrite forallb_forall in H.
  specialize (H n). rewrite <- list_elem_of_In, elem_of_seqZ in H.
  specialize (H ltac:(lia)). rewrite forallb_forall in H.
  specialize (H w). rewrite <- list_elem_of_In, elem_of_seqZ in H.
  specialize (H ltac:(lia)).
  destruct (rate_expr w n) as [rate|]; [|done].
  unfold close_to_percentage in H.
  destruct (value rate) as [q|] eqn:Hv; [|done].
  exists rate, q. split; [done|]. split; [done|]. by apply Qle_bool_iff.
Qed.

(** A count divided by itself is exactly one. *)
Lemma SFdiv_same (p : positive) :
  SFdiv prec emax (S754_finite false p 0) (S754_finite false p 0)
  = S754_finite false 4503599627370496 (-52).
Proof.
  unfold SFdiv, SFdiv_core_binary.
  replace (Zdigits2 (Z.pos p) + 0 - (Zdigits2 (Z.pos p) + 0))%Z with 0%Z by lia.
  change (Z.min (fexp prec emax 0) (0 - 0))%Z with (-53)%Z.
  change (0 - 0 - -53)%Z with 53%Z. cbv iota.
  rewrite Z.shiftl_mul_pow2 by lia.
  assert (Z.div_eucl (Z.pos p * 2 ^ 53) (Z.pos p) = (2 ^ 53, 0))%Z as ->.
  { pose proof (Z_div_mod_eq_full (Z.pos p * 2 ^ 53) (Z.pos p)) as H.
    unfold Z.div, Z.modulo in *.
    pose proof (Z.div_mul_cancel_l) as _.
    assert ((Z.pos p * 2 ^ 53) / Z.pos p = 2 ^ 53)%Z as Hd
      by (rewrite Z.mul_comm; apply Z.div_mul; lia).
    assert ((Z.pos p * 2 ^ 53) mod Z.pos p = 0)%Z as Hm
      by (rewrite Z.mul_comm; apply Z.mod_mul; lia).
    unfold Z.div, Z.modulo in Hd, Hm.
    destruct (Z.div_eucl (Z.pos p * 2 ^ 53) (Z.pos p)) as [d m].
    cbn [fst snd] in *. by subst. }
  assert (new_location (Z.pos p) 0 = loc_Exact) as ->.
  { unfold new_location, new_location_even, new_location_odd.
    by destruct (Z.even (Z.pos p)). }
  reflexivity.
Qed.

Lemma rate_all_working (n : Z) :
  (0 < n)%Z →
  rate_expr n n = Return (PFloat (S754_finite false 7036874417766400 (-46))).
Proof.
  intros Hn. rewrite rate_expr_returns.
  assert ((n >? 0)%Z = true) as -> by lia.
  destruct n as [|p|p]; [lia| |lia]. cbn [exact_of_int].
  rewrite SFdiv_same. reflexivity.
Qed.

Lemma rate_none_working (n : Z) :
  (0 < n)%Z → rate_expr 0 n = Return (PFloat (S754_zero false)).
Proof.
  intros Hn. rewrite rate_expr_returns.
  assert ((n >? 0)%Z = true) as -> by lia.
  destruct n as [|p|p]; [lia| |lia]. reflexivity.
Qed.

(** C3, as the specification states it, fails for eleven working links
    out of twenty: the rate is the double next above 55, not 55. *)
Lemma eleven_of_twenty_is_not_55 :
  ∃ self' s,
    generate_summary_report eleven_of_twenty = Return self'
    ∧ summary self' = Some s
    ∧ total_external_links_tested s = 20%Z
    ∧ working_external_links s = 11%Z
    ∧ success_rate s = just_above_55
    ∧ value (success_rate s) = Some (7740561859543041 # 2 ^ 47)%Q
    ∧ ¬ (7740561859543041 # 2 ^ 47 == inject_Z 11 / inject_Z 20 * 100)%Q.
Proof.
  eexists _, _. split; [reflexivity|]. split; [reflexivity|].
  split; [reflexivity|]. split; [reflexivity|].
  split; [vm_compute; reflexivity|]. split; [vm_compute; reflexivity|].
  by vm_compute.
Qed.

(** C3, amended.  The summary always returns.  Its total N is the sum of
    the tested counts and W the number of accessible results; broken is
    N - W.  With N = 0 the rate is the integer 0 and nothing is divided.
    With N > 0 the rate is the double obtained by rounding W / N and then
    rounding its product with 100: exactly 0 when nothing works, exactly
    100 when everything does, and within [2^-46] of W / N * 100 for every
    total up to 20, the most two batches can test, without always being
    equal to it.  The report of the interactive tester uses the same
    expression. *)
Theorem summary_rate_formula (self : Results) :
  ∃ self' s,
    generate_summary_report self = Return self'
    ∧ summary self' = Some s
    ∧ let N := total_external_links_tested s in
      let W := working_external_links s in
      N = sum_Z (external_links_tested <$> link_checks self)
      ∧ W = Z.of_nat (length (List.filter
                                (fun link => accessible (result link))
                                (all_probes self)))
      ∧ (Forall consistent (link_checks self) →
         N = Z.of_nat (length (all_probes self)))
      ∧ broken_external_links s = (N - W)%Z
      ∧ ((N <= 0)%Z → success_rate s = PInt 0)
      ∧ ((0 < N)%Z →
         success_rate s
         = PFloat (SFmul prec emax
                     (SFdiv prec emax (exact_of_int W) (exact_of_int N))
                     (float_of_int 100)))
      ∧ ((0 < N)%Z → W = 0%Z → success_rate s = PFloat (S754_zero false))
      ∧ ((0 < N)%Z → W = N →
         success_rate s = PFloat (float_of_int 100))
      ∧ ((0 < N <= 20)%Z → (0 <= W <= N)%Z →
         ∃ q, value (success_rate s) = Some q
              ∧ (Qabs (q - inject_Z (100 * W) / inject_Z N) <= 1 # 2 ^ 46)%Q)
      ∧ (∀ tested working,
           generate_report_success_rate tested working
           = rate_expr working tested).
Proof.
  unfold generate_summary_report.
  set (N := sum_Z (external_links_tested <$> link_checks self)).
  set (W := sum_Z (working_in <$> link_checks self)).
  pose proof (rate_expr_returns W N) as Hr.
  destruct (rate_expr W N) as [rate|e] eqn:Erate; [|done].
  eexists _, _. split; [reflexivity|]. split; [reflexivity|]. cbv zeta.
  cbn [total_external_links_tested working_external_links
       broken_external_links success_rate].
  split; [done|]. split; [apply total_working|].
  split; [apply total_tested_consistent|]. split; [done|].
  split; [|split; [|split; [|split; [|split]]]].
  - intros Hn. injection Hr as ->. by assert ((N >? 0)%Z = false) as -> by lia.
  - intros Hn. injection Hr as ->. by assert ((N >? 0)%Z = true) as -> by lia.
  - intros Hn Hw. rewrite Hw, rate_none_working in Erate by done.
    by injection Erate as <-.
  - intros Hn Hw. rewrite Hw, rate_all_working in Erate by done.
    by injection Erate as <-.
  - intros Hn Hw. destruct (rate_close W N Hn Hw) as (rate' & q & H1 & H2 & H3).
    rewrite Erate in H1. injection H1 as <-. by exists q.
  - done.
Qed.

Lemma summary_rate_witness :
  Forall consistent (link_checks eleven_of_twenty)
  ∧ ∃ self' s,
      generate_summary_report eleven_of_twenty = Return self'
      ∧ summary self' = Some s
      ∧ total_external_links_tested s = 20%Z
      ∧ working_external_links s = 11%Z
      ∧ broken_external_links s = 9%Z
      ∧ ∃ q, value (success_rate s) = Some q
             ∧ (Qabs (q - inject_Z (100 * 11) / inject_Z 20) <= 1 # 2 ^ 46)%Q.
Proof.
  assert (Forall consistent (link_checks eleven_of_twenty)) as Hc
    by (repeat constructor).
  split; [exact Hc|].
  destruct (summary_rate_formula eleven_of_twenty)
    as (self' & s & Hrun & Hs & HN & HW & HNc & Hb & _ & _ & _ & _ & Hq & _).
  assert (total_external_links_tested s = 20%Z) as H20 by (by rewrite HN).
  assert (working_external_links s = 11%Z) as H11 by (by rewrite HW).
  exists self', s. split; [exact Hrun|]. split; [exact Hs|].
  split; [exact H20|]. split; [exact H11|].
  split; [by rewrite Hb, H20, H11|].
  rewrite H20, H11 in Hq. apply Hq; lia.
Defined.


(* ================================================================== *)
(** * Further properties of the code *)

(** ** The matcher on arbitrary texts *)

Lemma strip_suffix (ci : bool) (l s s' : list ascii) :
  strip ci l s = Some s' → s' `suffix_of` s.
Proof.
  revert s. induction l as [|c l IH]; intros s; cbn [strip].
  - by intros [= ->].
  - destruct s as [|x s]; [done|].
    destruct (same_char ci c x); [|done].
    intros H. apply suffix_cons_r. by apply IH.
Qed.

(** A repetition that succeeds took a run inside the class, at least as
    long as required, and handed the rest to its continuation. *)
Lemma rep_inv {X : Type} (p : ascii -> bool) (least : nat) (s : list ascii)
    (k : list ascii -> option X) (y : X) :
  rep p least s k = Some y →
  ∃ run tail, s = run ++ tail ∧ Forall (fun x => p x = true) run
              ∧ (least <= length run)%nat ∧ k tail = Some y.
Proof.
  revert least. induction s as [|x s IH]; intros least; cbn [rep].
  - destruct least; [|done]. intros H. by exists [], [].
  - assert (match least with O => k (x :: s) | S _ => None end = Some y →
            ∃ run tail, x :: s = run ++ tail
              ∧ Forall (fun x => p x = true) run
              ∧ (least <= length run)%nat ∧ k tail = Some y) as Hstop.
    { destruct least; [|done]. intros H. by exists [], (x :: s). }
    destruct (p x) eqn:Hx; [|exact Hstop].
    destruct (rep p (Nat.pred least) s k) as [y'|] eqn:E; [|exact Hstop].
    intros [= ->]. destruct (IH _ E) as (run & tail & -> & Hr & Hl & Hk).
    exists (x :: run), tail. repeat split; [by constructor| |done].
    cbn [length]. lia.
Qed.

(** The continuation of a match is only ever called on a suffix of the
    text. *)
Lemma exec_inv (ci : bool) (r : re) :
  ∀ (X : Type) (s : list ascii) (g : groups)
    (k : list ascii -> groups -> option X) (y : X),
    exec ci r s g k = Some y →
    ∃ s' g', s' `suffix_of` s ∧ k s' g' = Some y.
Proof.
  induction r as [l|p|p least|r1 IH1 r2 IH2|r1 IH1 r2 IH2|r1 IH1|i r1 IH1|r1 IH1];
    intros X s g k y; cbn [exec].
  - destruct (strip ci (chars l) s) as [s'|] eqn:E; [|done].
    intros H. exists s', g. split; [by eapply strip_suffix|done].
  - destruct s as [|x s]; [done|]. destruct (p x); [|done].
    intros H. exists s, g. split; [by apply suffix_cons_r|done].
  - intros H. apply rep_inv in H as (run & tail & -> & _ & _ & H).
    exists tail, g. split; [by apply suffix_app_r|done].
  - intros H. apply IH1 in H as (s1 & g1 & Hs1 & H).
    apply IH2 in H as (s2 & g2 & Hs2 & H).
    exists s2, g2. split; [by etrans|done].
  - destruct (exec ci r1 s g k) as [y'|] eqn:E.
    + intros [= ->]. by apply IH1 in E.
    + apply IH2.
  - destruct (exec ci r1 s g k) as [y'|] eqn:E.
    + intros [= ->]. by apply IH1 in E.
    + intros H. by exists s, g.
  - intros H. apply IH1 in H as (s1 & g1 & Hs1 & H). eauto.
  - destruct (exec ci r1 s g (fun _ _ => Some tt)); [done|].
    intros H. by exists s, g.
Qed.

Lemma quote_free_suffix (s s' : list ascii) :
  quote_free s → s' `suffix_of` s → quote_free s'.
Proof. intros Hs [pre ->]. by apply Forall_app in Hs as [_ ?]. Qed.

(** A pattern that needs a quote character fails on a text without one. *)
Lemma requires_quote_fails (ci : bool) (r : re) :
  requires_quote r →
  ∀ (X : Type) (s : list ascii) (g : groups)
    (k : list ascii -> groups -> option X),
    quote_free s → exec ci r s g k = None.
Proof.
  induction 1 as [p Hp|r1 r2 _ IH|r1 r2 _ IH|i r1 _ IH]; intros X s g k Hs;
    cbn [exec].
  - destruct s as [|x s]; [done|]. destruct (p x) eqn:Hx; [|done].
    apply Hp in Hx. inversion Hs as [|? ? Hn _]; subst.
    unfold not_quote in Hn. by rewrite Hx in Hn.
  - by apply IH.
  - destruct (exec ci r1 s g (fun s' g' => exec ci r2 s' g' k)) as [y|] eqn:E;
      [|done].
    apply exec_inv in E as (s1 & g1 & Hs1 & E).
    rewrite IH in E; [done|]. by eapply quote_free_suffix.
  - by apply IH.
Qed.

(** Every match the scan reports starts somewhere in the text. *)
Lemma scan_sound (ci : bool) (r : re) (m : rmatch) :
  ∀ (s : list ascii) (skip : nat),
    m ∈ scan ci r skip s →
    ∃ s' rest, s' `suffix_of` s ∧ match_at ci r s' = Some (m, rest).
Proof.
  induction s as [|x s IH]; intros skip; cbn [scan].
  - destruct skip; [|by intros ?%elem_of_nil].
    destruct (match_at ci r []) as [[m' rest]|] eqn:E;
      [|by intros ?%elem_of_nil].
    intros ->%list_elem_of_singleton. by exists [], rest.
  - assert (∀ n, m ∈ scan ci r n s →
              ∃ s' rest, s' `suffix_of` x :: s
                         ∧ match_at ci r s' = Some (m, rest)) as Hnext.
    { intros n Hn. apply IH in Hn as (s' & rest & Hs' & Hm).
      exists s', rest. split; [by apply suffix_cons_r|done]. }
    destruct skip; [|apply Hnext].
    destruct (match_at ci r (x :: s)) as [[m' rest]|] eqn:E; [|apply Hnext].
    intros [->|Hin]%elem_of_cons; [by exists (x :: s), rest|].
    by eapply Hnext.
Qed.

Lemma scan_quote_free (ci : bool) (r : re) (s : list ascii) :
  requires_quote r → quote_free s → scan ci r 0 s = [].
Proof.
  intros Hr Hs. destruct (scan ci r 0 s) as [|m l] eqn:E; [done|].
  assert (m ∈ scan ci r 0 s) as Hm by (rewrite E; by left).
  apply scan_sound in Hm as (s' & rest & Hs' & Hm).
  unfold match_at in Hm. rewrite requires_quote_fails in Hm; [done..|].
  by eapply quote_free_suffix.
Qed.

Lemma rq_quote_then (r : re) : requires_quote (Cat quote r).
Proof. apply rq_cat_l, rq_cls. tauto. Qed.

Local Ltac needs_quote :=
  repeat first [apply rq_quote_then | by apply rq_cls | apply rq_cat_r].

Lemma patterns_require_quote :
  requires_quote external_pattern ∧ requires_quote internal_pattern
  ∧ requires_quote onclick_pattern ∧ requires_quote form_pattern
  ∧ requires_quote img_pattern ∧ requires_quote script_pattern
  ∧ requires_quote css_pattern.
Proof. repeat split; needs_quote. Qed.

Lemma finditer_quote_free (ci : bool) (r : re) (text : string) :
  requires_quote r → quote_free (chars text) → finditer ci r text = [].
Proof. intros. by apply scan_quote_free. Qed.

(** X1.  A page text without any quote character yields nothing: the
    seven categories are empty, the total is 0, and the JavaScript
    analysis finds no handler and no called or missing function. *)
Theorem text_without_quotes_has_no_links (text : string) :
  quote_free (chars text) →
  no_links (extract_links_from_html text)
  ∧ total_links (extract_links_from_html text) = 0%Z
  ∧ js_onclick_handlers (analyze_javascript_functionality text) = 0%Z
  ∧ js_function_names (analyze_javascript_functionality text) = ∅
  ∧ js_missing_functions (analyze_javascript_functionality text) = ∅.
Proof.
  intros Hq.
  destruct patterns_require_quote as (He & Hi & Ho & Hf & Hg & Hs & Hc).
  assert (extract_links_from_html text = only_external []) as ->.
  { unfold extract_links_from_html, only_external.
    by rewrite !finditer_quote_free. }
  split; [by repeat split|]. split; [done|].
  unfold analyze_javascript_functionality, findall1.
  rewrite (finditer_quote_free false onclick_pattern) by done.
  cbn [fmap list_fmap length function_names_of foldl js_onclick_handlers
       js_function_names js_missing_functions].
  split; [done|]. split; [done|]. apply set_eq; intros f; rewrite elem_of_difference; split; [by intros [? _]|by intros ?%not_elem_of_empty].
Qed.

Lemma text_without_quotes_witness :
  quote_free (chars plain_text)
  ∧ no_links (extract_links_from_html plain_text)
  ∧ total_links (extract_links_from_html plain_text) = 0%Z
  ∧ js_onclick_handlers (analyze_javascript_functionality plain_text) = 0%Z
  ∧ js_function_names (analyze_javascript_functionality plain_text) = ∅
  ∧ js_missing_functions (analyze_javascript_functionality plain_text) = ∅.
Proof.
  assert (quote_free (chars plain_text)) as H by (by repeat constructor).
  split; [exact H|]. exact (text_without_quotes_has_no_links plain_text H).
Defined.

(** ** Every reported href value stands in the text *)

Lemma href_start (r : re) (s : list ascii) (x : rmatch * list ascii) :
  match_at false (Cat (Str "href=") (Cat quote r)) s = Some x →
  ∃ q rest, s = chars "href=" ++ q :: rest ∧ is_quote q = true.
Proof.
  unfold match_at. rewrite exec_Cat. cbn [exec quote].
  destruct (strip false (chars "href=") s) as [s'|] eqn:E; [|done].
  apply strip_Some in E as ->. destruct s' as [|q s']; [done|].
  destruct (is_quote q) eqn:Hq; [|done]. intros _. by exists q, s'.
Qed.

Section ScanSound.
Variable r : re.
Variable acc : string -> bool.
Variable out : rmatch -> string.

Let P : re := Cat (Str "href=") (Cat quote r).

Hypothesis needs : requires_quote r.

Hypothesis at_attr : ∀ q q' v rest,
  quote_free v → is_quote q = true → is_quote q' = true →
  if acc (str v)
  then ∃ m, match_at false P (attr_chars q v q' ++ rest) = Some (m, rest)
            ∧ whole m = attr_chars q v q' ∧ out m = str v
  else match_at false P (attr_chars q v q' ++ rest) = None.

(** A match is one attribute with an accepted value. *)
Lemma match_is_attr (s rest : list ascii) (m : rmatch) :
  match_at false P s = Some (m, rest) →
  ∃ q q' v, s = attr_chars q v q' ++ rest ∧ quote_free v
            ∧ is_quote q = true ∧ is_quote q' = true
            ∧ acc (str v) = true ∧ out m = str v.
Proof.
  intros Hm. destruct (href_start _ _ _ Hm) as (q & rest0 & -> & Hq).
  destruct (span_spec not_quote rest0) as (Hs & Hv & Ht).
  destruct (span not_quote rest0) as [v tail]. cbn [fst snd] in *. subst rest0.
  destruct tail as [|q' rest1].
  - exfalso. rewrite app_nil_r in Hm. unfold match_at, P in Hm.
    rewrite exec_Cat, exec_Str, exec_Cat, exec_quote in Hm by done.
    by rewrite requires_quote_fails in Hm.
  - cbn in Ht. assert (is_quote q' = true) as Hq'
      by (unfold not_quote in Ht; by destruct (is_quote q')).
    rewrite <- attr_chars_app in Hm |- *.
    pose proof (at_attr q q' v rest1 Hv Hq Hq') as Hat.
    destruct (acc (str v)) eqn:Ha; [|congruence].
    destruct Hat as (m' & Hm' & _ & Ho). rewrite Hm' in Hm.
    injection Hm as -> ->. by exists q, q', v.
Qed.

Lemma scan_values (text x : string) :
  x ∈ out <$> scan false P 0 (chars text) →
  acc x = true ∧ quote_free (chars x) ∧ href_value_in x text.
Proof.
  intros (m & -> & Hm)%list_elem_of_fmap.
  apply scan_sound in Hm as (s' & rest & [pre Hpre] & Hm).
  apply match_is_attr in Hm as (q & q' & v & -> & Hv & Hq & Hq' & Ha & ->).
  rewrite chars_str. split; [done|]. split; [done|].
  exists pre, rest, q, q'. by rewrite chars_str.
Qed.
End ScanSound.

Lemma external_values (text u : string) :
  u ∈ external_links (extract_links_from_html text) →
  goes_external u = true ∧ quote_free (chars u) ∧ href_value_in u text.
Proof.
  intros Hu. cbn [external_links extract_links_from_html] in Hu.
  unfold finditer, external_pattern in Hu.
  apply (scan_values _ goes_external) in Hu; [done|needs_quote|].
  intros q q' v rest Hv Hq Hq'.
  pose proof (external_at_attr q q' v rest Hv Hq Hq') as H.
  destruct (goes_external (str v)); [|exact H].
  destruct H as (m & Hm & Hw). exists m. repeat split; [exact Hm|done|].
  by rewrite Hw, slice_attr.
Qed.

(** X2.  Whatever the page text, every external link reported begins
    with [http://] or [https://], goes on for at least one character, holds
    no quote character, and stands in the text as the value of a quoted
    href attribute. *)
Theorem external_links_are_sound (text u : string) :
  u ∈ external_links (extract_links_from_html text) →
  has_scheme u = true ∧ bare_scheme u = false
  ∧ quote_free (chars u) ∧ href_value_in u text.
Proof.
  intros Hu. apply external_values in Hu as (Ha & Hq & Hin).
  unfold goes_external in Ha.
  apply andb_true_iff in Ha as [Hs Hb]. apply negb_true_iff in Hb. done.
Qed.

Lemma external_links_are_sound_witness :
  "https://a.com/x"%string ∈ external_links (extract_links_from_html crafted)
  ∧ has_scheme "https://a.com/x" = true ∧ bare_scheme "https://a.com/x" = false
  ∧ quote_free (chars "https://a.com/x") ∧ href_value_in "https://a.com/x" crafted.
Proof.
  assert ("https://a.com/x"%string
          ∈ external_links (extract_links_from_html crafted)) as H
    by (vm_compute; left).
  split; [exact H|].
  exact (external_links_are_sound crafted "https://a.com/x"%string H).
Defined.

(** X3.  Whatever the page text, every internal link reported is not
    empty, begins with none of [http://], [https://], [mailto:] and
    [tel:], holds no quote character, stands in the text as the value of
    a quoted href attribute, and is not also reported as an external
    link. *)
Theorem internal_links_are_sound (text v : string) :
  v ∈ internal_links (extract_links_from_html text) →
  v ≠ EmptyString ∧ has_scheme v = false
  ∧ startswith "mailto:" v = false ∧ startswith "tel:" v = false
  ∧ quote_free (chars v) ∧ href_value_in v text
  ∧ v ∉ external_links (extract_links_from_html text).
Proof.
  intros Hv. cbn [internal_links extract_links_from_html] in Hv.
  rewrite list_elem_of_In in Hv. apply List.filter_In in Hv as [Hv Hk].
  rewrite <- list_elem_of_In in Hv. unfold finditer, internal_pattern in Hv.
  apply (scan_values _ (fun v => negb (has_scheme v) && truthy v)) in Hv.
  - destruct Hv as (Ha & Hq & Hin).
    apply andb_true_iff in Ha as [Hs Ht]. apply negb_true_iff in Hs.
    unfold keep_internal in Hk.
    apply andb_true_iff in Hk as [Hk Htel].
    apply andb_true_iff in Hk as [_ Hmail].
    apply negb_true_iff in Htel, Hmail.
    split; [by intros ->|]. repeat split; [done..|].
    intros He. apply external_values in He as (He & _).
    unfold goes_external in He. apply andb_true_iff in He as [He _].
    congruence.
  - needs_quote.
  - exact (fun q q' v rest => internal_at_attr q q' v rest).
Qed.

Lemma internal_links_are_sound_witness :
  "/relative"%string ∈ internal_links (extract_links_from_html crafted)
  ∧ "/relative"%string ≠ EmptyString ∧ has_scheme "/relative" = false
  ∧ startswith "mailto:" "/relative" = false
  ∧ startswith "tel:" "/relative" = false
  ∧ quote_free (chars "/relative") ∧ href_value_in "/relative" crafted
  ∧ "/relative"%string ∉ external_links (extract_links_from_html crafted).
Proof.
  assert ("/relative"%string
          ∈ internal_links (extract_links_from_html crafted)) as H
    by (vm_compute; left).
  split; [exact H|].
  exact (internal_links_are_sound crafted "/relative"%string H).
Defined.

(** ** What the patterns consume *)

Lemma strip_spelled (ci : bool) (l s s' : list ascii) :
  strip ci l s = Some s' →
  ∃ p, s = p ++ s' ∧ Forall2 (fun c x => same_char ci c x = true) l p.
Proof.
  revert s. induction l as [|c l IH]; intros s; cbn [strip].
  - intros [= ->]. by exists [].
  - destruct s as [|x s]; [done|].
    destruct (same_char ci c x) eqn:E; [|done].
    intros (p & -> & Hp)%IH. exists (x :: p). split; [done|]. by constructor.
Qed.

Lemma consumes_Str (ci : bool) (l : string) : consumes ci (Str l) (spelled ci l).
Proof.
  intros X s g k y. cbn [exec].
  destruct (strip ci (chars l) s) as [s'|] eqn:E; [|done].
  intros H. apply strip_spelled in E as (p & -> & Hp). by exists p, s', g.
Qed.

Lemma consumes_Rep (ci : bool) (cls : ascii -> bool) (least : nat) :
  consumes ci (Rep cls least) (run_of cls least).
Proof.
  intros X s g k y. cbn [exec].
  intros (run & tail & -> & Hr & Hl & Hk)%rep_inv. by exists run, tail, g.
Qed.

Lemma consumes_Cat (ci : bool) (r1 r2 : re) (L1 L2 : list ascii -> Prop) :
  consumes ci r1 L1 → consumes ci r2 L2 →
  consumes ci (Cat r1 r2) (fun p => ∃ p1 p2, p = p1 ++ p2 ∧ L1 p1 ∧ L2 p2).
Proof.
  intros H1 H2 X s g k y. cbn [exec].
  intros (p1 & s1 & g1 & -> & Hp1 & H)%H1.
  apply H2 in H as (p2 & s2 & g2 & -> & Hp2 & H).
  exists (p1 ++ p2), s2, g2. rewrite <- app_assoc. eauto 10.
Qed.

Lemma consumes_Alt (ci : bool) (r1 r2 : re) (L1 L2 : list ascii -> Prop) :
  consumes ci r1 L1 → consumes ci r2 L2 →
  consumes ci (Alt r1 r2) (fun p => L1 p ∨ L2 p).
Proof.
  intros H1 H2 X s g k y. cbn [exec].
  destruct (exec ci r1 s g k) as [y'|] eqn:E.
  - intros [= ->]. apply H1 in E as (p & s' & g' & -> & Hp & H). eauto 10.
  - intros (p & s' & g' & -> & Hp & H)%H2. eauto 10.
Qed.

Lemma consumes_Grp (ci : bool) (i : nat) (r : re) (L : list ascii -> Prop) :
  consumes ci r L → consumes ci (Grp i r) L.
Proof.
  intros H1 X s g k y. cbn [exec].
  intros (p & s' & g' & -> & Hp & H)%H1. eauto 10.
Qed.

Lemma consumes_weaken (ci : bool) (r : re) (L L' : list ascii -> Prop) :
  consumes ci r L → (∀ p, L p → L' p) → consumes ci r L'.
Proof.
  intros H1 HL X s g k y (p & s' & g' & -> & Hp & H)%H1. eauto 10.
Qed.

Lemma spelled_exact (l : string) (p : list ascii) :
  spelled false l p → p = chars l.
Proof.
  unfold spelled. induction 1 as [|c x l' p' Hcx _ IH]; [done|].
  cbn [same_char] in Hcx. apply Ascii.eqb_eq in Hcx. by subst.
Qed.

(** A quoted value: [head], a quote, the value as group 1, a quote. *)
Section QuotedValue.
Variable ci : bool.
Variables R pre body : re.
Variables head good : list ascii -> Prop.

Hypothesis pre_consumes : consumes ci pre head.
Hypothesis body_consumes : consumes ci body good.

(** [R] is the pattern of the source, nested to the right. *)
Hypothesis shape : ∀ s,
  match_at ci R s
  = match_at ci (Cat pre (Cat quote (Cat (Grp 1 body) quote))) s.

Lemma quoted_match (s rest : list ascii) (m : rmatch) :
  match_at ci R s = Some (m, rest) →
  ∃ p q v q', s = p ++ q :: v ++ q' :: rest ∧ head p ∧ good v
              ∧ is_quote q = true ∧ is_quote q' = true
              ∧ group 1 m = str v.
Proof.
  rewrite shape. unfold match_at. rewrite exec_Cat.
  intros (p & s1 & g1 & -> & Hp & H)%pre_consumes.
  rewrite exec_Cat in H. cbn [exec quote] in H.
  destruct s1 as [|q s2]; [done|]. destruct (is_quote q) eqn:Hq; [|done].
  apply body_consumes in H as (v & s3 & g3 & -> & Hv & H).
  destruct s3 as [|q' s4]; [done|]. destruct (is_quote q') eqn:Hq'; [|done].
  injection H as <- <-.
  exists p, q, v, q'. repeat split; [done..|].
  unfold group. cbn [caps]. rewrite lookup_insert_eq. cbn [default].
  f_equal. unfold id.
  replace (length (v ++ q' :: s4) - S (length s4))%nat with (length v)
    by (rewrite length_app; cbn [length]; lia).
  by rewrite take_app_length.
Qed.

Lemma quoted_values (text v : string) :
  v ∈ group 1 <$> scan ci R 0 (chars text) →
  good (chars v) ∧ quoted_in head v text.
Proof.
  intros (m & -> & Hm)%list_elem_of_fmap.
  apply scan_sound in Hm as (s' & rest & [before Hb] & Hm).
  apply quoted_match in Hm as (p & q & v & q' & -> & Hp & Hv & Hq & Hq' & ->).
  rewrite chars_str. split; [done|].
  exists before, p, rest, q, q'. by rewrite chars_str.
Qed.
End QuotedValue.

Lemma consumes_open_tag (tag attr : string) :
  consumes false (Cat (Str tag) (Cat (Rep not_gt 0) (Str attr)))
    (in_open_tag tag attr).
Proof.
  eapply consumes_weaken.
  - apply consumes_Cat; [apply consumes_Str|].
    apply consumes_Cat; [apply consumes_Rep|apply consumes_Str].
  - intros p (p1 & p23 & -> & H1 & p2 & p3 & -> & [H2 _] & H3).
    apply spelled_exact in H1, H3. subst. by exists p2.
Qed.

Lemma consumes_css_value :
  consumes false (Cat (Rep not_quote 1) (Str ".css")) has_css_extension.
Proof.
  eapply consumes_weaken.
  - apply consumes_Cat; [apply consumes_Rep|apply consumes_Str].
  - intros p (p1 & p2 & -> & H1 & H2%spelled_exact). subst. by exists p1.
Qed.

Lemma lower_dot (x : ascii) : same_char true "."%char x = true → x = "."%char.
Proof.
  destruct x as [[] [] [] [] [] [] [] []]; vm_compute; congruence.
Qed.

Lemma spelled_lower (l : string) (p : list ascii) :
  spelled true l p → Forall (fun c => lower c = c) (chars l) →
  lower <$> p = chars l.
Proof.
  unfold spelled. induction 1 as [|c x l' p' Hcx _ IH]; [done|].
  intros Hl. inversion Hl as [|? ? Hc Hl']; subst.
  cbn [same_char] in Hcx. apply Ascii.eqb_eq in Hcx.
  rewrite fmap_cons, IH by done. by rewrite <- Hcx, Hc.
Qed.

Lemma consumes_image_value :
  consumes true
    (Cat (Rep not_quote 1) (Cat (Str ".")
       (Grp 2 (Alt (Str "jpg") (Alt (Str "jpeg") (Alt (Str "png")
          (Alt (Str "gif") (Alt (Str "svg") (Str "webp")))))))))
    has_image_extension.
Proof.
  eapply consumes_weaken.
  - apply consumes_Cat; [apply consumes_Rep|].
    apply consumes_Cat; [apply consumes_Str|]. apply consumes_Grp.
    repeat (apply consumes_Alt; [apply consumes_Str|]). apply consumes_Str.
  - intros p (stem & p2 & -> & Hstem & dot & e & -> & Hdot & He).
    inversion Hdot as [|? x ? ? Hx Hnil]; subst. inversion Hnil; subst.
    apply lower_dot in Hx as ->.
    assert (∀ ext : string, ext ∈ image_extensions → spelled true ext e →
              has_image_extension (stem ++ ["."%char] ++ e)) as Hext.
    { intros ext Hin Hs. exists stem, e, ext.
      split; [done|]. split; [exact Hstem|]. split; [exact Hin|].
      apply spelled_lower; [done|].
      unfold image_extensions in Hin.
      repeat (apply elem_of_cons in Hin as [->|Hin]; [by repeat constructor|]).
      by apply elem_of_nil in Hin. }
    unfold image_extensions in Hext.
    destruct He as [He|[He|[He|[He|[He|He]]]]];
      (eapply Hext; [|exact He]); set_solver.
Qed.

(** X4.  Whatever the page text, every onclick handler reported is not
    empty, holds no quote character, and stands in the text between two
    quote characters right after [onclick=]; the JavaScript analysis
    works on this same list of handlers. *)
Theorem onclick_handlers_are_sound (text h : string) :
  h ∈ onclick_handlers (extract_links_from_html text) →
  plain_value (chars h)
  ∧ quoted_in (fun p => p = chars "onclick=") h text
  ∧ findall1 onclick_pattern text
    = onclick_handlers (extract_links_from_html text).
Proof.
  intros Hh. cbn [onclick_handlers extract_links_from_html] in Hh.
  unfold finditer in Hh.
  apply (quoted_values false onclick_pattern (Str "onclick=")
           (Rep not_quote 1) (fun p => p = chars "onclick=") plain_value) in Hh.
  - by destruct Hh.
  - eapply consumes_weaken; [apply consumes_Str|]. apply spelled_exact.
  - apply consumes_Rep.
  - reflexivity.
Qed.

Lemma onclick_handlers_are_sound_witness :
  "open(1)"%string ∈ onclick_handlers (extract_links_from_html elements_page)
  ∧ plain_value (chars "open(1)")
  ∧ quoted_in (fun p => p = chars "onclick=") "open(1)" elements_page
  ∧ findall1 onclick_pattern elements_page
    = onclick_handlers (extract_links_from_html elements_page).
Proof.
  assert ("open(1)"%string
          ∈ onclick_handlers (extract_links_from_html elements_page)) as H
    by (vm_compute; left).
  split; [exact H|].
  exact (onclick_handlers_are_sound elements_page "open(1)"%string H).
Defined.

(** X5.  Whatever the page text, a form action is reported only from
    inside an opening [<form] tag, a script source only from inside an
    opening [<script] tag and a stylesheet only from inside an opening
    [<link] tag: the value stands between two quote characters after the
    tag and the attribute name, with no [>] between the two; it is not
    empty and holds no quote character, and a stylesheet ends in
    [.css]. *)
Theorem tag_values_are_sound (text v : string) :
  (v ∈ form_actions (extract_links_from_html text) →
   plain_value (chars v) ∧ quoted_in (in_open_tag "<form" "action=") v text)
  ∧ (v ∈ script_sources (extract_links_from_html text) →
     plain_value (chars v) ∧ quoted_in (in_open_tag "<script" "src=") v text)
  ∧ (v ∈ css_links (extract_links_from_html text) →
     has_css_extension (chars v)
     ∧ quoted_in (in_open_tag "<link" "href=") v text).
Proof.
  split; [|split]; intros Hv;
    cbn [form_actions script_sources css_links extract_links_from_html] in Hv;
    unfold finditer in Hv.
  - apply (quoted_values false form_pattern
             (Cat (Str "<form") (Cat (Rep not_gt 0) (Str "action=")))
             (Rep not_quote 1) (in_open_tag "<form" "action=") plain_value)
      in Hv; [done|apply consumes_open_tag|apply consumes_Rep|reflexivity].
  - apply (quoted_values false script_pattern
             (Cat (Str "<script") (Cat (Rep not_gt 0) (Str "src=")))
             (Rep not_quote 1) (in_open_tag "<script" "src=") plain_value)
      in Hv; [done|apply consumes_open_tag|apply consumes_Rep|reflexivity].
  - apply (quoted_values false css_pattern
             (Cat (Str "<link") (Cat (Rep not_gt 0) (Str "href=")))
             (Cat (Rep not_quote 1) (Str ".css"))
             (in_open_tag "<link" "href=") has_css_extension)
      in Hv; [done|apply consumes_open_tag|apply consumes_css_value
             |reflexivity].
Qed.

Lemma tag_values_are_sound_witness :
  "/go"%string ∈ form_actions (extract_links_from_html elements_page)
  ∧ plain_value (chars "/go")
  ∧ quoted_in (in_open_tag "<form" "action=") "/go" elements_page.
Proof.
  assert ("/go"%string
          ∈ form_actions (extract_links_from_html elements_page)) as H
    by (vm_compute; left).
  split; [exact H|].
  exact (proj1 (tag_values_are_sound elements_page "/go"%string) H).
Defined.

(** X6.  Whatever the page text, every image source reported is a
    non-empty stem without quote characters, a dot, and one of [jpg],
    [jpeg], [png], [gif], [svg], [webp] in any mix of upper and lower
    case, and it stands in the text between two quote characters after
    [src=] (in any case). *)
Theorem image_sources_are_sound (text v : string) :
  v ∈ image_sources (extract_links_from_html text) →
  has_image_extension (chars v) ∧ quoted_in (spelled true "src=") v text.
Proof.
  intros Hv. cbn [image_sources extract_links_from_html] in Hv.
  unfold finditer in Hv.
  apply (quoted_values true img_pattern (Str "src=")
           (Cat (Rep not_quote 1) (Cat (Str ".")
              (Grp 2 (Alt (Str "jpg") (Alt (Str "jpeg") (Alt (Str "png")
                 (Alt (Str "gif") (Alt (Str "svg") (Str "webp")))))))))
           (spelled true "src=") has_image_extension) in Hv;
    [done|apply consumes_Str|apply consumes_image_value|reflexivity].
Qed.

Lemma image_sources_are_sound_witness :
  "logo.PNG"%string ∈ image_sources (extract_links_from_html elements_page)
  ∧ has_image_extension (chars "logo.PNG")
  ∧ quoted_in (spelled true "src=") "logo.PNG" elements_page.
Proof.
  assert ("logo.PNG"%string
          ∈ image_sources (extract_links_from_html elements_page)) as H
    by (vm_compute; left).
  split; [exact H|].
  exact (image_sources_are_sound elements_page "logo.PNG"%string H).
Defined.

(** ** The band the report prints *)

Lemma bands_exact_upto_20 : bands_exact_upto 20 = true.
Proof. vm_compute. reflexivity. Qed.

Lemma same_band_eq (a b : band) : same_band a b = true → a = b.
Proof. by destruct a, b. Qed.

Lemma rate_band (w n : Z) :
  (0 < n <= 20)%Z → (0 <= w <= n)%Z →
  ∃ rate, rate_expr w n = Return rate
          ∧ rate_in_range rate = true
          ∧ quality_band rate = exact_band w n.
Proof.
  intros Hn Hw. pose proof bands_exact_upto_20 as H.
  unfold bands_exact_upto in H. rewrite forallb_forall in H.
  specialize (H n). rewrite <- list_elem_of_In, elem_of_seqZ in H.
  specialize (H ltac:(lia)). rewrite forallb_forall in H.
  specialize (H w). rewrite <- list_elem_of_In, elem_of_seqZ in H.
  specialize (H ltac:(lia)).
  destruct (rate_expr w n) as [rate|]; [|done].
  apply andb_true_iff in H as [H1 H2]. exists rate.
  split; [done|]. split; [done|]. by apply same_band_eq.
Qed.

Lemma rate_in_range_spec (rate : pynum) :
  rate_in_range rate = true →
  ∃ q, value rate = Some q ∧ (0 <= q)%Q ∧ (q <= 100)%Q.
Proof.
  unfold rate_in_range. destruct (value rate) as [q|]; [|done].
  intros [H1 H2]%andb_true_iff. exists q.
  split; [done|]. split; by apply Qle_bool_iff.
Qed.

(** X7.  The band the report prints is the band of the exact ratio.  With
    no link tested the rate is the integer 0 and the band is the lowest
    one.  With every link working the band is the highest and with none
    working the lowest, whatever the total.  For every total up to 20,
    which two batches cannot exceed, the two roundings of the rate never
    move it across 90, 75 or 50: the band is excellent exactly when
    10 W >= 9 N, good when 4 W >= 3 N, poor when 2 W >= N. *)
Theorem report_band_is_exact (self : Results) :
  ∃ self' s,
    generate_summary_report self = Return self'
    ∧ summary self' = Some s
    ∧ let N := total_external_links_tested s in
      let W := working_external_links s in
      ((N <= 0)%Z → quality_band (success_rate s) = VeryPoor)
      ∧ ((0 < N)%Z → W = N → quality_band (success_rate s) = Excellent)
      ∧ ((0 < N)%Z → W = 0%Z → quality_band (success_rate s) = VeryPoor)
      ∧ ((0 < N <= 20)%Z → (0 <= W <= N)%Z →
         quality_band (success_rate s) = exact_band W N
         ∧ ∃ q, value (success_rate s) = Some q ∧ (0 <= q)%Q ∧ (q <= 100)%Q).
Proof.
  unfold generate_summary_report.
  set (N := sum_Z (external_links_tested <$> link_checks self)).
  set (W := sum_Z (working_in <$> link_checks self)).
  pose proof (rate_expr_returns W N) as Hr.
  destruct (rate_expr W N) as [rate|e] eqn:Erate; [|done].
  eexists _, _. split; [reflexivity|]. split; [reflexivity|]. cbv zeta.
  cbn [total_external_links_tested working_external_links success_rate].
  split; [|split; [|split]].
  - intros Hn. injection Hr as ->. by assert ((N >? 0)%Z = false) as -> by lia.
  - intros Hn Hw. rewrite Hw, rate_all_working in Erate by done.
    by injection Erate as <-.
  - intros Hn Hw. rewrite Hw, rate_none_working in Erate by done.
    by injection Erate as <-.
  - intros Hn Hw. destruct (rate_band W N Hn Hw) as (rate' & H1 & H2 & H3).
    rewrite Erate in H1. injection H1 as <-. split; [done|].
    by apply rate_in_range_spec.
Qed.

Lemma report_band_is_exact_witness :
  ∃ self' s,
    generate_summary_report eleven_of_twenty = Return self'
    ∧ summary self' = Some s
    ∧ total_external_links_tested s = 20%Z
    ∧ working_external_links s = 11%Z
    ∧ quality_band (success_rate s) = Poor.
Proof.
  destruct (report_band_is_exact eleven_of_twenty)
    as (self' & s & Hrun & Hs & _ & _ & _ & Hb).
  assert (self' = match generate_summary_report eleven_of_twenty with
                  | Return r => r
                  | Raise _ => self'
                  end) as Hself by (by rewrite Hrun).
  assert (total_external_links_tested s = 20%Z) as H20.
  { rewrite Hself in Hs. by injection Hs as <-. }
  assert (working_external_links s = 11%Z) as H11.
  { rewrite Hself in Hs. by injection Hs as <-. }
  exists self', s. split; [exact Hrun|]. split; [exact Hs|].
  split; [exact H20|]. split; [exact H11|].
  rewrite H20, H11 in Hb. exact (proj1 (Hb ltac:(lia) ltac:(lia))).
Defined.

(** ** A whole run *)

Lemma always_exception (e : exn) : isinstance e Exception = true.
Proof. destruct e as [[] ? ? ?]; by vm_compute. Qed.

Lemma classify_raise (e : exn) :
  ∃ p, classify (Raise e) = Return p ∧ accessible p = false.
Proof. destruct e as [[] ? ? ?]; by eexists. Qed.

Lemma complete_live_entry (code : Z) (content : string) :
  complete (live_website_entry code content).
Proof. intros _. by eexists. Qed.

Lemma complete_local_entry (content : string) :
  complete (local_file_entry content).
Proof. intros _. by eexists. Qed.

Lemma complete_failed (msg : string) (code : option Z) :
  complete (failed_entry msg code).
Proof. by intros H. Qed.

Lemma complete_with_error (msg : string) : complete (with_error empty_site msg).
Proof. by intros H. Qed.

Lemma no_links_in_nothing :
  external_links (extract_links_from_html EmptyString) = [].
Proof. by vm_compute. Qed.

Lemma sum_Z_app (l1 l2 : list Z) : sum_Z (l1 ++ l2) = (sum_Z l1 + sum_Z l2)%Z.
Proof.
  induction l1 as [|x l1 IH]; [by cbn|].
  cbn [app]. rewrite !sum_Z_cons, IH. lia.
Qed.

Lemma bounded_total (checks : list batch) :
  Forall bounded checks →
  (0 <= sum_Z (external_links_tested <$> checks)
   <= 10 * Z.of_nat (length checks))%Z.
Proof.
  induction 1 as [|b checks [_ Hb] _ IH]; [by cbn|].
  rewrite fmap_cons, sum_Z_cons. cbn [length]. lia.
Qed.

Lemma working_at_most_tested (checks : list batch) :
  Forall consistent checks →
  (0 <= sum_Z (working_in <$> checks)
   <= sum_Z (external_links_tested <$> checks))%Z.
Proof.
  intros Hc. rewrite total_working, total_tested_consistent by done.
  pose proof (List.filter_length_le (fun link => accessible (result link))
                (concat (results <$> checks))). lia.
Qed.

Section RunFacts.
Context {World : Type}.
Variable fetch : World -> string -> Z -> outcome response * World.
Variable fetch_content : World -> string -> Z -> outcome string * World.
Variable path_exists : World -> string -> bool * World.
Variable read_file : World -> string -> outcome string * World.

Local Abbreviation live_test :=
  (test_live_website World fetch fetch_content).
Local Abbreviation local_test := (test_local_file World path_exists read_file).
Local Abbreviation run :=
  (run_comprehensive_test World fetch fetch_content path_exists read_file).

(** The three ways [test_live_website] ends. *)
Lemma live_unreachable (self : Results) (w w1 : World) (e : exn) :
  fetch w "https://mybird.app" 10 = (Raise e, w1) →
  live_test self w
  = (Return (set_live_website self
               (failed_entry
                  (if isinstance e URLError then exn_reason e else exn_str e)
                  (if isinstance e HTTPError then Some (exn_code e)
                   else None)), None), w1).
Proof.
  intros Hf. unfold test_live_website, bind, test_url. rewrite Hf.
  by destruct e as [[] ? ? ?].
Qed.

Lemma live_content_fails (self : Results) (w w1 w2 : World)
    (resp : response) (e : exn) :
  fetch w "https://mybird.app" 10 = (Return resp, w1) →
  fetch_content w1 "https://mybird.app" 10 = (Raise e, w2) →
  live_test self w
  = (Return (set_live_website self
               (with_error (live_website self) (exn_str e)), None), w2).
Proof.
  intros Hf Hc. unfold test_live_website, bind, test_url. rewrite Hf.
  cbn [classify try_except accessible status_code].
  unfold try_catch. rewrite Hc. by rewrite always_exception.
Qed.

Lemma live_read (self : Results) (w w1 w2 : World)
    (resp : response) (content : string) :
  fetch w "https://mybird.app" 10 = (Return resp, w1) →
  fetch_content w1 "https://mybird.app" 10 = (Return content, w2) →
  live_test self w
  = (Return (set_live_website self
               (live_website_entry (getcode resp) content), Some content), w2).
Proof.
  intros Hf Hc. unfold test_live_website, bind, test_url. rewrite Hf.
  cbn [classify try_except accessible status_code].
  unfold try_catch. by rewrite Hc.
Qed.

Lemma live_returns (self : Results) (w : World) :
  complete (live_website self) →
  ∃ s c w1, live_test self w = (Return (set_live_website self s, c), w1)
            ∧ complete s
            ∧ (∀ content, c = Some content →
               s = live_website_entry
                     (default 0%Z (site_status_code s)) content).
Proof.
  intros Hself.
  destruct (fetch w "https://mybird.app" 10) as [[resp|e] w1] eqn:Hf.
  - destruct (fetch_content w1 "https://mybird.app" 10)
      as [[content|e] w2] eqn:Hc.
    + rewrite (live_read self w w1 w2 resp content Hf Hc).
      eexists _, _, _. split; [reflexivity|].
      split; [apply complete_live_entry|]. by intros ? [= <-].
    + rewrite (live_content_fails self w w1 w2 resp e Hf Hc).
      eexists _, _, _. split; [reflexivity|]. split; [|done].
      intros H. destruct (Hself H) as (links & H1 & H2). by exists links.
  - rewrite (live_unreachable self w w1 e Hf).
    eexists _, _, _. split; [reflexivity|].
    split; [apply complete_failed|done].
Qed.

(** The three ways [test_local_file] ends. *)
Lemma local_missing (self : Results) (w w1 : World) :
  path_exists w "index.html" = (false, w1) →
  local_test self w
  = (Return (set_local_file self (failed_entry "File not found" None), None),
     w1).
Proof. intros Hp. unfold test_local_file. by rewrite Hp. Qed.

Lemma local_unreadable (self : Results) (w w1 w2 : World) (e : exn) :
  path_exists w "index.html" = (true, w1) →
  read_file w1 "index.html" = (Raise e, w2) →
  local_test self w
  = (Return (set_local_file self (failed_entry (exn_str e) None), None), w2).
Proof.
  intros Hp Hr. unfold test_local_file. rewrite Hp. cbn [negb].
  unfold try_catch, bind. rewrite Hr. by rewrite always_exception.
Qed.

Lemma local_read (self : Results) (w w1 w2 : World) (content : string) :
  path_exists w "index.html" = (true, w1) →
  read_file w1 "index.html" = (Return content, w2) →
  local_test self w
  = (Return (set_local_file self (local_file_entry content), Some content),
     w2).
Proof.
  intros Hp Hr. unfold test_local_file. rewrite Hp. cbn [negb].
  unfold try_catch, bind. by rewrite Hr.
Qed.

Lemma local_returns (self : Results) (w : World) :
  ∃ s c w1, local_test self w = (Return (set_local_file self s, c), w1)
            ∧ complete s
            ∧ (∀ content, c = Some content → s = local_file_entry content).
Proof.
  destruct (path_exists w "index.html") as [[] w1] eqn:Hp.
  - destruct (read_file w1 "index.html") as [[content|e] w2] eqn:Hr.
    + rewrite (local_read self w w1 w2 content Hp Hr).
      eexists _, _, _. split; [reflexivity|].
      split; [apply complete_local_entry|]. by intros ? [= <-].
    + rewrite (local_unreadable self w w1 w2 e Hp Hr).
      eexists _, _, _. split; [reflexivity|].
      split; [apply complete_failed|done].
  - rewrite (local_missing self w w1 Hp).
    eexists _, _, _. split; [reflexivity|].
    split; [apply complete_failed|done].
Qed.

(** One block of probes: nothing but [link_checks] changes, and at most
    one batch is added, of the first ten external links of the entry. *)
Lemma probe_if_read_returns (self : Results) (content : option string)
    (entry : Results -> site) (source_name : string) (w : World) :
  complete (entry self) →
  ∃ new w',
    probe_if_read World fetch self content entry source_name w
    = (Return {| live_website := live_website self;
                 local_file := local_file self;
                 comparison := comparison self;
                 link_checks := link_checks self ++ new;
                 summary := summary self |}, w')
    ∧ (length new <= 1)%nat
    ∧ Forall bounded new
    ∧ Forall (fun b => source b = source_name) new
    ∧ url <$> concat (results <$> new)
      = if has_content content && get_accessible (entry self)
        then take 10 (external_links (default (only_external [])
                                        (site_links (entry self))))
        else [].
Proof.
  intros Hc. unfold probe_if_read.
  destruct (has_content content && get_accessible (entry self)) eqn:E.
  - apply andb_true_iff in E as [_ Ha].
    destruct (Hc Ha) as (links & Hl & _). rewrite Hl. cbn [from_option].
    unfold id, test_external_links.
    destruct (external_links links) as [|l ls] eqn:El.
    + exists [], w. rewrite app_nil_r. destruct self.
      split; [done|]. split; [cbn [length]; lia|]. by repeat split.
    + unfold bind.
      destruct (probe_loop_returns fetch (take 10 (l :: ls)) [] w)
        as (rs & w' & Hrs & Hu).
      rewrite Hrs. cbn [app]. eexists [_], w'.
      split; [reflexivity|]. split; [done|].
      assert (length rs = length (take 10 (l :: ls))) as Hlen
        by (by rewrite <- Hu, length_fmap).
      split; [|split].
      * constructor; [|done]. split; [done|].
        cbn [external_links_tested]. rewrite Hlen, length_take.
        cbn [length]. lia.
      * by constructor.
      * cbn [fmap list_fmap concat results]. by rewrite app_nil_r.
  - exists [], w. rewrite app_nil_r. destruct self.
    split; [done|]. split; [cbn [length]; lia|]. by repeat split.
Qed.

(** With both entries complete the comparison finds every key it reads. *)
Lemma compare_returns (self : Results) :
  complete (live_website self) → complete (local_file self) →
  ∃ self' said,
    compare_versions self = Return (self', said)
    ∧ live_website self' = live_website self
    ∧ local_file self' = local_file self
    ∧ link_checks self' = link_checks self
    ∧ (comparison self' ≠ comparison self →
       get_accessible (live_website self) = true
       ∧ get_accessible (local_file self) = true).
Proof.
  intros Hl Hf. unfold compare_versions.
  destruct (get_accessible (live_website self)) eqn:E1;
    [|by eexists _, _].
  destruct (get_accessible (local_file self)) eqn:E2;
    [|by eexists _, _].
  cbn [negb orb]. unfold get_total_links.
  destruct (Hl E1) as (l1 & _ & ->). destruct (Hf E2) as (l2 & _ & ->).
  by eexists _, _.
Qed.

(** The comparison as a function of the two entries. *)
Lemma compare_spec (self : Results) :
  complete (live_website self) → complete (local_file self) →
  ∃ said,
    compare_versions self
    = Return
        ({| live_website := live_website self;
            local_file := local_file self;
            comparison :=
              if get_accessible (live_website self)
                 && get_accessible (local_file self)
              then
                let live_total :=
                  default 0%Z (site_total_links (live_website self)) in
                let local_total :=
                  default 0%Z (site_total_links (local_file self)) in
                Some {| live_links := live_total; local_links := local_total;
                        difference := (live_total - local_total)%Z |}
              else comparison self;
            link_checks := link_checks self;
            summary := summary self |}, said).
Proof.
  intros Hl Hf. unfold compare_versions.
  destruct (get_accessible (live_website self)) eqn:E1;
    [|destruct self; by eexists].
  destruct (get_accessible (local_file self)) eqn:E2;
    [|destruct self; by eexists].
  cbn [negb orb andb]. unfold get_total_links.
  destruct (Hl E1) as (l1 & _ & ->). destruct (Hf E2) as (l2 & _ & ->).
  by eexists.
Qed.

(** A run from the initial results, step by step: the two entries, the
    batches of the two blocks, and the final results with their
    comparison and summary. *)
Lemma run_unfolds (w : World) :
  ∃ live c1 w1 loc c2 w2 new1 new2 w4 s,
    live_test init w = (Return (set_live_website init live, c1), w1)
    ∧ local_test (set_live_website init live) w1
      = (Return (set_local_file (set_live_website init live) loc, c2), w2)
    ∧ complete live ∧ complete loc
    ∧ (length new1 <= 1)%nat ∧ (length new2 <= 1)%nat
    ∧ Forall bounded new1 ∧ Forall bounded new2
    ∧ Forall (fun b => source b = "live website"%string) new1
    ∧ Forall (fun b => source b = "local file"%string) new2
    ∧ url <$> concat (results <$> new1)
      = (if has_content c1 && get_accessible live
         then take 10 (external_links (default (only_external [])
                                         (site_links live)))
         else [])
    ∧ url <$> concat (results <$> new2)
      = (if has_content c2 && get_accessible loc
         then take 10 (external_links (default (only_external [])
                                         (site_links loc)))
         else [])
    ∧ generate_summary_report
        {| live_website := live; local_file := loc;
           comparison :=
             if get_accessible live && get_accessible loc
             then
               let live_total := default 0%Z (site_total_links live) in
               let local_total := default 0%Z (site_total_links loc) in
               Some {| live_links := live_total; local_links := local_total;
                       difference := (live_total - local_total)%Z |}
             else None;
           link_checks := new1 ++ new2; summary := None |}
      = Return
          {| live_website := live; local_file := loc;
             comparison :=
               if get_accessible live && get_accessible loc
               then
                 let live_total := default 0%Z (site_total_links live) in
                 let local_total := default 0%Z (site_total_links loc) in
                 Some {| live_links := live_total; local_links := local_total;
                         difference := (live_total - local_total)%Z |}
               else None;
             link_checks := new1 ++ new2; summary := Some s |}
    ∧ run init w
      = (Return
           {| live_website := live; local_file := loc;
              comparison :=
                if get_accessible live && get_accessible loc
                then
                  let live_total := default 0%Z (site_total_links live) in
                  let local_total := default 0%Z (site_total_links loc) in
                  Some {| live_links := live_total; local_links := local_total;
                          difference := (live_total - local_total)%Z |}
                else None;
              link_checks := new1 ++ new2; summary := Some s |}, w4).
Proof.
  destruct (live_returns init w) as (live & c1 & w1 & Hlive & Cl & _);
    [done|].
  destruct (local_returns (set_live_website init live) w1)
    as (loc & c2 & w2 & Hloc & Cf & _).
  set (self2 := set_local_file (set_live_website init live) loc) in *.
  destruct (probe_if_read_returns self2 c1 live_website "live website" w2 Cl)
    as (new1 & w3 & H1 & L1 & B1 & S1 & U1).
  set (self3 := {| live_website := live_website self2;
                   local_file := local_file self2;
                   comparison := comparison self2;
                   link_checks := link_checks self2 ++ new1;
                   summary := summary self2 |}) in *.
  destruct (probe_if_read_returns self3 c2 local_file "local file" w3 Cf)
    as (new2 & w4 & H2 & L2 & B2 & S2 & U2).
  set (self4 := {| live_website := live_website self3;
                   local_file := local_file self3;
                   comparison := comparison self3;
                   link_checks := link_checks self3 ++ new2;
                   summary := summary self3 |}) in *.
  destruct (compare_spec self4 Cl Cf) as (said & Hcmp).
  eexists live, c1, w1, loc, c2, w2, new1, new2, w4, _.
  split; [exact Hlive|]. split; [exact Hloc|].
  split; [exact Cl|]. split; [exact Cf|].
  split; [exact L1|]. split; [exact L2|].
  split; [exact B1|]. split; [exact B2|].
  split; [exact S1|]. split; [exact S2|].
  split; [exact U1|]. split; [exact U2|].
  split; [by rewrite summary_returns|].
  unfold run_comprehensive_test, bind at 1. rewrite Hlive.
  unfold bind at 1. rewrite Hloc.
  unfold bind at 1. fold self2. rewrite H1.
  unfold bind at 1. fold self3. rewrite H2.
  unfold bind, lift. fold self4. rewrite Hcmp.
  by rewrite summary_returns.
Qed.
End RunFacts.

Lemma summary_fields (self self' : Results) (s : summary_entry) :
  generate_summary_report self = Return self' → summary self' = Some s →
  total_external_links_tested s
  = sum_Z (external_links_tested <$> link_checks self)
  ∧ working_external_links s = sum_Z (working_in <$> link_checks self)
  ∧ broken_external_links s
    = (total_external_links_tested s - working_external_links s)%Z
  ∧ live_website_accessible s = get_accessible (live_website self)
  ∧ local_file_accessible s = get_accessible (local_file self)
  ∧ rate_expr (working_external_links s) (total_external_links_tested s)
    = Return (success_rate s).
Proof.
  unfold generate_summary_report.
  destruct (rate_expr _ _) as [rate|e] eqn:E; [|done].
  intros [= <-]. cbn [summary]. by intros [= <-].
Qed.

Lemma bounded_consistent (checks : list batch) :
  Forall bounded checks → Forall consistent checks.
Proof. induction 1 as [|b checks [Hb _] _ IH]; by constructor. Qed.

Lemma truthy_content (content : string) :
  (if has_content (Some content) then probed_of content else [])
  = probed_of content.
Proof. by destruct content. Qed.

(** X8.  From the initial results a run always reaches its summary,
    whatever the network and the file system do: no probe, no failed read
    and no key of the results makes it raise.  It records at most two
    batches of one to ten probes each, so at most 20 links are tested; the
    working ones are counted among them, the rate is a finite number from
    0 to 100 within [2^-46] of the exact percentage, and the band printed
    is the band of the exact ratio, the lowest one when nothing was
    tested. *)
Theorem run_always_reports (World : Type)
    (fetch : World -> string -> Z -> outcome response * World)
    (fetch_content : World -> string -> Z -> outcome string * World)
    (path_exists : World -> string -> bool * World)
    (read_file : World -> string -> outcome string * World) (w : World) :
  ∃ self' s w',
    run_comprehensive_test World fetch fetch_content path_exists read_file
      init w = (Return self', w')
    ∧ summary self' = Some s
    ∧ (length (link_checks self') <= 2)%nat
    ∧ Forall bounded (link_checks self')
    ∧ let N := total_external_links_tested s in
      let W := working_external_links s in
      N = Z.of_nat (length (all_probes self'))
      ∧ W = Z.of_nat (length (List.filter
                                (fun link => accessible (result link))
                                (all_probes self')))
      ∧ (0 <= W <= N)%Z ∧ (N <= 20)%Z
      ∧ broken_external_links s = (N - W)%Z
      ∧ quality_band (success_rate s)
        = (if (N =? 0)%Z then VeryPoor else exact_band W N)
      ∧ ∃ q, value (success_rate s) = Some q
             ∧ (0 <= q)%Q ∧ (q <= 100)%Q
             ∧ ((0 < N)%Z →
                (Qabs (q - inject_Z (100 * W) / inject_Z N) <= 1 # 2 ^ 46)%Q).
Proof.
  destruct (run_unfolds fetch fetch_content path_exists read_file w)
    as (live & c1 & w1 & loc & c2 & w2 & new1 & new2 & w4 & s
        & _ & _ & _ & _ & L1 & L2 & B1 & B2 & _ & _ & _ & _ & Hsum & Hrun).
  eexists _, s, w4. split; [exact Hrun|]. split; [reflexivity|].
  cbn [link_checks]. unfold all_probes. cbn [link_checks].
  assert (Forall bounded (new1 ++ new2)) as HB by (by apply Forall_app).
  pose proof (bounded_consistent _ HB) as HC.
  split; [rewrite length_app; lia|]. split; [exact HB|].
  destruct (summary_fields _ _ s Hsum eq_refl)
    as (HN & HW & Hbr & _ & _ & Hrate).
  cbn [link_checks] in HN, HW. cbv zeta.
  pose proof (bounded_total _ HB) as Hb20. rewrite length_app in Hb20.
  pose proof (working_at_most_tested _ HC) as Hwn.
  rewrite <- HN, <- HW in Hwn. rewrite <- HN in Hb20.
  split; [by rewrite HN, total_tested_consistent|].
  split; [by rewrite HW, total_working|].
  split; [exact Hwn|]. split; [lia|]. split; [exact Hbr|].
  destruct (total_external_links_tested s =? 0)%Z eqn:E0.
  - apply Z.eqb_eq in E0. rewrite E0 in Hrate.
    injection Hrate as <-. split; [done|].
    exists 0%Q. split; [done|]. split; [done|]. split; [done|]. lia.
  - apply Z.eqb_neq in E0.
    destruct (rate_band (working_external_links s)
                (total_external_links_tested s))
      as (rate & H1 & H2 & H3); [lia|lia|].
    rewrite Hrate in H1. injection H1 as <-. split; [exact H3|].
    destruct (rate_close (working_external_links s)
                (total_external_links_tested s))
      as (rate & q & H1 & Hv & Hq); [lia|lia|].
    rewrite Hrate in H1. injection H1 as <-.
    destruct (rate_in_range_spec _ H2) as (q' & Hv' & Hq0 & Hq100).
    rewrite Hv in Hv'. injection Hv' as <-.
    exists q. by repeat split.
Qed.

(** Two links of the live page and one of the local file, all working. *)
Lemma run_always_reports_witness :
  ∃ self' s w',
    run_comprehensive_test unit answers_ok (serves two_links_page)
      has_file (file_is one_link_page) init tt = (Return self', w')
    ∧ summary self' = Some s
    ∧ total_external_links_tested s = 3%Z
    ∧ working_external_links s = 3%Z
    ∧ quality_band (success_rate s) = Excellent
    ∧ ∃ q, value (success_rate s) = Some q
           ∧ (Qabs (q - inject_Z (100 * 3) / inject_Z 3) <= 1 # 2 ^ 46)%Q.
Proof.
  destruct (run_always_reports unit answers_ok (serves two_links_page)
              has_file (file_is one_link_page) tt)
    as (self' & s & w' & Hrun & Hs & _ & _ & _ & _ & _ & _ & _ & Hband
        & q & Hq & _ & _ & Hclose).
  assert (self' = match run_comprehensive_test unit answers_ok
                          (serves two_links_page) has_file
                          (file_is one_link_page) init tt with
                  | (Return r, _) => r
                  | (Raise _, _) => self'
                  end) as Hself by (by rewrite Hrun).
  assert (total_external_links_tested s = 3%Z) as HN.
  { rewrite Hself in Hs. by injection Hs as <-. }
  assert (working_external_links s = 3%Z) as HW.
  { rewrite Hself in Hs. by injection Hs as <-. }
  rewrite HN, HW in Hband, Hclose.
  exists self', s, w'. split; [exact Hrun|]. split; [exact Hs|].
  split; [exact HN|]. split; [exact HW|]. split; [exact Hband|].
  exists q. split; [exact Hq|]. apply Hclose. lia.
Defined.

Lemma no_batch_without_links (new : list batch) :
  Forall bounded new → url <$> concat (results <$> new) = [] → new = [].
Proof.
  intros B U. destruct new as [|b new]; [done|]. exfalso.
  apply Forall_cons in B as [[Hc Hb] _]. unfold consistent in Hc.
  cbn [fmap list_fmap concat] in U.
  destruct (results b) as [|r rs]; [cbn [length] in Hc; lia|done].
Qed.

(** X9.  When the probe of the live site fails, the live entry records
    the failure: not accessible, with the reason of a [URLError] (an
    [HTTPError] is one) or the text of any other exception, and with the
    status code of an [HTTPError] alone.  No link of the live site is
    probed, nothing is compared, and the summary reports the live site as
    not accessible; the run goes on with the local file. *)
Theorem unreachable_site_is_not_probed (World : Type)
    (fetch : World -> string -> Z -> outcome response * World)
    (fetch_content : World -> string -> Z -> outcome string * World)
    (path_exists : World -> string -> bool * World)
    (read_file : World -> string -> outcome string * World)
    (w w1 : World) (e : exn) :
  fetch w "https://mybird.app"%string 10%Z = (Raise e, w1) →
  ∃ self' s w',
    run_comprehensive_test World fetch fetch_content path_exists read_file
      init w = (Return self', w')
    ∧ summary self' = Some s
    ∧ live_website self'
      = failed_entry
          (if isinstance e URLError then exn_reason e else exn_str e)
          (if isinstance e HTTPError then Some (exn_code e) else None)
    ∧ live_website_accessible s = false
    ∧ comparison self' = None
    ∧ (length (link_checks self') <= 1)%nat
    ∧ Forall (fun b => source b = "local file"%string) (link_checks self')
    ∧ (total_external_links_tested s <= 10)%Z
    ∧ (∃ c2 w2, test_local_file World path_exists read_file
                  (set_live_website init (live_website self')) w1
                = (Return (set_local_file
                             (set_live_website init (live_website self'))
                             (local_file self'), c2), w2)).
Proof.
  intros Hf.
  destruct (run_unfolds fetch fetch_content path_exists read_file w)
    as (live & c1 & w1' & loc & c2 & w2 & new1 & new2 & w4 & s
        & Hlive & Hloc & _ & _ & L1 & L2 & B1 & B2 & _ & S2 & U1 & _
        & Hsum & Hrun).
  rewrite (live_unreachable fetch fetch_content init w w1 e Hf) in Hlive.
  injection Hlive as Hl <- <-. subst live.
  cbn [has_content andb] in U1.
  apply (no_batch_without_links new1 B1) in U1. subst new1.
  cbn [app] in *.
  destruct (summary_fields _ _ s Hsum eq_refl) as (HN & _ & _ & Ha & _).
  cbn [link_checks live_website] in HN, Ha.
  pose proof (bounded_total _ B2) as Hb.
  eexists _, s, w4. split; [exact Hrun|]. split; [reflexivity|].
  split; [reflexivity|]. split; [exact Ha|]. split; [reflexivity|].
  split; [exact L2|]. split; [exact S2|]. split; [lia|].
  by exists c2, w2.
Qed.

Lemma unreachable_site_witness :
  ∃ self' s w',
    run_comprehensive_test unit all_not_found (serves two_links_page)
      has_file (file_is one_link_page) init tt = (Return self', w')
    ∧ summary self' = Some s
    ∧ live_website self' = failed_entry "Not Found" (Some 404%Z)
    ∧ live_website_accessible s = false
    ∧ comparison self' = None
    ∧ (length (link_checks self') <= 1)%nat
    ∧ Forall (fun b => source b = "local file"%string) (link_checks self')
    ∧ (total_external_links_tested s <= 10)%Z.
Proof.
  destruct (unreachable_site_is_not_probed unit all_not_found
              (serves two_links_page) has_file (file_is one_link_page)
              tt tt not_found eq_refl)
    as (self' & s & w' & H1 & H2 & H3 & H4 & H5 & H6 & H7 & H8 & _).
  by exists self', s, w'.
Defined.

(** X10.  When the live site answers the probe but the second request,
    the one for its content, fails, the live entry holds nothing but the
    text of the error: the key [accessible] is never set.  The summary
    therefore reports the site that has just answered as not accessible,
    none of its links is probed and nothing is compared. *)
Theorem content_failure_hides_the_site (World : Type)
    (fetch : World -> string -> Z -> outcome response * World)
    (fetch_content : World -> string -> Z -> outcome string * World)
    (path_exists : World -> string -> bool * World)
    (read_file : World -> string -> outcome string * World)
    (w w1 w2 : World) (resp : response) (e : exn) :
  fetch w "https://mybird.app"%string 10%Z = (Return resp, w1) →
  fetch_content w1 "https://mybird.app"%string 10%Z = (Raise e, w2) →
  ∃ self' s w',
    run_comprehensive_test World fetch fetch_content path_exists read_file
      init w = (Return self', w')
    ∧ summary self' = Some s
    ∧ live_website self'
      = {| site_accessible := None; site_status_code := None;
           site_size := None; site_links := None; site_total_links := None;
           site_error := Some (exn_str e) |}
    ∧ live_website_accessible s = false
    ∧ comparison self' = None
    ∧ (length (link_checks self') <= 1)%nat
    ∧ Forall (fun b => source b = "local file"%string) (link_checks self')
    ∧ (total_external_links_tested s <= 10)%Z.
Proof.
  intros Hf Hc.
  destruct (run_unfolds fetch fetch_content path_exists read_file w)
    as (live & c1 & w1' & loc & c2 & w2' & new1 & new2 & w4 & s
        & Hlive & Hloc & _ & _ & L1 & L2 & B1 & B2 & _ & S2 & U1 & _
        & Hsum & Hrun).
  rewrite (live_content_fails fetch fetch_content init w w1 w2 resp e Hf Hc)
    in Hlive.
  injection Hlive as Hl <- <-. subst live.
  cbn [has_content andb] in U1.
  apply (no_batch_without_links new1 B1) in U1. subst new1.
  cbn [app] in *.
  destruct (summary_fields _ _ s Hsum eq_refl) as (HN & _ & _ & Ha & _).
  cbn [link_checks live_website] in HN, Ha.
  pose proof (bounded_total _ B2) as Hb.
  eexists _, s, w4. split; [exact Hrun|]. split; [reflexivity|].
  split; [reflexivity|]. split; [exact Ha|]. split; [reflexivity|].
  split; [exact L2|]. split; [exact S2|]. lia.
Qed.

Lemma content_failure_witness :
  ∃ self' s w',
    run_comprehensive_test unit answers_ok content_times_out
      has_file (file_is one_link_page) init tt = (Return self', w')
    ∧ summary self' = Some s
    ∧ live_website self'
      = {| site_accessible := None; site_status_code := None;
           site_size := None; site_links := None; site_total_links := None;
           site_error := Some "timed out"%string |}
    ∧ live_website_accessible s = false
    ∧ comparison self' = None
    ∧ (length (link_checks self') <= 1)%nat
    ∧ Forall (fun b => source b = "local file"%string) (link_checks self')
    ∧ (total_external_links_tested s <= 10)%Z.
Proof.
  exact (content_failure_hides_the_site unit answers_ok content_times_out
           has_file (file_is one_link_page) tt tt tt _ timed_out
           eq_refl eq_refl).
Defined.

(** X11.  A local file that is missing, or that cannot be read, is
    recorded as not accessible with the text of the failure; none of its
    links is probed, nothing is compared, and only links of the live site
    can have been tested. *)
Theorem unread_file_is_not_probed (World : Type)
    (fetch : World -> string -> Z -> outcome response * World)
    (fetch_content : World -> string -> Z -> outcome string * World)
    (path_exists : World -> string -> bool * World)
    (read_file : World -> string -> outcome string * World)
    (w : World) (msg : string) :
  (∀ w0, (path_exists w0 "index.html"%string).1 = false
         ∧ msg = "File not found"%string
         ∨ (path_exists w0 "index.html"%string).1 = true
           ∧ ∃ e, (read_file (path_exists w0 "index.html"%string).2
                     "index.html"%string).1 = Raise e
                  ∧ msg = exn_str e) →
  ∃ self' s w',
    run_comprehensive_test World fetch fetch_content path_exists read_file
      init w = (Return self', w')
    ∧ summary self' = Some s
    ∧ local_file self' = failed_entry msg None
    ∧ local_file_accessible s = false
    ∧ comparison self' = None
    ∧ (length (link_checks self') <= 1)%nat
    ∧ Forall (fun b => source b = "live website"%string) (link_checks self')
    ∧ (total_external_links_tested s <= 10)%Z.
Proof.
  intros Hfile.
  destruct (run_unfolds fetch fetch_content path_exists read_file w)
    as (live & c1 & w1 & loc & c2 & w2 & new1 & new2 & w4 & s
        & _ & Hloc & _ & _ & L1 & L2 & B1 & B2 & S1 & _ & _ & U2
        & Hsum & Hrun).
  assert (loc = failed_entry msg None ∧ c2 = None) as [-> ->].
  { destruct (Hfile w1) as [[Hp ->]|[Hp (e & Hr & ->)]].
    - destruct (path_exists w1 "index.html") as [found w1'] eqn:E.
      cbn [fst] in Hp. subst found.
      rewrite (local_missing path_exists read_file _ w1 w1' E) in Hloc.
      by injection Hloc as <- <- _.
    - destruct (path_exists w1 "index.html") as [found w1'] eqn:E.
      cbn [fst snd] in Hp, Hr. subst found.
      destruct (read_file w1' "index.html") as [o w2'] eqn:E2.
      cbn [fst] in Hr. subst o.
      rewrite (local_unreadable path_exists read_file _ w1 w1' w2' e E E2)
        in Hloc.
      by injection Hloc as <- <- _. }
  cbn [has_content andb] in U2.
  apply (no_batch_without_links new2 B2) in U2. subst new2.
  rewrite app_nil_r in *.
  destruct (summary_fields _ _ s Hsum eq_refl) as (HN & _ & _ & _ & Ha & _).
  cbn [link_checks local_file] in HN, Ha.
  pose proof (bounded_total _ B1) as Hb.
  eexists _, s, w4. split; [exact Hrun|]. split; [reflexivity|].
  split; [reflexivity|]. split; [exact Ha|].
  split; [cbn [comparison]; by rewrite andb_false_r|].
  split; [exact L1|]. split; [exact S1|]. lia.
Qed.

Lemma unread_file_witness :
  ∃ self' s w',
    run_comprehensive_test unit answers_ok (serves two_links_page)
      no_file unreadable init tt = (Return self', w')
    ∧ summary self' = Some s
    ∧ local_file self' = failed_entry "File not found" None
    ∧ local_file_accessible s = false
    ∧ comparison self' = None
    ∧ (length (link_checks self') <= 1)%nat
    ∧ Forall (fun b => source b = "live website"%string) (link_checks self')
    ∧ (total_external_links_tested s <= 10)%Z.
Proof.
  apply (unread_file_is_not_probed unit answers_ok (serves two_links_page)
           no_file unreadable tt).
  intros w0. left. by split.
Defined.

(** X12.  When both sources are read, the two entries are those of the
    two contents, the summary reports both as accessible, and the
    comparison holds the totals of the links extracted from each and
    their signed difference.  The links probed are the first ten
    external links of the live page, then the first ten of the local
    file, in the order of extraction and nothing else. *)
Theorem both_sources_are_probed_in_order (World : Type)
    (fetch : World -> string -> Z -> outcome response * World)
    (fetch_content : World -> string -> Z -> outcome string * World)
    (path_exists : World -> string -> bool * World)
    (read_file : World -> string -> outcome string * World)
    (w w1 w2 w3 w4 : World) (resp : response) (live local : string) :
  fetch w "https://mybird.app"%string 10%Z = (Return resp, w1) →
  fetch_content w1 "https://mybird.app"%string 10%Z = (Return live, w2) →
  path_exists w2 "index.html"%string = (true, w3) →
  read_file w3 "index.html"%string = (Return local, w4) →
  ∃ self' s w',
    run_comprehensive_test World fetch fetch_content path_exists read_file
      init w = (Return self', w')
    ∧ summary self' = Some s
    ∧ live_website self' = live_website_entry (getcode resp) live
    ∧ local_file self' = local_file_entry local
    ∧ live_website_accessible s = true
    ∧ local_file_accessible s = true
    ∧ comparison self'
      = Some {| live_links := total_links (extract_links_from_html live);
                local_links := total_links (extract_links_from_html local);
                difference :=
                  (total_links (extract_links_from_html live)
                   - total_links (extract_links_from_html local))%Z |}
    ∧ url <$> all_probes self' = probed_of live ++ probed_of local
    ∧ ∃ from_live from_local,
        link_checks self' = from_live ++ from_local
        ∧ Forall (fun b => source b = "live website"%string) from_live
        ∧ Forall (fun b => source b = "local file"%string) from_local
        ∧ url <$> concat (results <$> from_live) = probed_of live
        ∧ url <$> concat (results <$> from_local) = probed_of local.
Proof.
  intros Hf Hc Hp Hr.
  destruct (run_unfolds fetch fetch_content path_exists read_file w)
    as (site1 & c1 & w1' & site2 & c2 & w2' & new1 & new2 & w5 & s
        & Hlive & Hloc & _ & _ & L1 & L2 & B1 & B2 & S1 & S2 & U1 & U2
        & Hsum & Hrun).
  rewrite (live_read fetch fetch_content init w w1 w2 resp live Hf Hc)
    in Hlive.
  injection Hlive as Hl <- <-. subst site1.
  rewrite (local_read path_exists read_file _ w2 w3 w4 local Hp Hr) in Hloc.
  injection Hloc as Hl <- <-. subst site2.
  change (get_accessible (live_website_entry (getcode resp) live))
    with true in *.
  change (get_accessible (local_file_entry local)) with true in *.
  rewrite andb_true_r in U1, U2.
  change (take 10 (external_links
            (default (only_external [])
               (site_links (live_website_entry (getcode resp) live)))))
    with (probed_of live) in U1.
  change (take 10 (external_links
            (default (only_external [])
               (site_links (local_file_entry local)))))
    with (probed_of local) in U2.
  rewrite truthy_content in U1, U2.
  destruct (summary_fields _ _ s Hsum eq_refl) as (_ & _ & _ & Ha1 & Ha2 & _).
  eexists _, s, w5. split; [exact Hrun|]. split; [reflexivity|].
  split; [reflexivity|]. split; [reflexivity|].
  split; [exact Ha1|]. split; [exact Ha2|]. split; [reflexivity|].
  split.
  - unfold all_probes. cbn [link_checks].
    by rewrite fmap_app, concat_app, fmap_app, U1, U2.
  - by exists new1, new2.
Qed.

Lemma both_sources_witness :
  ∃ self' s w',
    run_comprehensive_test unit answers_ok (serves two_links_page)
      has_file (file_is one_link_page) init tt = (Return self', w')
    ∧ summary self' = Some s
    ∧ comparison self'
      = Some {| live_links := 2; local_links := 2; difference := 0 |}
    ∧ url <$> all_probes self'
      = ["https://a.example/1"; "https://a.example/2";
         "https://b.example/"]%string.
Proof.
  destruct (both_sources_are_probed_in_order unit answers_ok
              (serves two_links_page) has_file (file_is one_link_page)
              tt tt tt tt tt _ two_links_page one_link_page
              eq_refl eq_refl eq_refl eq_refl)
    as (self' & s & w' & H1 & H2 & _ & _ & _ & _ & H3 & H4 & _).
  exists self', s, w'. split; [exact H1|]. split; [exact H2|].
  split; [exact H3|exact H4].
Defined.

(** ** The simple tester *)

Lemma dict_snoc (attrs : Simple.attributes) (kv : string * option string) :
  Simple.dict (attrs ++ [kv]) = <[kv.1 := kv.2]> (Simple.dict attrs).
Proof. unfold Simple.dict. by rewrite foldl_app. Qed.

Lemma dict_lookup (attrs : list (string * option string)) (name : string) :
  Simple.dict attrs !! name
  = snd <$> last (filter (fun kv => kv.1 = name) attrs).
Proof.
  induction attrs as [|kv attrs IH] using rev_ind; [done|].
  rewrite dict_snoc, filter_app.
  destruct (decide (kv.1 = name)) as [E|E].
  - rewrite E, lookup_insert_eq.
    rewrite (filter_cons_True _ kv []) by done.
    by rewrite filter_nil, last_snoc.
  - rewrite lookup_insert_ne by done.
    rewrite (filter_cons_False _ kv []) by done.
    by rewrite filter_nil, app_nil_r.
Qed.

Lemma get_dict (attrs : Simple.attributes) (name : string) :
  Simple.get (Simple.dict attrs) name = last_value attrs name.
Proof.
  unfold Simple.get, last_value. rewrite dict_lookup.
  by destruct (last _).
Qed.

Lemma get_or_dict (attrs : Simple.attributes) :
  Simple.get_or (Simple.dict attrs) "method" "GET" = method_of attrs.
Proof.
  unfold Simple.get_or, method_of. rewrite dict_lookup.
  by destruct (last _).
Qed.

Lemma string_eqb_decide (a b : string) : String.eqb a b = bool_decide (a = b).
Proof.
  destruct (String.eqb_spec a b) as [E|E].
  - by rewrite bool_decide_eq_true_2.
  - by rewrite bool_decide_eq_false_2.
Qed.

(** One start tag adds to each list what the tag is worth to it. *)
Lemma handle_starttag_adds (self : Simple.LinkParser)
    (t : string * Simple.attributes) :
  let self' := Simple.handle_starttag self t.1 t.2 in
  Simple.links self' = Simple.links self ++ option_list (link_of t)
  ∧ Simple.buttons self' = Simple.buttons self ++ option_list (button_of t)
  ∧ Simple.forms self' = Simple.forms self ++ option_list (form_of t).
Proof.
  destruct t as [tag attrs]. cbn [fst snd].
  unfold Simple.handle_starttag, link_of, button_of, form_of. cbn [fst snd].
  rewrite !string_eqb_decide, !get_dict, get_or_dict.
  destruct (decide (tag = "a"%string)) as [->|Ea].
  { rewrite bool_decide_eq_true_2 by done.
    rewrite (bool_decide_eq_false_2 ("a"%string = "button"%string)) by done.
    rewrite (bool_decide_eq_false_2 ("a"%string = "form"%string)) by done.
    cbn [andb option_list]. rewrite !app_nil_r.
    by destruct (Simple.truth (last_value attrs "href")
                 || Simple.truth (last_value attrs "onclick"));
      cbn [option_list]; rewrite ?app_nil_r. }
  rewrite (bool_decide_eq_false_2 (tag = "a"%string)) by done.
  destruct (decide (tag = "button"%string)) as [->|Eb].
  { rewrite bool_decide_eq_true_2 by done.
    rewrite (bool_decide_eq_false_2 ("button"%string = "form"%string)) by done.
    cbn [andb option_list]. rewrite !app_nil_r.
    by destruct (Simple.truth (last_value attrs "onclick"));
      cbn [option_list]; rewrite ?app_nil_r. }
  rewrite (bool_decide_eq_false_2 (tag = "button"%string)) by done.
  destruct (decide (tag = "form"%string)) as [->|Ef].
  { rewrite bool_decide_eq_true_2 by done.
    cbn [andb option_list]. by rewrite !app_nil_r. }
  rewrite (bool_decide_eq_false_2 (tag = "form"%string)) by done.
  cbn [andb option_list]. by rewrite !app_nil_r.
Qed.

Lemma omap_snoc {A B : Type} (f : A → option B) (l : list A) (x : A) :
  omap f (l ++ [x]) = omap f l ++ option_list (f x).
Proof.
  induction l as [|y l IH]; cbn [app omap list_omap].
  - destruct (f x); by cbn.
  - rewrite IH. by destruct (f y).
Qed.

Lemma feed_tags (self : Simple.LinkParser)
    (tags : list (string * Simple.attributes)) :
  let self' :=
    foldl (fun parser t => Simple.handle_starttag parser t.1 t.2) self tags in
  Simple.links self' = Simple.links self ++ omap link_of tags
  ∧ Simple.buttons self' = Simple.buttons self ++ omap button_of tags
  ∧ Simple.forms self' = Simple.forms self ++ omap form_of tags.
Proof.
  induction tags as [|t tags IH] using rev_ind.
  - cbn. by rewrite !app_nil_r.
  - cbv zeta in *. rewrite foldl_app. cbn [foldl].
    destruct IH as (IH1 & IH2 & IH3).
    destruct (handle_starttag_adds
                (foldl (fun parser t => Simple.handle_starttag parser t.1 t.2)
                   self tags) t) as (H1 & H2 & H3).
    rewrite H1, H2, H3, IH1, IH2, IH3, !omap_snoc, <- !app_assoc. done.
Qed.

Lemma omap_length_le {A B : Type} (f : A → option B) (l : list A) :
  (length (omap f l) <= length l)%nat.
Proof.
  induction l as [|x l IH]; [done|]. cbn [omap list_omap length].
  destruct (f x); cbn [length]; lia.
Qed.

Lemma forms_are_counted (tags : list (string * Simple.attributes)) :
  length (omap form_of tags)
  = length (filter (fun t => t.1 = "form"%string) tags).
Proof.
  induction tags as [|t tags IH]; [done|].
  cbn [omap list_omap]. unfold form_of at 1.
  destruct (decide (t.1 = "form"%string)) as [E|E].
  - rewrite bool_decide_eq_true_2, filter_cons_True by done.
    cbn [length]. by rewrite IH.
  - by rewrite bool_decide_eq_false_2, filter_cons_False by done.
Qed.

Lemma one_element_per_tag (tags : list (string * Simple.attributes)) :
  (length (omap link_of tags) + length (omap button_of tags)
   + length (omap form_of tags) <= length tags)%nat.
Proof.
  assert (∀ t, (length (option_list (link_of t))
                + length (option_list (button_of t))
                + length (option_list (form_of t)) <= 1)%nat) as Hone.
  { intros [tag attrs]. unfold link_of, button_of, form_of. cbn [fst snd].
    destruct (decide (tag = "a"%string)) as [->|Ea].
    - rewrite (bool_decide_eq_false_2 ("a"%string = "button"%string)) by done.
      rewrite (bool_decide_eq_false_2 ("a"%string = "form"%string)) by done.
      cbn [andb option_list length].
      destruct (_ && _); cbn; lia.
    - rewrite (bool_decide_eq_false_2 (tag = "a"%string)) by done.
      cbn [andb option_list length].
      destruct (decide (tag = "button"%string)) as [->|Eb].
      + rewrite (bool_decide_eq_false_2 ("button"%string = "form"%string))
          by done.
        cbn [option_list length].
        destruct (_ && _); cbn; lia.
      + rewrite (bool_decide_eq_false_2 (tag = "button"%string)) by done.
        cbn [andb option_list length].
        destruct (bool_decide _); cbn; lia. }
  induction tags as [|t tags IH]; [done|].
  pose proof (Hone t) as Ht. cbn [omap list_omap length].
  destruct (link_of t), (button_of t), (form_of t);
    cbn in *; lia.
Qed.

(** X13.  The structure analysis, over the start tags the parser
    reports.  The anchors recorded are those whose href or onclick has a
    non-empty value, the buttons those with a non-empty onclick, and every
    form is recorded, with method GET when it names none; of an attribute
    given more than once the last occurrence alone counts.  The
    interactive elements are grouped by kind - anchors, then buttons, then
    forms - each kind in document order; the three counts are the lengths
    of the three groups and add up to the number of interactive elements,
    which never exceeds the number of start tags.  Nothing else of the
    results changes. *)
Theorem structure_counts (start_tags : string -> list (string * Simple.attributes))
    (self : Simple.results) (html : string) :
  let tags := start_tags html in
  let self' := (Simple.analyze_html_structure start_tags self html).1 in
  let parser := (Simple.analyze_html_structure start_tags self html).2 in
  Simple.links parser = omap link_of tags
  ∧ Simple.buttons parser = omap button_of tags
  ∧ Simple.forms parser = omap form_of tags
  ∧ Simple.interactive_elements self'
    = omap link_of tags ++ omap button_of tags ++ omap form_of tags
  ∧ Simple.links_found self' = Z.of_nat (length (omap link_of tags))
  ∧ Simple.buttons_found self' = Z.of_nat (length (omap button_of tags))
  ∧ Simple.forms_found self'
    = Z.of_nat (length (filter (fun t => t.1 = "form"%string) tags))
  ∧ (Simple.links_found self' + Simple.buttons_found self'
     + Simple.forms_found self')%Z
    = Z.of_nat (length (Simple.interactive_elements self'))
  ∧ (length (Simple.interactive_elements self') <= length tags)%nat
  ∧ Simple.potential_issues self' = Simple.potential_issues self
  ∧ Simple.recommendations self' = Simple.recommendations self
  ∧ Simple.connectivity self' = Simple.connectivity self.
Proof.
  cbv zeta. unfold Simple.analyze_html_structure, Simple.feed. cbn [fst snd].
  destruct (feed_tags Simple.new_parser (start_tags html)) as (H1 & H2 & H3).
  cbv zeta in H1, H2, H3. cbn [Simple.new_parser Simple.links Simple.buttons
    Simple.forms app] in H1, H2, H3.
  rewrite H1, H2, H3.
  cbn [Simple.interactive_elements Simple.links_found Simple.buttons_found
       Simple.forms_found Simple.potential_issues Simple.recommendations
       Simple.connectivity].
  pose proof (forms_are_counted (start_tags html)) as Hforms.
  pose proof (one_element_per_tag (start_tags html)) as Hle.
  rewrite !length_app.
  repeat split; try done; try lia.
Qed.

(** The sample tags: the anchor whose last href is empty and the button
    without a handler are not recorded, the bare form is. *)
Example structure_counts_sample :
  let self' :=
    (Simple.analyze_html_structure (fun _ => sample_tags) Simple.init
       EmptyString).1 in
  Simple.interactive_elements self'
  = [ Simple.Link None (Some "go()"%string);
      Simple.Button (Some "checkout()"%string);
      Simple.Form None (Some "GET"%string) ]
  ∧ Simple.links_found self' = 1%Z
  ∧ Simple.buttons_found self' = 1%Z
  ∧ Simple.forms_found self' = 1%Z.
Proof. by vm_compute. Qed.

Lemma filter_sublist {A : Type} (f : A → bool) (l : list A) :
  List.filter f l `sublist_of` l.
Proof.
  induction l as [|x l IH]; [done|]. cbn [List.filter].
  destruct (f x); by constructor.
Qed.

Lemma missing_spec (handlers : list string) (e : string) :
  e ∈ simple_missing_of handlers
  ↔ e ∈ expected_functions ∧ ¬ ∃ h, h ∈ handlers ∧ call_form h e.
Proof.
  unfold simple_missing_of.
  rewrite list_elem_of_In, List.filter_In, <- list_elem_of_In.
  rewrite negb_true_iff, bool_decide_eq_false, elem_of_function_names_of.
  done.
Qed.

(** X14.  The analysis of the simple tester returns, and stores under
    [javascript_functions], exactly the names that stand at the head of
    an onclick handler as a call.  The functions it reports missing are
    the expected names that no handler calls, in the order of the list of
    expected names; one issue naming them is appended when there is at
    least one, and the issues stay as they were exactly when every
    expected name is called by some handler. *)
Theorem expected_functions_report (self : Simple.results) (html : string) :
  let handlers := findall1 onclick_pattern html in
  let self' := (Simple.analyze_javascript_functions self html).1 in
  let calls := (Simple.analyze_javascript_functions self html).2 in
  let missing := simple_missing_of handlers in
  Simple.javascript_functions self' = Some calls
  ∧ (∀ f, f ∈ calls ↔ ∃ h, h ∈ handlers ∧ call_form h f)
  ∧ (∀ e, e ∈ missing
          ↔ e ∈ expected_functions ∧ ¬ ∃ h, h ∈ handlers ∧ call_form h e)
  ∧ missing `sublist_of` expected_functions
  ∧ Simple.potential_issues self'
    = Simple.potential_issues self
      ++ match missing with
         | [] => []
         | _ :: _ => [Simple.MissingExpected missing]
         end
  ∧ (Simple.potential_issues self' = Simple.potential_issues self
     ↔ ∀ e, e ∈ expected_functions → ∃ h, h ∈ handlers ∧ call_form h e)
  ∧ Simple.interactive_elements self' = Simple.interactive_elements self
  ∧ Simple.recommendations self' = Simple.recommendations self.
Proof.
  cbv zeta. unfold Simple.analyze_javascript_functions. cbn [fst snd].
  set (handlers := findall1 onclick_pattern html).
  assert (Simple.potential_issues
            match simple_missing_of handlers with
            | [] => self
            | _ :: _ =>
                Simple.add_issue self
                  (Simple.MissingExpected (simple_missing_of handlers))
            end
          = Simple.potential_issues self
            ++ match simple_missing_of handlers with
               | [] => []
               | _ :: _ =>
                   [Simple.MissingExpected (simple_missing_of handlers)]
               end) as Hissues.
  { destruct (simple_missing_of handlers); [by rewrite app_nil_r|done]. }
  cbn [Simple.javascript_functions Simple.potential_issues
       Simple.interactive_elements Simple.recommendations].
  split; [done|]. split; [apply elem_of_function_names_of|].
  split; [apply missing_spec|]. split; [apply filter_sublist|].
  split; [exact Hissues|]. split; [|by destruct (simple_missing_of handlers)].
  rewrite Hissues. split.
  - intros Heq e He.
    destruct (simple_missing_of handlers) as [|m ms] eqn:Em.
    + destruct (decide (e ∈ function_names_of handlers)) as [Hin|Hout].
      * by apply elem_of_function_names_of.
      * exfalso. assert (e ∈ simple_missing_of handlers) as Hm.
        { apply missing_spec. split; [done|].
          by rewrite <- elem_of_function_names_of. }
        rewrite Em in Hm. by apply elem_of_nil in Hm.
    + exfalso. apply (f_equal length) in Heq.
      rewrite length_app in Heq. cbn [length] in Heq. lia.
  - intros Hall. destruct (simple_missing_of handlers) as [|m ms] eqn:Em;
      [by rewrite app_nil_r|]. exfalso.
    assert (m ∈ simple_missing_of handlers) as Hm by (rewrite Em; left).
    apply missing_spec in Hm as [He Hno]. by apply Hno, Hall.
Qed.

(** On the page whose one handler calls [open], [checkout] is missing. *)
Lemma expected_functions_report_witness :
  "checkout"%string
  ∈ simple_missing_of (findall1 onclick_pattern elements_page)
  ∧ "checkout"%string ∈ expected_functions
  ∧ ¬ ∃ h, h ∈ findall1 onclick_pattern elements_page
           ∧ call_form h "checkout".
Proof.
  assert ("checkout"%string
          ∈ simple_missing_of (findall1 onclick_pattern elements_page)) as H
    by (vm_compute; do 8 right; left).
  split; [exact H|].
  destruct (expected_functions_report Simple.init elements_page)
    as (_ & _ & Hmissing & _).
  exact (proj1 (Hmissing "checkout"%string) H).
Defined.

(** ** The checks on the text of the page *)

Lemma contains_chars_spec (needle text : list ascii) :
  contains_chars needle text = true ↔ ∃ pre post, text = pre ++ needle ++ post.
Proof.
  induction text as [|c text IH]; cbn [contains_chars].
  - destruct (strip false needle []) as [s'|] eqn:E.
    + apply strip_Some in E. split; [|done]. intros _. by exists [], s'.
    + split; [done|]. intros (pre & post & H). exfalso.
      destruct pre; [|done]. destruct needle; [done|done].
  - destruct (strip false needle (c :: text)) as [s'|] eqn:E.
    + apply strip_Some in E. split; [|done]. intros _. by exists [], s'.
    + rewrite IH. split.
      * intros (pre & post & ->). by exists (c :: pre), post.
      * intros (pre & post & H). destruct pre as [|x pre].
        { exfalso. cbn [app] in H. rewrite H, strip_app in E. done. }
        injection H as -> ->. by exists pre, post.
Qed.

Lemma value_in_text (u text : string) (p : string) :
  href_value_in u text → startswith p u = true →
  ∃ pre post, chars text = pre ++ chars p ++ post.
Proof.
  intros (before & after & q & q' & Ht & _) Hp.
  unfold startswith in Hp.
  destruct (strip false (chars p) (chars u)) as [tail|] eqn:E; [|done].
  apply strip_Some in E. rewrite E in Ht. unfold attr_chars in Ht.
  exists (before ++ chars "href=" ++ [q]), (tail ++ [q'] ++ after).
  rewrite Ht. cbn [app chars list_ascii_of_string].
  by rewrite <- !app_assoc.
Qed.

(** X15.  The check of the page text appends the localhost issue when the
    text contains [localhost], then the mixed content issue when the text
    contains [http://] and the base URL begins with [https://], and
    changes nothing else; containing is having the word somewhere as a
    substring.  So on an https site every page on which the link
    extraction finds an [http://] link gets the mixed content issue, and
    no page of a site that is not https ever does. *)
Theorem external_resources_issues (base_url : string) (self : Simple.results)
    (html : string) :
  let self' := Simple.check_external_resources base_url self html in
  Simple.potential_issues self'
  = Simple.potential_issues self
    ++ (if contains "localhost" html then [Simple.LocalhostReferences] else [])
    ++ (if contains "http://" html && startswith "https://" base_url
        then [Simple.MixedContent] else [])
  ∧ (∀ word, contains word html = true
             ↔ ∃ pre post, chars html = pre ++ chars word ++ post)
  ∧ (startswith "https://" base_url = true →
     (∃ u, u ∈ external_links (extract_links_from_html html)
           ∧ startswith "http://" u = true) →
     last (Simple.potential_issues self') = Some Simple.MixedContent)
  ∧ (startswith "https://" base_url = false →
     Simple.MixedContent ∈ Simple.potential_issues self' →
     Simple.MixedContent ∈ Simple.potential_issues self)
  ∧ Simple.interactive_elements self' = Simple.interactive_elements self
  ∧ Simple.recommendations self' = Simple.recommendations self
  ∧ Simple.javascript_functions self' = Simple.javascript_functions self.
Proof.
  cbv zeta. unfold Simple.check_external_resources.
  split; [|split; [|split; [|split]]].
  - destruct (contains "localhost" html),
      (contains "http://" html && startswith "https://" base_url);
      cbn [Simple.add_issue Simple.potential_issues app];
      by rewrite <- ?app_assoc, ?app_nil_r.
  - intros word. apply contains_chars_spec.
  - intros Hb (u & Hu & Hs).
    apply external_values in Hu as (_ & _ & Hin).
    assert (contains "http://" html = true) as ->.
    { apply contains_chars_spec. exact (value_in_text u html _ Hin Hs). }
    rewrite Hb. cbn [andb Simple.add_issue Simple.potential_issues].
    by rewrite last_snoc.
  - intros Hb. rewrite Hb, andb_false_r.
    destruct (contains "localhost" html); [|done].
    cbn [Simple.add_issue Simple.potential_issues].
    rewrite elem_of_app, list_elem_of_singleton. by intros [?|?].
  - by destruct (contains "localhost" html),
      (contains "http://" html && startswith "https://" base_url).
Qed.

Lemma external_resources_witness :
  startswith "https://" "https://mybird.app" = true
  ∧ (∃ u, u ∈ external_links (extract_links_from_html mixed_page)
          ∧ startswith "http://" u = true)
  ∧ last (Simple.potential_issues
            (Simple.check_external_resources "https://mybird.app"
               Simple.init mixed_page))
    = Some Simple.MixedContent.
Proof.
  assert (startswith "https://" "https://mybird.app" = true) as Hb
    by reflexivity.
  assert (∃ u, u ∈ external_links (extract_links_from_html mixed_page)
               ∧ startswith "http://" u = true) as Hu.
  { exists "http://old.example/x"%string. split; [vm_compute; left|reflexivity]. }
  split; [exact Hb|]. split; [exact Hu|].
  exact (proj1 (proj2 (proj2
           (external_resources_issues "https://mybird.app" Simple.init
              mixed_page))) Hb Hu).
Defined.

(** ** The connectivity test *)

(** X16.  The connectivity test never raises.  When the page is read, the
    content is returned, the tag is [success], the status code and the
    size of the content are stored and no issue is added.  When the
    request or the reading fails, nothing is returned, the tag follows the
    class of the failure as in the probe of the link checker, exactly one
    issue is appended, the status code is replaced only by that of an
    [HTTPError], and the response time and the content size are left as
    they were. *)
Theorem connectivity_is_recorded (World : Type)
    (clock : World -> spec_float * World)
    (fetch_page : World -> string -> Z -> outcome (Z * string) * World)
    (round2 : spec_float -> spec_float)
    (base_url : string) (self : Simple.results) (w : World) :
  ∃ self' content w',
    Simple.test_connectivity World clock fetch_page round2 base_url self w
    = (Return (self', content), w')
    ∧ Simple.interactive_elements self' = Simple.interactive_elements self
    ∧ Simple.recommendations self' = Simple.recommendations self
    ∧ match (fetch_page (clock w).2 base_url 10%Z).1 with
      | Return (code, page) =>
          content = Some page
          ∧ Simple.connectivity self' = Some "success"%string
          ∧ Simple.status_code self' = Some code
          ∧ Simple.content_size self' = Some (Z.of_nat (String.length page))
          ∧ Simple.response_time self' ≠ None
          ∧ Simple.potential_issues self' = Simple.potential_issues self
      | Raise e =>
          content = None
          ∧ Simple.connectivity self'
            = Some (tag_of (Raise e : outcome response))
          ∧ Simple.status_code self'
            = (if isinstance e HTTPError then Some (exn_code e)
               else Simple.status_code self)
          ∧ Simple.content_size self' = Simple.content_size self
          ∧ Simple.response_time self' = Simple.response_time self
          ∧ ∃ i, Simple.potential_issues self'
                 = Simple.potential_issues self ++ [i]
      end.
Proof.
  unfold Simple.test_connectivity.
  destruct (clock w) as [t0 w1]. cbn [snd].
  destruct (fetch_page w1 base_url 10%Z) as [[[code page]|e] w2]; cbn [fst].
  - destruct (clock w2) as [t1 w3]. eexists _, _, _.
    split; [reflexivity|]. by repeat split.
  - unfold tag_of.
    destruct (isinstance e HTTPError) eqn:E1.
    { eexists _, _, _. split; [reflexivity|]. repeat split. by eexists. }
    destruct (isinstance e URLError) eqn:E2.
    { eexists _, _, _. split; [reflexivity|]. repeat split. by eexists. }
    rewrite always_exception.
    eexists _, _, _. split; [reflexivity|]. repeat split. by eexists.
Qed.

(** ** The tester that drives a browser *)

Lemma is_a_any (e : Interactive.error) :
  Interactive.is_a e Interactive.AnyException = true.
Proof. destruct e as [[] ?]; by vm_compute. Qed.

Lemma kept_refl (a : Interactive.WebsiteTester) : kept a a.
Proof. by repeat split. Qed.

Lemma kept_trans (a b c : Interactive.WebsiteTester) :
  kept a b → kept b c → kept a c.
Proof.
  intros (H1 & H2 & H3 & H4 & H5 & H6 & H7 & H8)
         (K1 & K2 & K3 & K4 & K5 & K6 & K7 & K8).
  repeat split; try congruence; by etrans.
Qed.

Lemma advanced_refl (a : Interactive.WebsiteTester) : advanced 0 a a.
Proof. split; [apply kept_refl|]. lia. Qed.

Lemma advanced_trans (m n : Z) (a b c : Interactive.WebsiteTester) :
  advanced m a b → advanced n b c → advanced (m + n) a c.
Proof.
  intros (K1 & H1) (K2 & H2). split; [by eapply kept_trans|]. lia.
Qed.

Section BrowserFacts.
Context {World element : Type}.
Variable requests_get :
  World -> string -> Z -> Interactive.res Interactive.http_response * World.
Variable driver_get : World -> string -> Interactive.res unit * World.
Variable wait_for_body : World -> Interactive.res unit * World.
Variable find_element :
  World -> Interactive.By -> string -> Interactive.res element * World.
Variable find_elements :
  World -> Interactive.By -> string -> Interactive.res (list element) * World.
Variable is_displayed : World -> element -> Interactive.res bool * World.
Variable is_enabled : World -> element -> Interactive.res bool * World.
Variable click : World -> element -> Interactive.res unit * World.
Variable execute_script :
  World -> string -> element -> Interactive.res unit * World.
Variable clear : World -> element -> Interactive.res unit * World.
Variable send_keys : World -> element -> string -> Interactive.res unit * World.
Variable set_window_size : World -> Z -> Z -> Interactive.res unit * World.
Variable driver_quit : World -> Interactive.res unit * World.
Variable time : World -> spec_float * World.
Variable sleep : World -> Q -> World.

Lemma for_each_steps {X : Type} (step : Z → Interactive.WebsiteTester
                                        → Interactive.WebsiteTester → Prop)
    (items : list X) (body : X → Interactive.T World unit) :
  (∀ a, step 0%Z a a) →
  (∀ m n a b c, step m a b → step n b c → step (m + n)%Z a c) →
  (∀ x self w, (body x self w).1.1 = Interactive.Ok tt
               ∧ step 1%Z self (body x self w).1.2) →
  ∀ self w,
    (Interactive.for_each World items body self w).1.1 = Interactive.Ok tt
    ∧ step (Z.of_nat (length items)) self
        (Interactive.for_each World items body self w).1.2.
Proof.
  intros H0 Htr Hbody. induction items as [|x items IH]; intros self w.
  - split; [done|]. apply H0.
  - cbn [Interactive.for_each]. unfold Interactive.seq.
    destruct (Hbody x self w) as [Hr Hs].
    destruct (body x self w) as [[r self1] w1]. cbn [fst snd] in Hr, Hs.
    subst r. destruct (IH self1 w1) as [Hr2 Hs2]. split; [done|].
    replace (Z.of_nat (length (x :: items)))
      with (1 + Z.of_nat (length items))%Z by (cbn [length]; lia).
    by eapply Htr.
Qed.

Ltac is_op x :=
  match x with
  | ?f _ => is_var f
  | ?f _ _ => is_var f
  | ?f _ _ _ => is_var f
  end.

Ltac run_op :=
  match goal with
  | |- context [match ?x with _ => _ end] =>
      is_op x; destruct x as [[?|?] ?] eqn:?
  end.

Ltac crunch :=
  repeat first
    [ progress cbn [fst snd Interactive.has_driver Interactive.with_results
                    Interactive.tester_results Interactive.base_url]
    | rewrite is_a_any
    | run_op
    | match goal with
      | |- context [if ?b then _ else _] => is_var b; destruct b
      | |- context [match ?l with [] => _ | _ :: _ => _ end] =>
          is_var l; destruct l
      | |- context [if Interactive.is_a ?e ?c then _ else _] =>
          is_var e; destruct (Interactive.is_a e c)
      end ].

Ltac unfold_monad :=
  unfold Interactive.seq, Interactive.try_, Interactive.driver,
    Interactive.call, Interactive.pause, Interactive.now, Interactive.update,
    Interactive.pure.

Ltac settle :=
  unfold decided, unbroken, advanced, kept, elements_tested, elements_working,
    elements_broken;
  cbn [Interactive.has_driver Interactive.with_results
       Interactive.tester_results Interactive.base_url
       Interactive.count_tested Interactive.count_working
       Interactive.count_broken Interactive.add_error Interactive.add_detail
       Interactive.interactive_elements_tested
       Interactive.interactive_elements_working
       Interactive.interactive_elements_broken Interactive.links_tested
       Interactive.links_working Interactive.links_broken
       Interactive.success_rate Interactive.errors
       Interactive.detailed_results];
  repeat split;
  first [ done | lia | by apply prefix_app_r
        | by do 2 apply prefix_app_r ].

Ltac item step :=
  let x := fresh "x" in let w := fresh "w" in
  intros x [? ? [|]] w; try destruct x; unfold_monad; crunch;
  (split; [done|]); unfold step; settle.

Lemma decided_refl (a : Interactive.WebsiteTester) : decided 0 a a.
Proof. split; [apply advanced_refl|lia]. Qed.

Lemma decided_trans (m n : Z) (a b c : Interactive.WebsiteTester) :
  decided m a b → decided n b c → decided (m + n) a c.
Proof.
  intros [A1 H1] [A2 H2]. split; [by eapply advanced_trans|lia].
Qed.

Lemma unbroken_trans (m n : Z) (a b c : Interactive.WebsiteTester) :
  unbroken m a b → unbroken n b c → unbroken (m + n) a c.
Proof.
  intros [A1 H1] [A2 H2]. split; [by eapply advanced_trans|lia].
Qed.

Lemma nav_advances (self : Interactive.WebsiteTester) (w : World) :
  (Interactive.test_navigation_links World element find_element is_displayed
     click sleep self w).1.1 = Interactive.Ok tt
  ∧ advanced 4 self
      (Interactive.test_navigation_links World element find_element
         is_displayed click sleep self w).1.2.
Proof.
  unfold Interactive.test_navigation_links.
  apply (for_each_steps advanced Interactive.nav_items);
    [apply advanced_refl|apply advanced_trans|].
  item advanced.
Qed.

Lemma buttons_advance (self : Interactive.WebsiteTester) (w : World) :
  (Interactive.test_interactive_buttons World element find_elements
     is_displayed is_enabled execute_script sleep self w).1.1
  = Interactive.Ok tt
  ∧ advanced 10 self
      (Interactive.test_interactive_buttons World element find_elements
         is_displayed is_enabled execute_script sleep self w).1.2.
Proof.
  unfold Interactive.test_interactive_buttons.
  apply (for_each_steps advanced Interactive.button_functions);
    [apply advanced_refl|apply advanced_trans|].
  item advanced.
Qed.

Lemma responsive_decides (self : Interactive.WebsiteTester) (w : World) :
  (Interactive.test_responsive_design World element find_element is_displayed
     set_window_size sleep self w).1.1 = Interactive.Ok tt
  ∧ decided 3 self
      (Interactive.test_responsive_design World element find_element
         is_displayed set_window_size sleep self w).1.2.
Proof.
  unfold Interactive.test_responsive_design.
  apply (for_each_steps decided Interactive.screen_sizes);
    [apply decided_refl|apply decided_trans|].
  item decided.
Qed.

Lemma performance_keeps (self : Interactive.WebsiteTester) (w : World) :
  (Interactive.test_performance World driver_get wait_for_body time self w).1.1
  = Interactive.Ok tt
  ∧ decided 0 self
      (Interactive.test_performance World driver_get wait_for_body time
         self w).1.2.
Proof.
  unfold Interactive.test_performance. destruct self as [url r [|]].
  all: unfold_monad; cbn [Interactive.has_driver Interactive.base_url].
  all: destruct (time w) as [t0 w0]; crunch.
  all: try destruct (time _) as [t1 w1']; crunch.
  all: (split; [done|]); settle.
Qed.

Lemma admin_advances (self : Interactive.WebsiteTester) (w : World) :
  (Interactive.test_admin_functionality World element find_element
     is_displayed click sleep self w).1.1 = Interactive.Ok tt
  ∧ (decided 0 self
       (Interactive.test_admin_functionality World element find_element
          is_displayed click sleep self w).1.2
     ∨ advanced 4 self
         (Interactive.test_admin_functionality World element find_element
            is_displayed click sleep self w).1.2).
Proof.
  unfold Interactive.test_admin_functionality. destruct self as [url r [|]].
  all: unfold_monad; crunch.
  all: try (split; [done|]; left; settle).
  match goal with
  | |- context [Interactive.for_each World ?items ?body ?s ?w'] =>
      destruct (for_each_steps advanced items body advanced_refl
                  advanced_trans ltac:(item advanced) s w') as [Hr Hs];
      destruct (Interactive.for_each World items body s w') as [[r' s'] w'']
  end.
  cbn [fst snd] in Hr, Hs |- *. subst r'. split; [done|]. by right.
Qed.

Lemma for_each_upto {X : Type} (items : list X)
    (body : X → Interactive.T World unit) :
  (∀ x self w, ∃ t, (0 <= t <= 1)%Z
                    ∧ unbroken t self (body x self w).1.2) →
  ∀ self w,
    ∃ t, (0 <= t <= Z.of_nat (length items))%Z
         ∧ unbroken t self
             (Interactive.for_each World items body self w).1.2.
Proof.
  intros Hbody. induction items as [|x items IH]; intros self w.
  - exists 0%Z. split; [done|]. split; [apply advanced_refl|done].
  - cbn [Interactive.for_each]. unfold Interactive.seq.
    destruct (Hbody x self w) as (t1 & Ht1 & Hs).
    destruct (body x self w) as [[[[]|e] self1] w1]; cbn [fst snd] in Hs |- *.
    + destruct (IH self1 w1) as (t2 & Ht2 & Hs2).
      exists (t1 + t2)%Z. split; [cbn [length]; lia|].
      by eapply unbroken_trans.
    + exists t1. split; [cbn [length]; lia|done].
Qed.

Lemma forms_advance (self : Interactive.WebsiteTester) (w : World) :
  (Interactive.test_form_functionality World element find_elements
     is_displayed clear send_keys self w).1.1 = Interactive.Ok tt
  ∧ ∃ t, (0 <= t)%Z
         ∧ unbroken t self
             (Interactive.test_form_functionality World element find_elements
                is_displayed clear send_keys self w).1.2
         ∧ ∀ inputs w1,
             find_elements w Interactive.CSS_SELECTOR "input[type='text']"
             = (Interactive.Ok inputs, w1) →
             (t <= Z.of_nat (length inputs))%Z.
Proof.
  unfold Interactive.test_form_functionality. destruct self as [url r [|]].
  all: unfold_monad.
  all: cbn [fst snd Interactive.has_driver Interactive.with_results
            Interactive.tester_results Interactive.base_url].
  2: { rewrite is_a_any. cbn [fst snd]. split; [done|]. exists 0%Z.
       split; [done|]. split; [settle|]. intros. lia. }
  destruct (find_elements w Interactive.CSS_SELECTOR _)
    as [[search_inputs|e] w1].
  2: { rewrite is_a_any. cbn [fst snd]. split; [done|]. exists 0%Z.
       split; [done|]. split; [settle|]. intros. lia. }
  match goal with
  | |- context [Interactive.for_each World ?items ?body ?s ?w'] =>
      destruct (for_each_upto items body) with (self := s) (w := w')
        as (t & Ht & Hs);
      [|destruct (Interactive.for_each World items body s w')
          as [[[[]|e] s'] w'']]
  end.
  - intros x [url' r' d] w'. crunch.
    all: first [ exists 1%Z; (split; [lia|]); settle
               | exists 0%Z; (split; [lia|]); settle ].
  - cbn [fst snd] in Hs |- *. split; [done|]. exists t.
    split; [lia|]. split; [done|]. intros inputs w2 [= <- _]. lia.
  - rewrite is_a_any. cbn [fst snd] in Hs |- *.
    split; [done|]. exists t. split; [lia|]. split.
    + replace t with (t + 0)%Z by lia.
      eapply (unbroken_trans t 0 _ _ _ Hs). destruct s'. settle.
    + intros inputs w2 [= <- _]. lia.
Qed.

(** The six tests and the report, run one after the other, then [k]. *)
Lemma tests_then_report {B : Type} (k : unit → Interactive.T World B)
    (self : Interactive.WebsiteTester) (w : World) :
  let c :=
    Interactive.seq World
      (Interactive.test_navigation_links World element find_element
         is_displayed click sleep) (fun _ =>
    Interactive.seq World
      (Interactive.test_interactive_buttons World element find_elements
         is_displayed is_enabled execute_script sleep) (fun _ =>
    Interactive.seq World
      (Interactive.test_admin_functionality World element find_element
         is_displayed click sleep) (fun _ =>
    Interactive.seq World
      (Interactive.test_form_functionality World element find_elements
         is_displayed clear send_keys) (fun _ =>
    Interactive.seq World
      (Interactive.test_responsive_design World element find_element
         is_displayed set_window_size sleep) (fun _ =>
    Interactive.seq World
      (Interactive.test_performance World driver_get wait_for_body time)
      (fun _ =>
    Interactive.seq World (Interactive.generate_report World) k)))))) in
  ∃ mid t rate w',
    c self w
    = k tt (Interactive.with_results mid
              (Interactive.set_success_rate rate
                 (Interactive.tester_results mid))) w'
    ∧ advanced t self mid ∧ (17 <= t)%Z
    ∧ rate_expr (elements_working mid) (elements_tested mid) = Return rate.
Proof.
  cbv zeta.
  unfold Interactive.seq at 1.
  destruct (nav_advances self w) as [R1 A1].
  destruct (Interactive.test_navigation_links _ _ _ _ _ _ self w)
    as [[r1 s1] w1]. cbn [fst snd] in R1, A1. subst r1.
  unfold Interactive.seq at 1.
  destruct (buttons_advance s1 w1) as [R2 A2].
  destruct (Interactive.test_interactive_buttons _ _ _ _ _ _ _ s1 w1)
    as [[r2 s2] w2]. cbn [fst snd] in R2, A2. subst r2.
  unfold Interactive.seq at 1.
  destruct (admin_advances s2 w2) as [R3 A3].
  destruct (Interactive.test_admin_functionality _ _ _ _ _ _ s2 w2)
    as [[r3 s3] w3]. cbn [fst snd] in R3, A3. subst r3.
  unfold Interactive.seq at 1.
  destruct (forms_advance s3 w3) as [R4 (t4 & Ht4 & [A4 _] & _)].
  destruct (Interactive.test_form_functionality _ _ _ _ _ _ s3 w3)
    as [[r4 s4] w4]. cbn [fst snd] in R4, A4. subst r4.
  unfold Interactive.seq at 1.
  destruct (responsive_decides s4 w4) as [R5 [A5 _]].
  destruct (Interactive.test_responsive_design _ _ _ _ _ _ s4 w4)
    as [[r5 s5] w5]. cbn [fst snd] in R5, A5. subst r5.
  unfold Interactive.seq at 1.
  destruct (performance_keeps s5 w5) as [R6 [A6 _]].
  destruct (Interactive.test_performance _ _ _ _ s5 w5)
    as [[r6 s6] w6]. cbn [fst snd] in R6, A6. subst r6.
  assert (∃ t, advanced t self s6 ∧ (17 <= t)%Z) as (t & At & Ht).
  { pose proof (advanced_trans _ _ _ _ _ A1 A2) as B2.
    destruct A3 as [[A3 _]|A3].
    - pose proof (advanced_trans _ _ _ _ _ B2 A3) as B3.
      pose proof (advanced_trans _ _ _ _ _ B3 A4) as B4.
      pose proof (advanced_trans _ _ _ _ _ B4 A5) as B5.
      pose proof (advanced_trans _ _ _ _ _ B5 A6) as B6.
      eexists. split; [exact B6|]. lia.
    - pose proof (advanced_trans _ _ _ _ _ B2 A3) as B3.
      pose proof (advanced_trans _ _ _ _ _ B3 A4) as B4.
      pose proof (advanced_trans _ _ _ _ _ B4 A5) as B5.
      pose proof (advanced_trans _ _ _ _ _ B5 A6) as B6.
      eexists. split; [exact B6|]. lia. }
  unfold Interactive.seq at 1.
  unfold Interactive.generate_report, generate_report_success_rate.
  fold (elements_tested s6). fold (elements_working s6).
  pose proof (rate_expr_returns (elements_working s6) (elements_tested s6))
    as Hrate.
  unfold rate_expr in Hrate. rewrite Hrate. unfold Interactive.update.
  eexists s6, t, _, w6. split; [reflexivity|].
  split; [exact At|]. split; [exact Ht|]. exact Hrate.
Qed.

Lemma connectivity_passes (self : Interactive.WebsiteTester) (w w1 : World)
    (response : Interactive.http_response) :
  requests_get w (Interactive.base_url self) 10 = (Interactive.Ok response, w1) →
  Interactive.response_status_code response = 200%Z →
  Interactive.test_basic_connectivity World requests_get self w
  = (Interactive.Ok true,
     Interactive.with_results self
       (Interactive.add_detail
          (Interactive.Connectivity (Interactive.base_url self) 200
             (Interactive.elapsed_total_seconds response))
          (Interactive.tester_results self)), w1).
Proof.
  intros Hget H200. unfold Interactive.test_basic_connectivity. unfold_monad.
  by rewrite Hget, H200.
Qed.

Lemma connectivity_fails (self : Interactive.WebsiteTester) (w w1 : World)
    (response : Interactive.http_response) :
  requests_get w (Interactive.base_url self) 10 = (Interactive.Ok response, w1) →
  Interactive.response_status_code response ≠ 200%Z →
  Interactive.test_basic_connectivity World requests_get self w
  = (Interactive.Ok false,
     Interactive.with_results self
       (Interactive.add_error
          (Interactive.StatusCode
             (Interactive.response_status_code response))
          (Interactive.tester_results self)), w1).
Proof.
  intros Hget H200. unfold Interactive.test_basic_connectivity. unfold_monad.
  rewrite Hget. by apply Z.eqb_neq in H200 as ->.
Qed.

Lemma connectivity_raises (self : Interactive.WebsiteTester) (w w1 : World)
    (e : Interactive.error) :
  requests_get w (Interactive.base_url self) 10 = (Interactive.Err e, w1) →
  Interactive.test_basic_connectivity World requests_get self w
  = if Interactive.is_a e Interactive.RequestException
    then (Interactive.Ok false,
          Interactive.with_results self
            (Interactive.add_error
               (Interactive.ConnectFailed (Interactive.text e))
               (Interactive.tester_results self)), w1)
    else (Interactive.Err e, self, w1).
Proof.
  intros Hget. unfold Interactive.test_basic_connectivity. unfold_monad.
  rewrite Hget. by destruct (Interactive.is_a e _).
Qed.

Lemma website_loads (self : Interactive.WebsiteTester) (w w1 w2 : World) :
  Interactive.has_driver self = true →
  driver_get w (Interactive.base_url self) = (Interactive.Ok tt, w1) →
  wait_for_body w1 = (Interactive.Ok tt, w2) →
  Interactive.load_website World driver_get wait_for_body self w
  = (Interactive.Ok true, self, w2).
Proof.
  intros Hd Hload Hwait. unfold Interactive.load_website. unfold_monad.
  rewrite Hd, Hload. cbv iota beta. by rewrite Hd, Hwait.
Qed.

Lemma website_fails (self : Interactive.WebsiteTester) (w w' : World)
    (e : Interactive.error) :
  Interactive.has_driver self = true →
  load_raises driver_get wait_for_body self w w' e →
  Interactive.load_website World driver_get wait_for_body self w
  = if Interactive.is_a e Interactive.TimeoutException
    then (Interactive.Ok false,
          Interactive.with_results self
            (Interactive.add_error Interactive.LoadTimeout
               (Interactive.tester_results self)), w')
    else (Interactive.Err e, self, w').
Proof.
  intros Hd Hload. unfold Interactive.load_website. unfold_monad.
  rewrite Hd. destruct Hload as [Hload|(w1 & Hload & Hwait)].
  - rewrite Hload. by destruct (Interactive.is_a e _).
  - rewrite Hload, Hd, Hwait. by destruct (Interactive.is_a e _).
Qed.

Lemma no_browser (self : Interactive.WebsiteTester) (w : World) :
  Interactive.has_driver self = false →
  Interactive.load_website World driver_get wait_for_body self w
  = (Interactive.Err Interactive.no_driver, self, w).
Proof.
  intros Hd. unfold Interactive.load_website. unfold_monad. by rewrite Hd.
Qed.

End BrowserFacts.

(** X17.  Whatever the browser does, each test of the interactive tester
    returns, and it leaves the base URL, the three counters of links and
    the success rate alone while the two logs only grow.  The navigation
    test counts exactly 4 elements as tested and the button test exactly
    10; the admin test counts 4, or none when the admin button cannot be
    clicked; the form test counts at most as many as text inputs were
    found and never a broken one; the responsive test counts exactly 3
    and each of them as working or as broken; the performance test
    counts nothing.  In every test the elements counted as working or as
    broken are at most the elements counted as tested. *)
Theorem tests_keep_the_counters_sound (World element : Type)
    (driver_get : World -> string -> Interactive.res unit * World)
    (wait_for_body : World -> Interactive.res unit * World)
    (find_element :
       World -> Interactive.By -> string -> Interactive.res element * World)
    (find_elements :
       World -> Interactive.By -> string
       -> Interactive.res (list element) * World)
    (is_displayed is_enabled : World -> element -> Interactive.res bool * World)
    (click : World -> element -> Interactive.res unit * World)
    (execute_script :
       World -> string -> element -> Interactive.res unit * World)
    (clear : World -> element -> Interactive.res unit * World)
    (send_keys : World -> element -> string -> Interactive.res unit * World)
    (set_window_size : World -> Z -> Z -> Interactive.res unit * World)
    (time : World -> spec_float * World) (sleep : World -> Q -> World)
    (self : Interactive.WebsiteTester) (w : World) :
  let navigation :=
    Interactive.test_navigation_links World element find_element is_displayed
      click sleep self w in
  let buttons :=
    Interactive.test_interactive_buttons World element find_elements
      is_displayed is_enabled execute_script sleep self w in
  let admin :=
    Interactive.test_admin_functionality World element find_element
      is_displayed click sleep self w in
  let forms :=
    Interactive.test_form_functionality World element find_elements
      is_displayed clear send_keys self w in
  let responsive :=
    Interactive.test_responsive_design World element find_element
      is_displayed set_window_size sleep self w in
  let performance :=
    Interactive.test_performance World driver_get wait_for_body time self w in
  (navigation.1.1 = Interactive.Ok tt ∧ advanced 4 self navigation.1.2)
  ∧ (buttons.1.1 = Interactive.Ok tt ∧ advanced 10 self buttons.1.2)
  ∧ (admin.1.1 = Interactive.Ok tt
     ∧ (decided 0 self admin.1.2 ∨ advanced 4 self admin.1.2))
  ∧ (forms.1.1 = Interactive.Ok tt
     ∧ ∃ t, (0 <= t)%Z ∧ unbroken t self forms.1.2
            ∧ ∀ inputs w1,
                find_elements w Interactive.CSS_SELECTOR
                  "input[type='text']"%string
                = (Interactive.Ok inputs, w1) →
                (t <= Z.of_nat (length inputs))%Z)
  ∧ (responsive.1.1 = Interactive.Ok tt ∧ decided 3 self responsive.1.2)
  ∧ (performance.1.1 = Interactive.Ok tt ∧ decided 0 self performance.1.2).
Proof.
  cbv zeta.
  split; [apply nav_advances|]. split; [apply buttons_advance|].
  split; [apply admin_advances|]. split; [apply forms_advance|].
  split; [apply responsive_decides|apply performance_keeps].
Qed.

(** In the steady browser, which shows two text inputs, the form test
    counts at most two elements. *)
Lemma tests_keep_the_counters_sound_witness :
  ∃ t, (0 <= t <= 2)%Z
       ∧ unbroken t (Interactive.init "https://mybird.app" true)
           (Interactive.test_form_functionality unit unit
              (fun w _ _ => (Interactive.Ok [tt; tt], w))
              (fun w _ => (Interactive.Ok true, w))
              (fun w _ => (Interactive.Ok tt, w))
              (fun w _ _ => (Interactive.Ok tt, w))
              (Interactive.init "https://mybird.app" true) tt).1.2.
Proof.
  destruct (tests_keep_the_counters_sound unit unit
              (fun w _ => (Interactive.Ok tt, w)) done_
              (fun w _ _ => (Interactive.Ok tt, w))
              (fun w _ _ => (Interactive.Ok [tt; tt], w))
              (fun w _ => (Interactive.Ok true, w))
              (fun w _ => (Interactive.Ok true, w))
              (fun w _ => (Interactive.Ok tt, w))
              (fun w _ _ => (Interactive.Ok tt, w))
              (fun w _ => (Interactive.Ok tt, w))
              (fun w _ _ => (Interactive.Ok tt, w))
              (fun w _ _ => (Interactive.Ok tt, w))
              (fun w => (S754_zero false, w)) (fun w _ => w)
              (Interactive.init "https://mybird.app" true) tt)
    as (_ & _ & _ & (_ & t & Ht & Hu & Hle) & _).
  exists t. split; [|exact Hu].
  specialize (Hle [tt; tt] tt eq_refl). cbn [length] in Hle. lia.
Defined.

(** X18.  When the site answers 200 and the page loads in a started
    browser, a run always generates its report.  At least 17 elements
    have been tested by then, so the success rate is always the float
    quotient of the two counters and never the integer 0 of the other
    branch.  The elements counted as working and as broken are together
    at most the elements tested, so the broken count the report prints,
    tested minus working, is at least the counter of broken elements.
    The three counters of links are still 0: no test updates them.  The
    run returns normally when closing the browser succeeds. *)
Theorem run_generates_the_report (World element : Type)
    (requests_get :
       World -> string -> Z
       -> Interactive.res Interactive.http_response * World)
    (driver_get : World -> string -> Interactive.res unit * World)
    (wait_for_body : World -> Interactive.res unit * World)
    (find_element :
       World -> Interactive.By -> string -> Interactive.res element * World)
    (find_elements :
       World -> Interactive.By -> string
       -> Interactive.res (list element) * World)
    (is_displayed is_enabled : World -> element -> Interactive.res bool * World)
    (click : World -> element -> Interactive.res unit * World)
    (execute_script :
       World -> string -> element -> Interactive.res unit * World)
    (clear : World -> element -> Interactive.res unit * World)
    (send_keys : World -> element -> string -> Interactive.res unit * World)
    (set_window_size : World -> Z -> Z -> Interactive.res unit * World)
    (driver_quit : World -> Interactive.res unit * World)
    (time : World -> spec_float * World) (sleep : World -> Q -> World)
    (url : string) (w w1 w2 w3 : World)
    (response : Interactive.http_response) :
  requests_get w url 10%Z = (Interactive.Ok response, w1) →
  Interactive.response_status_code response = 200%Z →
  driver_get w1 url = (Interactive.Ok tt, w2) →
  wait_for_body w2 = (Interactive.Ok tt, w3) →
  let out :=
    Interactive.run_all_tests World element requests_get driver_get
      wait_for_body find_element find_elements is_displayed is_enabled click
      execute_script clear send_keys set_window_size driver_quit time sleep
      (Interactive.init url true) w in
  let self' := out.1.2 in
  ∃ f : spec_float,
    Interactive.success_rate (Interactive.tester_results self')
    = Some (PFloat f)
    ∧ rate_expr (elements_working self') (elements_tested self')
      = Return (PFloat f)
    ∧ (17 <= elements_tested self')%Z
    ∧ (0 <= elements_working self')%Z ∧ (0 <= elements_broken self')%Z
    ∧ (elements_working self' + elements_broken self'
       <= elements_tested self')%Z
    ∧ (elements_broken self'
       <= elements_tested self' - elements_working self')%Z
    ∧ Interactive.links_tested (Interactive.tester_results self') = 0%Z
    ∧ Interactive.links_working (Interactive.tester_results self') = 0%Z
    ∧ Interactive.links_broken (Interactive.tester_results self') = 0%Z
    ∧ ((∀ w0, (driver_quit w0).1 = Interactive.Ok tt) →
       out.1.1 = Interactive.Ok tt).
Proof.
  intros Hget H200 Hload Hwait. cbv zeta.
  match goal with
  | |- context [(?c0 (Interactive.init url true) w).1.2] =>
      remember (c0 (Interactive.init url true) w) as out eqn:E
  end.
  unfold Interactive.run_all_tests in E.
  unfold Interactive.seq at 1 in E.
  rewrite (connectivity_passes requests_get (Interactive.init url true)
             w w1 response Hget H200) in E.
  cbn [negb] in E. unfold Interactive.seq at 1 in E.
  match type of E with
  | context [Interactive.load_website _ _ _ ?s _] =>
      rewrite (website_loads driver_get wait_for_body s w1 w2 w3 eq_refl
                 Hload Hwait) in E
  end.
  cbn [negb] in E.
  match type of E with
  | _ = Interactive.seq World _ _ ?s _ => set (self1 := s) in *
  end.
  match type of E with
  | context [Interactive.seq World (Interactive.generate_report World) ?k] =>
      destruct (tests_then_report driver_get wait_for_body find_element
                  find_elements is_displayed is_enabled click execute_script
                  clear send_keys set_window_size time sleep k self1 w3)
        as (mid & t & rate & w' & Hrun & At & Ht & Hrate)
  end.
  cbv zeta in Hrun. rewrite Hrun in E. clear Hrun.
  destruct At as (K & Hte & Hwo & Hbr & Hsum).
  destruct K as (_ & Hd & L1 & L2 & L3 & _).
  change (elements_tested self1) with 0%Z in *.
  change (elements_working self1) with 0%Z in *.
  change (elements_broken self1) with 0%Z in *.
  cbn [Interactive.has_driver Interactive.with_results] in E.
  rewrite Hd in E. cbn [self1 Interactive.has_driver Interactive.with_results
    Interactive.init] in E.
  unfold Interactive.driver in E.
  cbn [Interactive.has_driver Interactive.with_results] in E.
  rewrite Hd in E. cbn [self1 Interactive.has_driver Interactive.with_results
    Interactive.init] in E.
  pose proof (rate_expr_returns (elements_working mid) (elements_tested mid))
    as Hr. rewrite Hrate in Hr.
  assert ((elements_tested mid >? 0)%Z = true) as Hpos by lia.
  rewrite Hpos in Hr. injection Hr as ->.
  destruct (driver_quit w') as [rq wq] eqn:Hq. subst out. cbn [fst snd].
  eexists. split; [reflexivity|].
  change (elements_tested (Interactive.with_results mid ?r))
    with (Interactive.interactive_elements_tested r).
  unfold elements_tested, elements_working, elements_broken in *.
  cbn [Interactive.with_results Interactive.tester_results
       Interactive.set_success_rate Interactive.interactive_elements_tested
       Interactive.interactive_elements_working
       Interactive.interactive_elements_broken Interactive.links_tested
       Interactive.links_working Interactive.links_broken].
  split; [exact Hrate|].
  split; [lia|]. split; [lia|]. split; [lia|]. split; [lia|]. split; [lia|].
  split; [by rewrite L1|]. split; [by rewrite L2|]. split; [by rewrite L3|].
  intros Hquit. specialize (Hquit w'). by rewrite Hq in Hquit.
Qed.

Lemma run_generates_the_report_witness :
  ∃ f : spec_float,
    Interactive.success_rate
      (Interactive.tester_results (steady_run steady_get done_ true).1.2)
    = Some (PFloat f)
    ∧ (17 <= elements_tested (steady_run steady_get done_ true).1.2)%Z
    ∧ (steady_run steady_get done_ true).1.1 = Interactive.Ok tt.
Proof.
  destruct (run_generates_the_report unit unit steady_get
              (fun w _ => (Interactive.Ok tt, w)) done_
              (fun w _ _ => (Interactive.Ok tt, w))
              (fun w _ _ => (Interactive.Ok [tt; tt], w))
              (fun w _ => (Interactive.Ok true, w))
              (fun w _ => (Interactive.Ok true, w))
              (fun w _ => (Interactive.Ok tt, w))
              (fun w _ _ => (Interactive.Ok tt, w))
              (fun w _ => (Interactive.Ok tt, w))
              (fun w _ _ => (Interactive.Ok tt, w))
              (fun w _ _ => (Interactive.Ok tt, w))
              done_ (fun w => (S754_zero false, w)) (fun w _ => w)
              "https://mybird.app" tt tt tt tt _
              eq_refl eq_refl eq_refl eq_refl)
    as (f & H1 & _ & H2 & _ & _ & _ & _ & _ & _ & _ & H3).
  exists f. split; [exact H1|]. split; [exact H2|].
  apply H3. by intros [].
Defined.

(** X19.  A run stops before any test, and makes no report, when the
    site cannot be reached or the page does not load.  A status other
    than 200, or a [RequestException], is logged as the one error and
    the run returns without the browser being used; any other exception
    of the request leaves the run.  When the browser fails to load the
    page, a [TimeoutException] is logged and the run returns, and any
    other exception leaves the run.  In each case no element has been
    counted and the success rate is not set. *)
Theorem run_stops_without_report (World element : Type)
    (requests_get :
       World -> string -> Z
       -> Interactive.res Interactive.http_response * World)
    (driver_get : World -> string -> Interactive.res unit * World)
    (wait_for_body : World -> Interactive.res unit * World)
    (find_element :
       World -> Interactive.By -> string -> Interactive.res element * World)
    (find_elements :
       World -> Interactive.By -> string
       -> Interactive.res (list element) * World)
    (is_displayed is_enabled : World -> element -> Interactive.res bool * World)
    (click : World -> element -> Interactive.res unit * World)
    (execute_script :
       World -> string -> element -> Interactive.res unit * World)
    (clear : World -> element -> Interactive.res unit * World)
    (send_keys : World -> element -> string -> Interactive.res unit * World)
    (set_window_size : World -> Z -> Z -> Interactive.res unit * World)
    (driver_quit : World -> Interactive.res unit * World)
    (time : World -> spec_float * World) (sleep : World -> Q -> World)
    (url : string) (browser_started : bool) (w w1 : World) :
  let out :=
    Interactive.run_all_tests World element requests_get driver_get
      wait_for_body find_element find_elements is_displayed is_enabled click
      execute_script clear send_keys set_window_size driver_quit time sleep
      (Interactive.init url browser_started) w in
  let logged := Interactive.errors (Interactive.tester_results out.1.2) in
  (∀ response,
     requests_get w url 10%Z = (Interactive.Ok response, w1) →
     Interactive.response_status_code response ≠ 200%Z →
     out.1.1 = Interactive.Ok tt ∧ out.2 = w1 ∧ no_report out.1.2
     ∧ logged
       = [Interactive.StatusCode (Interactive.response_status_code response)])
  ∧ (∀ e,
       requests_get w url 10%Z = (Interactive.Err e, w1) →
       no_report out.1.2 ∧ out.2 = w1
       ∧ if Interactive.is_a e Interactive.RequestException
         then out.1.1 = Interactive.Ok tt
              ∧ logged = [Interactive.ConnectFailed (Interactive.text e)]
         else out.1.1 = Interactive.Err e ∧ logged = [])
  ∧ (∀ response e w2,
       requests_get w url 10%Z = (Interactive.Ok response, w1) →
       Interactive.response_status_code response = 200%Z →
       browser_started = true →
       load_raises driver_get wait_for_body
         (Interactive.init url browser_started) w1 w2 e →
       no_report out.1.2 ∧ out.2 = w2
       ∧ if Interactive.is_a e Interactive.TimeoutException
         then out.1.1 = Interactive.Ok tt
              ∧ logged = [Interactive.LoadTimeout]
         else out.1.1 = Interactive.Err e ∧ logged = []).
Proof.
  cbv zeta.
  match goal with
  | |- context [(?c0 (Interactive.init url browser_started) w).1.1] =>
      remember (c0 (Interactive.init url browser_started) w) as out eqn:E
  end.
  unfold Interactive.run_all_tests in E. unfold Interactive.seq at 1 in E.
  split; [|split].
  - intros response Hget H200.
    rewrite (connectivity_fails requests_get
               (Interactive.init url browser_started) w w1 response Hget H200)
      in E.
    subst out. by cbn.
  - intros e Hget.
    rewrite (connectivity_raises requests_get
               (Interactive.init url browser_started) w w1 e Hget) in E.
    subst out. by destruct (Interactive.is_a e Interactive.RequestException).
  - intros response e w2 Hget H200 -> Hload.
    rewrite (connectivity_passes requests_get (Interactive.init url true)
               w w1 response Hget H200) in E.
    cbn [negb] in E. unfold Interactive.seq at 1 in E.
    match type of E with
    | context [Interactive.load_website _ _ _ ?s _] =>
        rewrite (website_fails driver_get wait_for_body s w1 w2 e eq_refl
                   Hload) in E
    end.
    subst out. by destruct (Interactive.is_a e Interactive.TimeoutException).
Qed.

Lemma run_stops_without_report_witness :
  (steady_run (failing_get 503) done_ true).1.1 = Interactive.Ok tt
  ∧ no_report (steady_run (failing_get 503) done_ true).1.2
  ∧ Interactive.errors
      (Interactive.tester_results
         (steady_run (failing_get 503) done_ true).1.2)
    = [Interactive.StatusCode 503]
  ∧ (steady_run steady_get never_loads true).1.1 = Interactive.Ok tt
  ∧ no_report (steady_run steady_get never_loads true).1.2
  ∧ Interactive.errors
      (Interactive.tester_results (steady_run steady_get never_loads true).1.2)
    = [Interactive.LoadTimeout].
Proof.
  pose proof (run_stops_without_report unit unit (failing_get 503)
                (fun w _ => (Interactive.Ok tt, w)) done_
                (fun w _ _ => (Interactive.Ok tt, w))
                (fun w _ _ => (Interactive.Ok [tt; tt], w))
                (fun w _ => (Interactive.Ok true, w))
                (fun w _ => (Interactive.Ok true, w))
                (fun w _ => (Interactive.Ok tt, w))
                (fun w _ _ => (Interactive.Ok tt, w))
                (fun w _ => (Interactive.Ok tt, w))
                (fun w _ _ => (Interactive.Ok tt, w))
                (fun w _ _ => (Interactive.Ok tt, w))
                done_ (fun w => (S754_zero false, w)) (fun w _ => w)
                "https://mybird.app" true tt tt) as (H1 & _ & _).
  pose proof (run_stops_without_report unit unit steady_get
                (fun w _ => (Interactive.Ok tt, w)) never_loads
                (fun w _ _ => (Interactive.Ok tt, w))
                (fun w _ _ => (Interactive.Ok [tt; tt], w))
                (fun w _ => (Interactive.Ok true, w))
                (fun w _ => (Interactive.Ok true, w))
                (fun w _ => (Interactive.Ok tt, w))
                (fun w _ _ => (Interactive.Ok tt, w))
                (fun w _ => (Interactive.Ok tt, w))
                (fun w _ _ => (Interactive.Ok tt, w))
                (fun w _ _ => (Interactive.Ok tt, w))
                done_ (fun w => (S754_zero false, w)) (fun w _ => w)
                "https://mybird.app" true tt tt) as (_ & _ & H3).
  cbv zeta in H1, H3.
  destruct (H1 _ eq_refl ltac:(done)) as (A1 & _ & A2 & A3).
  destruct (H3 _ {| Interactive.cls := Interactive.TimeoutException;
                    Interactive.text := "timeout" |} tt eq_refl eq_refl
              eq_refl)
    as (B2 & _ & B1 & B3).
  { right. by exists tt. }
  by repeat split.
Defined.

(** X20.  When the browser could not be started, the tester has no
    driver: once the site has answered 200, the run ends with an
    [AttributeError] at the first use of the driver.  No test runs, no
    report is made and the error is not even logged. *)
Theorem run_without_browser_raises (World element : Type)
    (requests_get :
       World -> string -> Z
       -> Interactive.res Interactive.http_response * World)
    (driver_get : World -> string -> Interactive.res unit * World)
    (wait_for_body : World -> Interactive.res unit * World)
    (find_element :
       World -> Interactive.By -> string -> Interactive.res element * World)
    (find_elements :
       World -> Interactive.By -> string
       -> Interactive.res (list element) * World)
    (is_displayed is_enabled : World -> element -> Interactive.res bool * World)
    (click : World -> element -> Interactive.res unit * World)
    (execute_script :
       World -> string -> element -> Interactive.res unit * World)
    (clear : World -> element -> Interactive.res unit * World)
    (send_keys : World -> element -> string -> Interactive.res unit * World)
    (set_window_size : World -> Z -> Z -> Interactive.res unit * World)
    (driver_quit : World -> Interactive.res unit * World)
    (time : World -> spec_float * World) (sleep : World -> Q -> World)
    (url : string) (w w1 : World) (response : Interactive.http_response) :
  requests_get w url 10%Z = (Interactive.Ok response, w1) →
  Interactive.response_status_code response = 200%Z →
  let out :=
    Interactive.run_all_tests World element requests_get driver_get
      wait_for_body find_element find_elements is_displayed is_enabled click
      execute_script clear send_keys set_window_size driver_quit time sleep
      (Interactive.init url false) w in
  out.1.1 = Interactive.Err Interactive.no_driver
  ∧ Interactive.cls Interactive.no_driver = Interactive.AttributeError
  ∧ out.2 = w1
  ∧ no_report out.1.2
  ∧ Interactive.errors (Interactive.tester_results out.1.2) = []
  ∧ Interactive.detailed_results (Interactive.tester_results out.1.2)
    = [Interactive.Connectivity url 200
         (Interactive.elapsed_total_seconds response)].
Proof.
  intros Hget H200. cbv zeta.
  match goal with
  | |- context [(?c0 (Interactive.init url false) w).1.1] =>
      remember (c0 (Interactive.init url false) w) as out eqn:E
  end.
  unfold Interactive.run_all_tests in E. unfold Interactive.seq at 1 in E.
  rewrite (connectivity_passes requests_get (Interactive.init url false)
             w w1 response Hget H200) in E.
  cbn [negb] in E. unfold Interactive.seq at 1 in E.
  match type of E with
  | context [Interactive.load_website _ _ _ ?s _] =>
      rewrite (no_browser driver_get wait_for_body s w1 eq_refl) in E
  end.
  subst out. by cbn.
Qed.

Lemma run_without_browser_witness :
  (steady_run steady_get done_ false).1.1
  = Interactive.Err Interactive.no_driver
  ∧ no_report (steady_run steady_get done_ false).1.2
  ∧ Interactive.errors
      (Interactive.tester_results (steady_run steady_get done_ false).1.2)
    = [].
Proof.
  destruct (run_without_browser_raises unit unit steady_get
              (fun w _ => (Interactive.Ok tt, w)) done_
              (fun w _ _ => (Interactive.Ok tt, w))
              (fun w _ _ => (Interactive.Ok [tt; tt], w))
              (fun w _ => (Interactive.Ok true, w))
              (fun w _ => (Interactive.Ok true, w))
              (fun w _ => (Interactive.Ok tt, w))
              (fun w _ _ => (Interactive.Ok tt, w))
              (fun w _ => (Interactive.Ok tt, w))
              (fun w _ _ => (Interactive.Ok tt, w))
              (fun w _ _ => (Interactive.Ok tt, w))
              done_ (fun w => (S754_zero false, w)) (fun w _ => w)
              "https://mybird.app" tt tt _ eq_refl eq_refl)
    as (H1 & _ & _ & H2 & H3 & _).
  by repeat split.
Defined.

(** ** Classification of the href values of any page text *)

Lemma attribute_here_spec (s v after : list ascii) :
  attribute_here s = Some (v, after) →
  ∃ q q', s = attr_chars q v q' ++ after ∧ quote_free v
          ∧ is_quote q = true ∧ is_quote q' = true.
Proof.
  unfold attribute_here.
  destruct (strip false (chars "href=") s) as [[|q rest]|] eqn:E; [done| |done].
  apply strip_Some in E as ->.
  destruct (is_quote q) eqn:Hq; [|done].
  destruct (span_spec not_quote rest) as (Hs & Hv & Ht).
  destruct (span not_quote rest) as [run tail]. cbn [fst snd] in *.
  destruct tail as [|q' tail]; [done|]. intros [= <- <-].
  cbn in Ht. exists q, q'. rewrite attr_chars_app, Hs.
  repeat split; [done|done|]. unfold not_quote in Ht.
  by destruct (is_quote q').
Qed.

Lemma attribute_here_attr (q q' : ascii) (v rest : list ascii) :
  quote_free v → is_quote q = true → is_quote q' = true →
  attribute_here (attr_chars q v q' ++ rest) = Some (v, rest).
Proof.
  intros Hv Hq Hq'. unfold attribute_here.
  rewrite attr_chars_app, strip_app, Hq.
  rewrite (span_app not_quote v (q' :: rest)); [done|done|].
  cbn. unfold not_quote. by rewrite Hq'.
Qed.

Section ScanReads.
Variable r : re.
Variable acc : string -> bool.
Variable out : rmatch -> string.

Let P : re := Cat (Str "href=") (Cat quote r).

Hypothesis needs : requires_quote r.

Hypothesis at_attr : ∀ q q' v rest,
  quote_free v → is_quote q = true → is_quote q' = true →
  if acc (str v)
  then ∃ m, match_at false P (attr_chars q v q' ++ rest) = Some (m, rest)
            ∧ whole m = attr_chars q v q' ∧ out m = str v
  else match_at false P (attr_chars q v q' ++ rest) = None.

Lemma match_reads (s : list ascii) :
  match attribute_here s with
  | Some (v, after) =>
      if acc (str v)
      then ∃ m, match_at false P s = Some (m, after)
                ∧ length (whole m) = (length v + 7)%nat ∧ out m = str v
      else match_at false P s = None
  | None => match_at false P s = None
  end.
Proof.
  destruct (attribute_here s) as [[v after]|] eqn:E.
  - apply attribute_here_spec in E as (q & q' & -> & Hv & Hq & Hq').
    pose proof (at_attr q q' v after Hv Hq Hq') as H.
    destruct (acc (str v)); [|done].
    destruct H as (m & Hm & Hw & Ho). exists m. split; [done|].
    split; [|done]. rewrite Hw. unfold attr_chars.
    rewrite length_app. cbn [length chars list_ascii_of_string].
    rewrite length_app. cbn [length]. lia.
  - destruct (match_at false P s) as [[m rest]|] eqn:Em; [|done].
    apply (match_is_attr r acc out needs at_attr) in Em
      as (q & q' & v & -> & Hv & Hq & Hq' & _).
    by rewrite attribute_here_attr in E.
Qed.

Lemma scan_reads (s : list ascii) :
  ∀ skip, out <$> scan false P skip s = read_href_values acc skip s.
Proof.
  induction s as [|x s IH]; intros skip.
  - destruct skip; cbn [scan read_href_values]; [|done].
    by assert (match_at false P [] = None) as -> by exact (match_reads []).
  - destruct skip as [|n]; cbn [scan read_href_values]; [|apply IH].
    pose proof (match_reads (x :: s)) as H.
    destruct (attribute_here (x :: s)) as [[v after]|].
    + destruct (acc (str v)).
      * destruct H as (m & -> & Hlen & Ho). rewrite fmap_cons, Ho, IH.
        do 2 f_equal. rewrite Hlen. lia.
      * rewrite H. apply IH.
    + rewrite H. apply IH.
Qed.
End ScanReads.

Lemma external_links_read (text : string) :
  external_links (extract_links_from_html text)
  = href_values goes_external text.
Proof.
  cbn [external_links extract_links_from_html].
  unfold finditer, external_pattern, href_values.
  apply (scan_reads _ goes_external (fun m => str (slice_6_m1 (whole m))));
    [needs_quote|].
  intros q q' v rest Hv Hq Hq'.
  pose proof (external_at_attr q q' v rest Hv Hq Hq') as H.
  destruct (goes_external (str v)); [|exact H].
  destruct H as (m & Hm & Hw). exists m. repeat split; [exact Hm|done|].
  by rewrite Hw, slice_attr.
Qed.

Lemma internal_links_read (text : string) :
  internal_links (extract_links_from_html text)
  = List.filter keep_internal (href_values internal_candidate text).
Proof.
  cbn [internal_links extract_links_from_html].
  unfold finditer, internal_pattern, href_values. f_equal.
  apply (scan_reads _ internal_candidate (group 1)); [needs_quote|].
  exact (fun q q' v rest => internal_at_attr q q' v rest).
Qed.

(** ** Attributes that stand free *)

Lemma closes_value_intro (qualifies : string -> bool) (pre u : list ascii)
    (q : ascii) :
  is_quote q = true → quote_free u →
  closes_value qualifies (pre ++ chars "href=" ++ q :: u)
  = qualifies (str (u ++ chars "href=")).
Proof.
  intros Hq Hu. unfold closes_value.
  rewrite !rev_app_distr. cbn [rev]. rewrite <- !app_assoc.
  rewrite (span_app not_quote (rev u)).
  - cbn [fst snd app]. rewrite strip_app. by rewrite rev_involutive.
  - by apply List.Forall_rev.
  - cbn. unfold not_quote. by rewrite Hq.
Qed.

Lemma closes_value_elim (qualifies : string -> bool) (before : list ascii) :
  closes_value qualifies before = true →
  ∃ pre q u, before = pre ++ chars "href=" ++ q :: u
             ∧ is_quote q = true ∧ quote_free u
             ∧ qualifies (str (u ++ chars "href=")) = true.
Proof.
  unfold closes_value.
  destruct (span_spec not_quote (rev before)) as (Hs & Hu & Ht).
  destruct (span not_quote (rev before)) as [u tail]. cbn [fst snd] in *.
  destruct tail as [|q earlier]; [done|].
  destruct (strip false (rev (chars "href=")) earlier) as [pre|] eqn:E;
    [|done].
  intros Hok. apply strip_Some in E as ->.
  exists (rev pre), q, (rev u).
  split; [|split; [|split]].
  - rewrite <- (rev_involutive before), Hs.
    rewrite !rev_app_distr. cbn [rev]. rewrite !rev_app_distr.
    cbn [rev app]. by rewrite <- !app_assoc.
  - cbn in Ht. unfold not_quote in Ht. by destruct (is_quote q).
  - by apply List.Forall_rev.
  - done.
Qed.

Lemma closes_value_tail (qualifies : string -> bool) (c : ascii)
    (before : list ascii) :
  closes_value qualifies (c :: before) = false →
  closes_value qualifies before = false.
Proof.
  intros H. destruct (closes_value qualifies before) eqn:E; [|done].
  apply closes_value_elim in E as (pre & q & u & -> & Hq & Hu & Hok).
  pose proof (closes_value_intro qualifies (c :: pre) u q Hq Hu) as H'.
  cbn [app] in H, H'. congruence.
Qed.

(** A text without quote characters that is followed by a quote, read
    against [href=] and a quote, is [href=]. *)
Lemma run_before_quote (w tail after0 : list ascii) (q q0' : ascii) :
  quote_free w → is_quote q = true → is_quote q0' = true →
  chars "href=" ++ q :: tail = w ++ q0' :: after0 →
  w = chars "href=".
Proof.
  intros Hw Hq Hq0' Heq. cbn [chars list_ascii_of_string app] in Heq.
  do 5 (destruct w as [|? w];
        [cbn [app] in Heq; injection Heq as <-; intros; discriminate Hq0'|];
        cbn [app] in Heq; injection Heq as <- Heq).
  destruct w as [|x w]; [done|]. exfalso.
  cbn [app] in Heq. injection Heq as <- _.
  unfold quote_free in Hw. do 5 (apply Forall_cons in Hw as [_ Hw]).
  apply Forall_cons in Hw as [Hx _]. unfold not_quote in Hx.
  by rewrite Hq in Hx.
Qed.

(** An attribute that qualifies and begins before an attribute whose
    opening quote closes no qualifying value ends before it. *)
Lemma attribute_ends_before (qualifies : string -> bool)
    (before tail v0 after0 : list ascii) (q : ascii) :
  closes_value qualifies before = false → is_quote q = true →
  before ≠ [] →
  attribute_here (before ++ chars "href=" ++ q :: tail) = Some (v0, after0) →
  qualifies (str v0) = true →
  (length v0 + 7 <= length before)%nat.
Proof.
  intros Hfree Hq Hne Hattr Hok.
  apply attribute_here_spec in Hattr as (q0 & q0' & Heq & Hv0 & Hq0 & Hq0').
  destruct (decide (length v0 + 7 <= length before)%nat) as [|Hlt]; [done|].
  exfalso. rewrite attr_chars_app in Heq.
  assert (∀ i x, (chars "href=" ++ q :: tail) !! i = Some x → (i < 5)%nat →
                 is_quote x = false) as Hhead.
  { intros i x Hi Hlt5.
    do 5 (destruct i as [|i]; [by injection Hi as <-|]). lia. }
  destruct (decide (length before <= 5)%nat) as [Hshort|Hlong].
  - assert ((before ++ chars "href=" ++ q :: tail) !! 5%nat = Some q0) as H5
      by (by rewrite Heq).
    rewrite lookup_app_r in H5 by lia.
    apply Hhead in H5; [congruence|].
    destruct before; [done|]. cbn [length]. lia.
  - assert (before = take (length before)
                       (chars "href=" ++ q0 :: v0 ++ q0' :: after0)) as Hb.
    { rewrite <- Heq. by rewrite take_app_length. }
    assert (before = chars "href=" ++ q0 :: take (length before - 6) v0)
      as Hb'.
    { rewrite Hb at 1.
      destruct (length before) as [|[|[|[|[|[|n]]]]]] eqn:El; try lia.
      cbn [chars list_ascii_of_string app take]. do 6 f_equal.
      replace (S (S (S (S (S (S n))))) - 6)%nat with n by lia.
      rewrite take_app_le by lia. done. }
    set (n := (length before - 6)%nat) in *.
    assert (quote_free (take n v0)) as Hu
      by (unfold quote_free in *; by apply Forall_take).
    assert (drop n v0 = chars "href=") as Hw.
    { apply (run_before_quote _ tail after0 q q0').
      - unfold quote_free in *. by apply Forall_drop.
      - done.
      - done.
      - rewrite Hb' in Heq. rewrite <- (take_drop n v0) in Heq at 2.
        rewrite <- !app_assoc in Heq. cbn [chars list_ascii_of_string app] in Heq.
        injection Heq as Heq. apply app_inv_head in Heq. exact Heq. }
    pose proof (closes_value_intro qualifies [] _ q0 Hq0 Hu) as H'.
    cbn [app] in H'. rewrite <- Hb' in H'.
    rewrite <- Hw, take_drop in H'. congruence.
Qed.

Lemma read_reaches (qualifies : string -> bool) (v after : list ascii)
    (q q' : ascii) :
  quote_free v → is_quote q = true → is_quote q' = true →
  qualifies (str v) = true →
  ∀ (before : list ascii) (skip : nat),
    closes_value qualifies before = false → (skip <= length before)%nat →
    str v ∈ read_href_values qualifies skip
              (before ++ attr_chars q v q' ++ after).
Proof.
  intros Hv Hq Hq' Hok. induction before as [|c before IH]; intros skip Hf Hs.
  - destruct skip; [|cbn [length] in Hs; lia]. cbn [app].
    pose proof (attribute_here_attr q q' v after Hv Hq Hq') as Ha.
    rewrite attr_chars_app in *.
    cbn [read_href_values chars list_ascii_of_string app] in *.
    rewrite Ha, Hok. left.
  - pose proof (closes_value_tail _ _ _ Hf) as Hf'.
    destruct skip as [|n]; cbn [read_href_values app].
    + destruct (attribute_here (c :: before ++ attr_chars q v q' ++ after))
        as [[v0 after0]|] eqn:E; [|apply IH; [done|lia]].
      destruct (qualifies (str v0)) eqn:Eok; [|apply IH; [done|lia]].
      right. apply IH; [done|].
      rewrite attr_chars_app in E.
      pose proof (attribute_ends_before qualifies (c :: before) _ v0 after0 q
                    Hf Hq ltac:(done) E Eok) as Hlen.
      cbn [length] in Hlen. lia.
    + apply IH; [done|]. cbn [length] in Hs. lia.
Qed.

Lemma internal_values (text v : string) :
  v ∈ internal_links (extract_links_from_html text) →
  goes_internal v = true ∧ quote_free (chars v) ∧ href_value_in v text.
Proof.
  intros Hv. cbn [internal_links extract_links_from_html] in Hv.
  rewrite list_elem_of_In in Hv. apply List.filter_In in Hv as [Hv Hk].
  rewrite <- list_elem_of_In in Hv. unfold finditer, internal_pattern in Hv.
  apply (scan_values _ (fun v => negb (has_scheme v) && truthy v)) in Hv.
  - destruct Hv as (Ha & Hq & Hin). split; [|done].
    apply andb_true_iff in Ha as [Hs Ht]. unfold keep_internal in Hk.
    apply andb_true_iff in Hk as [Hk Htel].
    apply andb_true_iff in Hk as [_ Hmail].
    unfold goes_internal. by rewrite Hs, Ht, Hmail, Htel.
  - needs_quote.
  - exact (fun q q' v rest => internal_at_attr q q' v rest).
Qed.

Lemma stands_as_attribute (text v : string) :
  quote_free (chars v) → href_value_in v text →
  ∃ before, href_attribute text before v.
Proof.
  intros Hq (before & after & q & q' & Ht & H1 & H2).
  by exists before, after, q, q'.
Qed.

Lemma free_attribute_is_read (qualifies : string -> bool) (text v : string)
    (before : list ascii) :
  href_attribute text before v → closes_value qualifies before = false →
  qualifies v = true → v ∈ href_values qualifies text.
Proof.
  intros (after & q & q' & Ht & Hq & Hq' & Hv) Hfree Hok.
  unfold href_values. rewrite Ht.
  rewrite <- (str_chars v) at 1.
  apply read_reaches; [done|done|done|by rewrite str_chars|done|lia].
Qed.

Lemma not_classified (v : string) :
  bare_scheme v = true ∨ v = EmptyString
  ∨ startswith "mailto:" v = true ∨ startswith "tel:" v = true →
  goes_external v = false ∧ goes_internal v = false.
Proof.
  unfold goes_external, goes_internal.
  intros [Hv|[->|[Hv|Hv]]].
  - rewrite Hv. unfold bare_scheme in Hv. apply orb_true_iff in Hv as [Hv|Hv];
      apply bool_decide_eq_true in Hv; subst v;
      split; [by rewrite andb_false_r|reflexivity
             |by rewrite andb_false_r|reflexivity].
  - done.
  - rewrite Hv. split; [|by rewrite andb_false_r].
    unfold startswith in Hv.
    destruct (strip false (chars "mailto:") (chars v)) as [tail|] eqn:E;
      [|done].
    apply strip_Some in E. unfold has_scheme, startswith. by rewrite E.
  - rewrite Hv. split; [|by rewrite andb_false_r].
    unfold startswith in Hv.
    destruct (strip false (chars "tel:") (chars v)) as [tail|] eqn:E;
      [|done].
    apply strip_Some in E. unfold has_scheme, startswith. by rewrite E.
Qed.

(** C4, as the specification states it, fails twice.  A value that is
    the bare prefix begins with [https://] and reaches neither list; and
    an attribute whose opening quote closes a text that an earlier
    [href=] and quote opened is read as part of that earlier value: after
    a title attribute with the value [href=], the value [/a] of the href
    attribute reaches neither list. *)
Lemma some_href_values_reach_no_list :
  (startswith "https://" "https://" = true
   ∧ external_links (extract_links_from_html bare_page) = []
   ∧ internal_links (extract_links_from_html bare_page) = []
   ∧ ¬ (∀ html v,
          (∃ before after, html = before +:+ "href=" +:+ dq v +:+ after) →
          has_scheme v = true →
          v ∈ external_links (extract_links_from_html html)))
  ∧ (goes_internal "/a" = true
     ∧ href_attribute shadow_page
         (chars ("<a title=" +:+ dq "href=" +:+ " ")) "/a"
     ∧ closes_value internal_candidate
         (chars ("<a title=" +:+ dq "href=" +:+ " ")) = true
     ∧ external_links (extract_links_from_html shadow_page) = []
     ∧ internal_links (extract_links_from_html shadow_page)
       = [" href="%string]
     ∧ ¬ (∀ html v,
            (∃ before after, html = before +:+ "href=" +:+ dq v +:+ after) →
            goes_internal v = true →
            v ∈ internal_links (extract_links_from_html html))).
Proof.
  split; [exact bare_scheme_value_is_dropped|].
  split; [reflexivity|].
  split.
  { exists (chars ">x</a>"), dquote, dquote.
    split; [reflexivity|]. split; [reflexivity|]. split; [reflexivity|].
    by repeat constructor. }
  split; [reflexivity|].
  split; [vm_compute; reflexivity|].
  split; [vm_compute; reflexivity|].
  intros H. specialize (H shadow_page "/a"%string).
  assert ("/a"%string
          ∈ internal_links (extract_links_from_html shadow_page)) as Hin.
  { apply H; [|reflexivity].
    by exists ("<a title=" +:+ dq "href=" +:+ " ")%string, ">x</a>"%string. }
  assert (internal_links (extract_links_from_html shadow_page)
          = [" href="%string]) as E by (vm_compute; reflexivity).
  rewrite E in Hin. apply list_elem_of_singleton in Hin. discriminate Hin.
Qed.

(** C4, amended.  For every page text the two lists are what reading the
    text from left to right gives: wherever the text has [href=], a quote
    character, a run of characters that are not quotes (the value) and a
    quote character, the value is taken when it qualifies and reading
    goes on after the closing quote, and otherwise reading goes on at the
    next character.  The external links are the values so taken that
    begin with [http://] or [https://] and go on for at least one more
    character, each whole with its scheme; the internal links are the
    values so taken that are not empty and begin with neither prefix,
    less those beginning with [mailto:] or [tel:].  Hence in every page
    text a quoted href attribute is classified by its value, unless its
    opening quote closes a value that is taken for the same list: the
    nearest quote character to its left comes right after another
    [href=], and the characters from there up to its own [href=] begin
    with [http://] or [https://] (external links), or do not (internal
    links).  Every value in a list stands in the text as a quoted href
    attribute and qualifies for that list; and a value that is exactly
    [http://] or [https://], is empty, or begins with [mailto:] or [tel:]
    qualifies for neither.  On a page made of attributes without stray
    quote characters the lists are the qualifying values in order, and
    for the four crafted attributes they are [https://a.com/x] and
    [/relative]. *)
Theorem extraction_classifies_href_values :
  (∀ text : string,
     let links := extract_links_from_html text in
     external_links links = href_values goes_external text
     ∧ internal_links links
       = List.filter keep_internal (href_values internal_candidate text)
     ∧ (∀ before v,
          href_attribute text before v →
          (goes_external v = true →
           closes_value goes_external before = false →
           v ∈ external_links links)
          ∧ (goes_internal v = true →
             closes_value internal_candidate before = false →
             v ∈ internal_links links))
     ∧ (∀ v, v ∈ external_links links →
             goes_external v = true ∧ ∃ before, href_attribute text before v)
     ∧ (∀ v, v ∈ internal_links links →
             goes_internal v = true ∧ ∃ before, href_attribute text before v))
  ∧ (∀ v, bare_scheme v = true ∨ v = EmptyString
          ∨ startswith "mailto:" v = true ∨ startswith "tel:" v = true →
          goes_external v = false ∧ goes_internal v = false)
  ∧ (∀ (attrs : list attribute) (trailer : string),
       Forall well_formed attrs → quote_free (chars trailer) →
       let links := extract_links_from_html (render_page attrs trailer) in
       external_links links = List.filter goes_external (val <$> attrs)
       ∧ internal_links links = List.filter goes_internal (val <$> attrs))
  ∧ external_links (extract_links_from_html crafted)
    = ["https://a.com/x"%string]
  ∧ internal_links (extract_links_from_html crafted)
    = ["/relative"%string].
Proof.
  split; [|split; [exact not_classified|split; [|split]]].
  - intros text links. subst links.
    split; [apply external_links_read|].
    split; [apply internal_links_read|]. split; [|split].
    + intros before v Hattr. split.
      * intros Hv Hfree. rewrite external_links_read.
        by apply (free_attribute_is_read _ text v before).
      * intros Hv Hfree. rewrite internal_links_read.
        unfold goes_internal in Hv.
        apply andb_true_iff in Hv as [Hv Htel].
        apply andb_true_iff in Hv as [Hv Hmail].
        apply andb_true_iff in Hv as [Hs Ht].
        rewrite list_elem_of_In. apply List.filter_In. split.
        -- rewrite <- list_elem_of_In.
           apply (free_attribute_is_read _ text v before); [done|done|].
           unfold internal_candidate. by rewrite Hs, Ht.
        -- unfold keep_internal. by rewrite Ht, Hmail, Htel.
    + intros v Hv. apply external_values in Hv as (Ha & Hq & Hin).
      split; [done|]. by apply stands_as_attribute.
    + intros v Hv. apply internal_values in Hv as (Ha & Hq & Hin).
      split; [done|]. by apply stands_as_attribute.
  - intros attrs trailer Hwf Htr links. subst links.
    by rewrite external_links_page, internal_links_page.
  - vm_compute. reflexivity.
  - vm_compute. reflexivity.
Qed.

Lemma extraction_classifies_witness :
  href_attribute classed_page (chars ("<a class=" +:+ dq "x" +:+ " "))
    "https://a.com/x"
  ∧ goes_external "https://a.com/x" = true
  ∧ closes_value goes_external (chars ("<a class=" +:+ dq "x" +:+ " "))
    = false
  ∧ "https://a.com/x"%string
    ∈ external_links (extract_links_from_html classed_page)
  ∧ Forall well_formed crafted_attrs ∧ quote_free (chars ">d</a>")
  ∧ external_links (extract_links_from_html (render_page crafted_attrs ">d</a>"))
    = List.filter goes_external (val <$> crafted_attrs)
  ∧ internal_links (extract_links_from_html (render_page crafted_attrs ">d</a>"))
    = List.filter goes_internal (val <$> crafted_attrs).
Proof.
  assert (href_attribute classed_page (chars ("<a class=" +:+ dq "x" +:+ " "))
            "https://a.com/x") as Hattr.
  { exists (chars ">"), dquote, dquote.
    split; [reflexivity|]. split; [reflexivity|]. split; [reflexivity|].
    by repeat constructor. }
  assert (goes_external "https://a.com/x" = true) as Hext by reflexivity.
  assert (closes_value goes_external (chars ("<a class=" +:+ dq "x" +:+ " "))
          = false) as Hfree by reflexivity.
  assert (Forall well_formed crafted_attrs) as Hwf by well_formed_page.
  assert (quote_free (chars ">d</a>")) as Htr by (by repeat constructor).
  destruct extraction_classifies_href_values as (Hall & _ & Hpage & _).
  destruct (Hall classed_page) as (_ & _ & Hfreeattr & _).
  split; [exact Hattr|]. split; [exact Hext|]. split; [exact Hfree|].
  split; [exact (proj1 (Hfreeattr _ _ Hattr) Hext Hfree)|].
  split; [exact Hwf|]. split; [exact Htr|].
  exact (Hpage crafted_attrs ">d</a>"%string Hwf Htr).
Defined.

(** ** The extraction and the state around it *)

Example read_after_use :
  ∃ d σ', Store.extract_links_from_html crafted used_state = (Return d, σ')
          ∧ Store.read_links σ' d = Some (extract_links_from_html crafted).
Proof. eexists _, _. split; [reflexivity|]. by vm_compute. Qed.

(** ** The extraction in a store *)

Lemma then_new {B : Type} (o : Store.object) (f : Store.ref → Store.S B)
    (σ : Store.state) :
  Store.then_ (Store.new o) f σ
  = f (fresh (dom (Store.objects σ)))
      {| Store.objects :=
           <[fresh (dom (Store.objects σ)) := o]> (Store.objects σ);
         Store.self_results := Store.self_results σ |}.
Proof. reflexivity. Qed.

Lemma filter_all {A : Type} (l : list A) : List.filter (fun _ => true) l = l.
Proof. induction l as [|x l IH]; [done|]. cbn. by rewrite IH. Qed.

Lemma filter_fmap {A B : Type} (f : A → B) (p : B → bool) (l : list A) :
  f <$> List.filter (fun x => p (f x)) l = List.filter p (f <$> l).
Proof.
  induction l as [|x l IH]; [done|]. cbn [List.filter fmap list_fmap].
  destruct (p (f x)); cbn [fmap list_fmap]; by rewrite <- IH.
Qed.

(** A loop that appends to the list under one key. *)
Lemma append_loop {X : Type} (links l : Store.ref)
    (entries : gmap string Store.ref) (key : string)
    (c : X → bool) (f : X → string) (xs : list X) :
  entries !! key = Some l → l ≠ links →
  ∀ (σ : Store.state) (items : list string),
    Store.objects σ !! links = Some (Store.PyDict entries) →
    Store.objects σ !! l = Some (Store.PyList items) →
    Store.for_each xs
      (fun m =>
         if c m
         then Store.then_ (Store.getitem links key)
                (fun r => Store.append r (f m))
         else Store.unit_ tt) σ
    = (Return tt,
       {| Store.objects :=
            <[l := Store.PyList (items ++ (f <$> List.filter c xs))]>
              (Store.objects σ);
          Store.self_results := Store.self_results σ |}).
Proof.
  intros Hkey Hne. induction xs as [|x xs IH]; intros σ items Hd Hl.
  - cbn. rewrite app_nil_r, insert_id by done. by destruct σ.
  - cbn [Store.for_each List.filter]. unfold Store.then_ at 1.
    destruct (c x).
    + unfold Store.then_ at 1, Store.getitem. rewrite Hd, Hkey.
      unfold Store.append. rewrite Hl.
      rewrite (IH _ (items ++ [f x])).
      * cbn [Store.objects Store.self_results fmap list_fmap].
        by rewrite insert_insert_eq, <- app_assoc.
      * cbn [Store.objects]. by rewrite lookup_insert_ne.
      * cbn [Store.objects]. by rewrite lookup_insert_eq.
    + unfold Store.unit_ at 1. by apply IH.
Qed.

Lemma then_loop {X B : Type} (links l : Store.ref)
    (entries : gmap string Store.ref) (key : string)
    (c : X → bool) (f : X → string) (xs : list X)
    (k : unit → Store.S B) (σ : Store.state) (items : list string) :
  entries !! key = Some l → l ≠ links →
  Store.objects σ !! links = Some (Store.PyDict entries) →
  Store.objects σ !! l = Some (Store.PyList items) →
  Store.then_
    (Store.for_each xs
       (fun m =>
          if c m
          then Store.then_ (Store.getitem links key)
                 (fun r => Store.append r (f m))
          else Store.unit_ tt)) k σ
  = k tt
      {| Store.objects :=
           <[l := Store.PyList (items ++ (f <$> List.filter c xs))]>
             (Store.objects σ);
         Store.self_results := Store.self_results σ |}.
Proof.
  intros Hkey Hne Hd Hl. unfold Store.then_ at 1.
  by rewrite (append_loop links l entries key c f xs Hkey Hne σ items Hd Hl).
Qed.

Local Ltac look_up :=
  cbn [Store.objects]; rewrite ?lookup_insert_ne by done;
  first [ eassumption | apply lookup_insert_eq ].

Lemma fresh_apart (r r' : Store.ref) (o : Store.object)
    (m : gmap Store.ref Store.object) :
  r ∉ dom (<[r' := o]> m) → r ≠ r' ∧ r ∉ dom m.
Proof. rewrite dom_insert. set_solver. Qed.

Lemma extraction_in_store (html : string) (σ : Store.state) :
  ∃ d σ',
    Store.extract_links_from_html html σ = (Return d, σ')
    ∧ Store.objects σ !! d = None
    ∧ untouched σ σ'
    ∧ Store.self_results σ' = Store.self_results σ
    ∧ Store.read_links σ' d = Some (extract_links_from_html html).
Proof.
  unfold Store.extract_links_from_html.
  rewrite then_new. set (l1 := fresh (dom (Store.objects σ))).
  assert (l1 ∉ dom (Store.objects σ)) as F1 by apply is_fresh.
  cbn [Store.objects Store.self_results].
  set (m1 := <[l1 := Store.PyList []]> (Store.objects σ)) in *.
  rewrite then_new. cbn [Store.objects Store.self_results].
  set (l2 := fresh (dom m1)).
  assert (l2 ∉ dom m1) as F2 by apply is_fresh.
  set (m2 := <[l2 := Store.PyList []]> m1) in *.
  rewrite then_new. cbn [Store.objects Store.self_results].
  set (l3 := fresh (dom m2)).
  assert (l3 ∉ dom m2) as F3 by apply is_fresh.
  set (m3 := <[l3 := Store.PyList []]> m2) in *.
  rewrite then_new. cbn [Store.objects Store.self_results].
  set (l4 := fresh (dom m3)).
  assert (l4 ∉ dom m3) as F4 by apply is_fresh.
  set (m4 := <[l4 := Store.PyList []]> m3) in *.
  rewrite then_new. cbn [Store.objects Store.self_results].
  set (l5 := fresh (dom m4)).
  assert (l5 ∉ dom m4) as F5 by apply is_fresh.
  set (m5 := <[l5 := Store.PyList []]> m4) in *.
  rewrite then_new. cbn [Store.objects Store.self_results].
  set (l6 := fresh (dom m5)).
  assert (l6 ∉ dom m5) as F6 by apply is_fresh.
  set (m6 := <[l6 := Store.PyList []]> m5) in *.
  rewrite then_new. cbn [Store.objects Store.self_results].
  set (l7 := fresh (dom m6)).
  assert (l7 ∉ dom m6) as F7 by apply is_fresh.
  set (m7 := <[l7 := Store.PyList []]> m6) in *.
  rewrite then_new. cbn [Store.objects Store.self_results].
  set (d := fresh (dom m7)).
  assert (d ∉ dom m7) as F8 by apply is_fresh.
  match goal with
  | |- context [<[d := Store.PyDict ?E]> m7] => set (entries := E) in *
  end.
  set (m8 := <[d := Store.PyDict entries]> m7) in *.
  destruct (fresh_apart _ _ _ _ F2) as [N21 G2].
  destruct (fresh_apart _ _ _ _ F3) as [N32 F3'].
  destruct (fresh_apart _ _ _ _ F3') as [N31 G3].
  destruct (fresh_apart _ _ _ _ F4) as [N43 F4'].
  destruct (fresh_apart _ _ _ _ F4') as [N42 F4''].
  destruct (fresh_apart _ _ _ _ F4'') as [N41 G4].
  destruct (fresh_apart _ _ _ _ F5) as [N54 F5a].
  destruct (fresh_apart _ _ _ _ F5a) as [N53 F5b].
  destruct (fresh_apart _ _ _ _ F5b) as [N52 F5c].
  destruct (fresh_apart _ _ _ _ F5c) as [N51 G5].
  destruct (fresh_apart _ _ _ _ F6) as [N65 F6a].
  destruct (fresh_apart _ _ _ _ F6a) as [N64 F6b].
  destruct (fresh_apart _ _ _ _ F6b) as [N63 F6c].
  destruct (fresh_apart _ _ _ _ F6c) as [N62 F6d].
  destruct (fresh_apart _ _ _ _ F6d) as [N61 G6].
  destruct (fresh_apart _ _ _ _ F7) as [N76 F7a].
  destruct (fresh_apart _ _ _ _ F7a) as [N75 F7b].
  destruct (fresh_apart _ _ _ _ F7b) as [N74 F7c].
  destruct (fresh_apart _ _ _ _ F7c) as [N73 F7d].
  destruct (fresh_apart _ _ _ _ F7d) as [N72 F7e].
  destruct (fresh_apart _ _ _ _ F7e) as [N71 G7].
  destruct (fresh_apart _ _ _ _ F8) as [D7 F8a].
  destruct (fresh_apart _ _ _ _ F8a) as [D6 F8b].
  destruct (fresh_apart _ _ _ _ F8b) as [D5 F8c].
  destruct (fresh_apart _ _ _ _ F8c) as [D4 F8d].
  destruct (fresh_apart _ _ _ _ F8d) as [D3 F8e].
  destruct (fresh_apart _ _ _ _ F8e) as [D2 F8f].
  destruct (fresh_apart _ _ _ _ F8f) as [D1 G8].
  clear F2 F3 F3' F4 F4' F4'' F5 F5a F5b F5c F6 F6a F6b F6c F6d
    F7 F7a F7b F7c F7d F7e F8 F8a F8b F8c F8d F8e F8f.
  assert (m8 !! d = Some (Store.PyDict entries)) as Hd
    by apply lookup_insert_eq.
  assert (m8 !! l1 = Some (Store.PyList [])
          ∧ m8 !! l2 = Some (Store.PyList [])
          ∧ m8 !! l3 = Some (Store.PyList [])
          ∧ m8 !! l4 = Some (Store.PyList [])
          ∧ m8 !! l5 = Some (Store.PyList [])
          ∧ m8 !! l6 = Some (Store.PyList [])
          ∧ m8 !! l7 = Some (Store.PyList []))
    as (E1 & E2 & E3 & E4 & E5 & E6 & E7).
  { unfold m8, m7, m6, m5, m4, m3, m2, m1.
    repeat split; rewrite ?lookup_insert_ne by done; apply lookup_insert_eq. }
  rewrite (then_loop d l1 entries "external_links" (fun _ => true)
             (fun m => str (slice_6_m1 (whole m))) _ _ _ []);
    [|done|done|done|by look_up].
  cbn [Store.objects Store.self_results app].
  rewrite (then_loop d l2 entries "internal_links"
             (fun m => keep_internal (group 1 m)) (group 1) _ _ _ []);
    [|done|done|by look_up|by look_up].
  cbn [Store.objects Store.self_results app].
  rewrite (then_loop d l3 entries "onclick_handlers" (fun _ => true)
             (group 1) _ _ _ []);
    [|done|done|by look_up|by look_up].
  cbn [Store.objects Store.self_results app].
  rewrite (then_loop d l4 entries "form_actions" (fun _ => true)
             (group 1) _ _ _ []);
    [|done|done|by look_up|by look_up].
  cbn [Store.objects Store.self_results app].
  rewrite (then_loop d l5 entries "image_sources" (fun _ => true)
             (group 1) _ _ _ []);
    [|done|done|by look_up|by look_up].
  cbn [Store.objects Store.self_results app].
  rewrite (then_loop d l6 entries "script_sources" (fun _ => true)
             (group 1) _ _ _ []);
    [|done|done|by look_up|by look_up].
  cbn [Store.objects Store.self_results app].
  rewrite (then_loop d l7 entries "css_links" (fun _ => true)
             (group 1) _ _ _ []);
    [|done|done|by look_up|by look_up].
  cbn [Store.objects Store.self_results app].
  rewrite !filter_all, filter_fmap.
  eexists d, _. split; [reflexivity|].
  split; [by apply not_elem_of_dom|].
  split; [|split; [done|]].
  - intros r o Hr. cbn [Store.objects].
    apply elem_of_dom_2 in Hr as Hin.
    assert (r ≠ l1 ∧ r ≠ l2 ∧ r ≠ l3 ∧ r ≠ l4 ∧ r ≠ l5 ∧ r ≠ l6 ∧ r ≠ l7
            ∧ r ≠ d) as (R1 & R2 & R3 & R4 & R5 & R6 & R7 & R8)
      by (repeat split; by intros ->).
    unfold m8, m7, m6, m5, m4, m3, m2, m1.
    by rewrite !lookup_insert_ne by done.
  - unfold Store.read_links. cbn [Store.objects].
    rewrite !(lookup_insert_ne _ _ d) by done. rewrite Hd.
    unfold Store.read_key, Store.read_list. cbn [Store.objects].
    assert (entries !! "external_links"%string = Some l1) as -> by done.
    assert (entries !! "internal_links"%string = Some l2) as -> by done.
    assert (entries !! "onclick_handlers"%string = Some l3) as -> by done.
    assert (entries !! "form_actions"%string = Some l4) as -> by done.
    assert (entries !! "image_sources"%string = Some l5) as -> by done.
    assert (entries !! "script_sources"%string = Some l6) as -> by done.
    assert (entries !! "css_links"%string = Some l7) as -> by done.
    rewrite lookup_insert_eq.
    rewrite !(lookup_insert_ne _ _ l6) by done. rewrite lookup_insert_eq.
    rewrite !(lookup_insert_ne _ _ l5) by done. rewrite lookup_insert_eq.
    rewrite !(lookup_insert_ne _ _ l4) by done. rewrite lookup_insert_eq.
    rewrite !(lookup_insert_ne _ _ l3) by done. rewrite lookup_insert_eq.
    rewrite !(lookup_insert_ne _ _ l2) by done. rewrite lookup_insert_eq.
    rewrite !(lookup_insert_ne _ _ l1) by done. rewrite lookup_insert_eq.
    done.
Qed.

Lemma read_untouched (σ σ' : Store.state) (d : Store.ref) (l : Links) :
  untouched σ σ' → Store.read_links σ d = Some l →
  Store.read_links σ' d = Some l.
Proof.
  intros Hu. unfold Store.read_links.
  destruct (Store.objects σ !! d) as [[items|entries]|] eqn:Ed; try done.
  rewrite (Hu _ _ Ed).
  assert (∀ key items, Store.read_key σ entries key = Some items →
                       Store.read_key σ' entries key = Some items) as Hkey.
  { intros key items. unfold Store.read_key, Store.read_list.
    destruct (entries !! key) as [r|]; [|done].
    destruct (Store.objects σ !! r) as [[its|es]|] eqn:Er; try done.
    by rewrite (Hu _ _ Er). }
  destruct (Store.read_key σ entries "external_links") as [e|] eqn:E1;
    [|done]. rewrite (Hkey _ _ E1).
  destruct (Store.read_key σ entries "internal_links") as [i|] eqn:E2;
    [|done]. rewrite (Hkey _ _ E2).
  destruct (Store.read_key σ entries "onclick_handlers") as [o|] eqn:E3;
    [|done]. rewrite (Hkey _ _ E3).
  destruct (Store.read_key σ entries "form_actions") as [f|] eqn:E4;
    [|done]. rewrite (Hkey _ _ E4).
  destruct (Store.read_key σ entries "image_sources") as [im|] eqn:E5;
    [|done]. rewrite (Hkey _ _ E5).
  destruct (Store.read_key σ entries "script_sources") as [s|] eqn:E6;
    [|done]. rewrite (Hkey _ _ E6).
  destruct (Store.read_key σ entries "css_links") as [c|] eqn:E7;
    [|done]. by rewrite (Hkey _ _ E7).
Qed.

(** C9.  The extraction carries no state from one call to the next.  In
    a store that holds every object alive and the results of the checker,
    whatever they are, a call returns a new dictionary whose seven lists
    hold exactly what the text alone determines; it changes no object
    that existed before and leaves the results of the checker alone.  So
    two calls on the same text, one after the other or from any two
    states, return dictionaries with the same categories, the same
    strings and the same order; the two are distinct objects, and the
    second call does not alter what the first returned. *)
Theorem extraction_carries_no_state (html : string) (σ σb : Store.state) :
  ∃ d1 σ1 d2 σ2 db σb',
    Store.extract_links_from_html html σ = (Return d1, σ1)
    ∧ Store.extract_links_from_html html σ1 = (Return d2, σ2)
    ∧ Store.extract_links_from_html html σb = (Return db, σb')
    ∧ Store.read_links σ1 d1 = Some (extract_links_from_html html)
    ∧ Store.read_links σ2 d2 = Some (extract_links_from_html html)
    ∧ Store.read_links σb' db = Some (extract_links_from_html html)
    ∧ Store.read_links σ2 d1 = Some (extract_links_from_html html)
    ∧ d1 ≠ d2
    ∧ Store.objects σ !! d1 = None ∧ Store.objects σ1 !! d2 = None
    ∧ untouched σ σ1 ∧ untouched σ1 σ2 ∧ untouched σb σb'
    ∧ Store.self_results σ1 = Store.self_results σ
    ∧ Store.self_results σ2 = Store.self_results σ
    ∧ Store.self_results σb' = Store.self_results σb.
Proof.
  destruct (extraction_in_store html σ) as (d1 & σ1 & R1 & F1 & U1 & S1 & L1).
  destruct (extraction_in_store html σ1) as (d2 & σ2 & R2 & F2 & U2 & S2 & L2).
  destruct (extraction_in_store html σb) as (db & σb' & Rb & Fb & Ub & Sb & Lb).
  exists d1, σ1, d2, σ2, db, σb'.
  split; [exact R1|]. split; [exact R2|]. split; [exact Rb|].
  split; [exact L1|]. split; [exact L2|]. split; [exact Lb|].
  split; [exact (read_untouched σ1 σ2 d1 _ U2 L1)|].
  split.
  { intros ->. unfold Store.read_links in L1. by rewrite F2 in L1. }
  split; [exact F1|]. split; [exact F2|].
  split; [exact U1|]. split; [exact U2|]. split; [exact Ub|].
  split; [exact S1|]. split; [congruence|exact Sb].
Qed.
